(** * vak real-time triggers and windowing transforms

    A shallow embedding of
    - [vak/realtime_triggers/triggers.py]  (TransitionTrigger.check_trigger),
    - [vak/realtime_triggers/actions.py]   (print_to_screen, AVAILABLE_ACTIONS),
    - [vak/converters.py]                  (json_path_to_trigger_list,
                                            bool_from_str,
                                            comma_separated_list, range_str,
                                            labelset_to_set),
    - [vak/transforms/functional.py]       (standardize_spect, pad_to_window,
                                            reshape_to_window),
    together with the properties the specification states about them
    and further properties of the code.
    The update loop of the trigger engine ([vak/core/realtime.py]) is not
    among these sources; where a property is about it, it is modelled
    from the specification and marked as such.

    Conventions.  Python [int]s are [Z]; Python [str]s are [string] (8-bit
    characters: labels and patterns are taken to be ASCII); a raised
    exception is the [Raise] branch of [result]; objects that the code
    shares by reference (the label stream, standard output) live in an
    explicit [world] that is threaded through the calls. *)

From Stdlib Require Import String Ascii ZArith Lia Bool Arith PeanoNat List.
From Stdlib Require Import Floats.
From Stdlib Require DecimalString DecimalPos Sorted Permutation.
Import ListNotations.

Set Implicit Arguments.
Local Open Scope string_scope.
Local Open Scope list_scope.

(* ================================================================== *)
(** ** Exceptions and results *)
(* ================================================================== *)

(** The exception classes that the modelled code can raise.  [RegexError]
    is [regex.error].  The specification's [ConfigError] is the
    [TypeError] that the loader raises, its [InvalidShape] is the
    [ValueError] of the windowing transforms. *)
Inductive exn : Type :=
| TypeError
| KeyError
| ValueError
| IndexError
| ZeroDivisionError
| RegexError.

Inductive result (A : Type) : Type :=
| Ok (a : A)
| Raise (e : exn).

Arguments Ok {A} a.
Arguments Raise {A} e.

Definition bind {A B : Type} (r : result A) (f : A -> result B) : result B :=
  match r with
  | Ok a => f a
  | Raise e => Raise e
  end.

Notation "x <- c ;; k" := (bind c (fun x => k))
  (at level 61, c at next level, right associativity).

(* ================================================================== *)
(** ** Regular expressions: the fragment of [regex] that is modelled *)
(* ================================================================== *)

(** The code hands its patterns to the [regex] package.  The fragment
    modelled here has literal characters, [.], the greedy quantifiers
    [*], [+] and [?], alternation, groups, and a backslash before
    punctuation; character classes, anchors, counted, lazy and possessive
    repetition, backslash sequences with a letter or a digit and the
    [(?...)] extensions are outside of it.  Matching follows the
    backtracking discipline of the package: the leftmost start, the
    alternatives in their order, the longest repetition first. *)
Module Regex.

(** Abstract syntax.  [Any] is [.], which matches every character but a
    line feed (no DOTALL flag is passed by the code). *)
Inductive regex : Type :=
| Eps
| Chr (c : ascii)
| Any
| Cat (r1 r2 : regex)
| Alt (r1 r2 : regex)
| Star (r : regex).

Definition LF : ascii := ascii_of_nat 10.

(** *** Compilation of a pattern string

    One left-to-right pass with a stack of open groups.  A frame holds the
    alternatives already closed by [|] and the items of the sequence being
    read, both most recent first. *)
Record frame : Type := {
  done_alts : list regex;
  cur_items : list regex;
  last_quantified : bool
}.

Definition empty_frame : frame :=
  {| done_alts := []; cur_items := []; last_quantified := false |}.

Inductive pstate : Type :=
| Parsing (top : frame) (outer : list frame) (escaped : bool)
| Failed        (* the pattern is malformed: regex.error *)
| Beyond.       (* syntax outside the modelled fragment *)

Definition close_seq (items : list regex) : regex :=
  fold_left (fun acc r => Cat r acc) items Eps.

Definition close_frame (f : frame) : regex :=
  fold_left (fun acc a => Alt a acc) (done_alts f) (close_seq (cur_items f)).

Definition push_item (r : regex) (f : frame) : frame :=
  {| done_alts := done_alts f;
     cur_items := r :: cur_items f;
     last_quantified := false |}.

Definition is_quantifier (c : ascii) : bool :=
  (c =? "*")%char || (c =? "+")%char || (c =? "?")%char.

Definition quantify (c : ascii) (r : regex) : regex :=
  if (c =? "*")%char then Star r
  else if (c =? "+")%char then Cat r (Star r)
  else Alt r Eps.

(** Characters whose meaning is not modelled when they occur unescaped. *)
Definition is_unmodelled (c : ascii) : bool :=
  (c =? "[")%char || (c =? "]")%char || (c =? "{")%char || (c =? "}")%char
  || (c =? "^")%char || (c =? "$")%char.

Definition is_alnum (c : ascii) : bool :=
  let n := nat_of_ascii c in
  (((48 <=? n) && (n <=? 57)) || ((65 <=? n) && (n <=? 90))
   || ((97 <=? n) && (n <=? 122)))%nat.

Definition feed (st : pstate) (c : ascii) : pstate :=
  match st with
  | Parsing f outer true =>
      (* a backslash before punctuation makes it a literal; before a
         letter or a digit it starts a class or a reference *)
      if is_alnum c then Beyond else Parsing (push_item (Chr c) f) outer false
  | Parsing f outer false =>
      if (c =? "\")%char then Parsing f outer true
      else if (c =? "(")%char then Parsing empty_frame (f :: outer) false
      else if (c =? ")")%char then
        match outer with
        | [] => Failed                              (* unbalanced parenthesis *)
        | g :: outer' => Parsing (push_item (close_frame f) g) outer' false
        end
      else if (c =? "|")%char then
        Parsing {| done_alts := close_seq (cur_items f) :: done_alts f;
                   cur_items := [];
                   last_quantified := false |} outer false
      else if (c =? ".")%char then Parsing (push_item Any f) outer false
      else if is_quantifier c then
        match cur_items f with
        | [] =>
            match outer, done_alts f with
            | _ :: _, [] => Beyond                  (* "(?", "(*": extensions *)
            | _, _ => Failed                        (* nothing to repeat *)
            end
        | r :: rs =>
            if last_quantified f then Beyond        (* lazy, possessive, ... *)
            else Parsing {| done_alts := done_alts f;
                            cur_items := quantify c r :: rs;
                            last_quantified := true |} outer false
        end
      else if is_unmodelled c then Beyond
      else Parsing (push_item (Chr c) f) outer false
  | Failed => Failed
  | Beyond => Beyond
  end.

Inductive compiled : Type :=
| Pattern (r : regex)
| PatternError
| OutsideFragment.

Definition finish (st : pstate) : compiled :=
  match st with
  | Parsing f [] false => Pattern (close_frame f)
  | Parsing _ _ _ => PatternError     (* missing ")", or a trailing backslash *)
  | Failed => PatternError
  | Beyond => OutsideFragment
  end.

Definition compile (pattern : string) : compiled :=
  finish (fold_left feed (list_ascii_of_string pattern)
                    (Parsing empty_frame [] false)).

(** *** Backtracking matcher

    [run r s k] matches [r] at the front of [s] and hands the rest of the
    input to the continuation [k]; alternatives are tried left to right
    and [Star] is greedy, as in a backtracking engine.  An iteration of a
    starred expression has to consume input, which also bounds the number
    of iterations by the length of the input. *)
Definition continuation : Type := list ascii -> option (list ascii).

(** The loop of a starred expression whose body is matched by [body]. *)
Fixpoint iterate (body : list ascii -> continuation -> option (list ascii))
         (k : continuation) (fuel : nat) (s : list ascii) {struct fuel}
  : option (list ascii) :=
  match fuel with
  | O => k s
  | S fuel' =>
      match body s (fun s' => if (length s' <? length s)%nat
                              then iterate body k fuel' s'
                              else None)
      with
      | Some e => Some e
      | None => k s
      end
  end.

Fixpoint run (r : regex) (s : list ascii) (k : continuation) {struct r}
  : option (list ascii) :=
  match r with
  | Eps => k s
  | Chr c =>
      match s with
      | a :: s' => if (a =? c)%char then k s' else None
      | [] => None
      end
  | Any =>
      match s with
      | a :: s' => if (a =? LF)%char then None else k s'
      | [] => None
      end
  | Cat r1 r2 => run r1 s (fun s' => run r2 s' k)
  | Alt r1 r2 =>
      match run r1 s k with
      | Some e => Some e
      | None => run r2 s k
      end
  | Star r1 => iterate (run r1) k (length s) s
  end.

(** [search_from r pos s]: the leftmost match of [r] in [s], where [s] is
    the input from position [pos] on; the result is [(start, end)]. *)
Fixpoint search_from (r : regex) (pos : nat) (s : list ascii)
  : option (nat * nat) :=
  match run r s (fun rest => Some rest) with
  | Some rest => Some (pos, pos + (length s - length rest))
  | None =>
      match s with
      | [] => None
      | _ :: s' => search_from r (S pos) s'
      end
  end.

(** The match object: only its span is used by the code. *)
Record Match : Type := { m_start : Z; m_end : Z }.

Definition search (r : regex) (s : string) : option Match :=
  match search_from r 0 (list_ascii_of_string s) with
  | Some (b, e) => Some {| m_start := Z.of_nat b; m_end := Z.of_nat e |}
  | None => None
  end.

End Regex.

(* ================================================================== *)
(** ** Python values *)
(* ================================================================== *)

(** What [json.load] can produce, and so what the loader and the fields
    of a trigger can hold. *)
#[warnings="-register-all"]
Inductive value : Type :=
| VNone
| VBool (b : bool)
| VInt (z : Z)
| VFloat (f : float)
| VStr (s : string)
| VList (items : list value)
| VDict (entries : list (string * value)).

(** An f-string: literal text interleaved with formatted values.  The
    rendering of a formatted value ([str(v)]) is left symbolic. *)
Inductive piece : Type :=
| Lit (s : string)
| Fmt (v : value).

Definition text : Type := list piece.

(** [l[start:stop]] with Python's treatment of negative and too large
    indices. *)
Definition clamp_index (len i : Z) : Z :=
  if (i <? 0)%Z then Z.max 0 (i + len) else Z.min i len.

Definition py_slice {A : Type} (l : list A) (start stop : Z) : list A :=
  let n := Z.of_nat (length l) in
  let a := clamp_index n start in
  let b := clamp_index n stop in
  firstn (Z.to_nat (b - a)) (skipn (Z.to_nat a) l).

(* ================================================================== *)
(** ** realtime_triggers: triggers and actions *)
(* ================================================================== *)

(** The callables that can be bound to a trigger: the members of
    [AVAILABLE_ACTIONS].  A trigger stores which one it is bound to and
    [call] dispatches to the function. *)
Inductive callable : Type :=
| PrintToScreen.

Definition TRIGGER_TYPES : list string := ["transition"].

Definition NOT_TRIGGERED : Z := (-1)%Z.

Record TransitionTrigger : Type := {
  callback : callable;
  from_seg : value;
  to_seg : value
}.

(** [TransitionTrigger.__str__] *)
Definition trigger_str (self : TransitionTrigger) : text :=
  [Lit "Trigger: "; Fmt (from_seg self); Lit " -> "; Fmt (to_seg self)].

(** The label stream is one list object, shared by reference between the
    caller, the trigger and the action; [stdout] collects what [print]
    writes, one entry per call. *)
Record world : Type := {
  cur_stream : list string;
  stdout : list text
}.

Definition NL : string := String (ascii_of_nat 10) EmptyString.
Definition TAB : string := String (ascii_of_nat 9) EmptyString.

(** [actions.print_to_screen] *)
Definition print_to_screen (trig : TransitionTrigger) (m : Regex.Match)
           (w : world) : world :=
  let stream := cur_stream w in
  let start := Z.max 0 (Regex.m_start m - 10) in
  let end_ := Z.min (Z.of_nat (length stream)) (Regex.m_end m + 10) in
  {| cur_stream := stream;
     stdout := stdout w ++
       [trigger_str trig ++
        [Lit (" was triggered! State:" ++ NL ++ TAB ++ "        ...")%string;
         Fmt (VStr (String.concat "-" (py_slice stream start end_)));
         Lit (NL ++ TAB ++ "        (")%string;
         Fmt (VInt (Z.of_nat (length stream) - 10));
         Lit " segments not printed)."]] |}.

Definition AVAILABLE_ACTIONS : list (string * callable) :=
  [("print_to_screen", PrintToScreen)].

Definition call (f : callable)
  : TransitionTrigger -> Regex.Match -> world -> world :=
  match f with
  | PrintToScreen => print_to_screen
  end.

(** ["..." + v]: string concatenation raises unless [v] is a [str]. *)
Definition str_add (a : string) (b : value) : result string :=
  match b with
  | VStr s => Ok (a ++ s)%string
  | _ => Raise TypeError
  end.

(** What a call of [check_trigger] does: it returns an [int], or an
    exception escapes it; [NotModelled] marks patterns outside the
    fragment of [Regex], of which [check_trigger] says nothing (the
    code compiles and searches them as any other): the properties of
    [check_trigger] are about patterns of the fragment, and
    [check_trigger_with] covers the others. *)
Inductive checked : Type :=
| Returned (index : Z)
| Raised (e : exn)
| NotModelled.

Definition stream_regex (self : TransitionTrigger) : result string :=
  p <- str_add ".*" (from_seg self) ;;
  q <- str_add p (to_seg self) ;;
  Ok (q ++ ".*")%string.

(** [TransitionTrigger.check_trigger] *)
Definition check_trigger (self : TransitionTrigger) (w : world)
  : checked * world :=
  match stream_regex self with
  | Raise e => (Raised e, w)
  | Ok pattern =>
      let joined := String.concat "" (cur_stream w) in
      match Regex.compile pattern with
      | Regex.PatternError => (Raised RegexError, w)
      | Regex.OutsideFragment => (NotModelled, w)
      | Regex.Pattern r =>
          match Regex.search r joined with
          | Some m =>
              let w' := call (callback self) self m w in
              (Returned (Regex.m_end m), w')
          | None => (Returned NOT_TRIGGERED, w)
          end
      end
  end.

(** The search of the [regex] package as a whole, for patterns of every
    syntax: [re.search(pattern, text)] returns a match or [None], or
    raises ([regex.error] for a malformed pattern). *)
Definition searcher : Type :=
  string -> string -> result (option Regex.Match).

(** [TransitionTrigger.check_trigger] once more, over any search
    function: what the method does with whatever [re.search] gives,
    also for the patterns that [Regex] does not model. *)
Definition check_trigger_with (re_search : searcher)
           (self : TransitionTrigger) (w : world) : result Z * world :=
  match stream_regex self with
  | Raise e => (Raise e, w)
  | Ok pattern =>
      match re_search pattern (String.concat "" (cur_stream w)) with
      | Raise e => (Raise e, w)
      | Ok (Some m) =>
          let w' := call (callback self) self m w in
          (Ok (Regex.m_end m), w')
      | Ok None => (Ok NOT_TRIGGERED, w)
      end
  end.

(* ================================================================== *)
(** ** converters: the trigger configuration loader *)
(* ================================================================== *)

(** *** The Python operations the loader applies to parsed JSON *)

(** [needle in hay] for two [str]s: the substring test. *)
Fixpoint str_contains (needle hay : string) : bool :=
  String.prefix needle hay
  || match hay with
     | EmptyString => false
     | String _ hay' => str_contains needle hay'
     end.

(** [v == s] for a [str] literal [s]. *)
Definition eq_str (v : value) (s : string) : bool :=
  match v with
  | VStr t => String.eqb t s
  | _ => false
  end.

Fixpoint dict_get (key : string) (entries : list (string * value))
  : option value :=
  match entries with
  | [] => None
  | (k, v) :: rest => if String.eqb k key then Some v else dict_get key rest
  end.

Definition dict_has (key : string) (entries : list (string * value)) : bool :=
  match dict_get key entries with
  | Some _ => true
  | None => false
  end.

(** ["key" in v] *)
Definition py_in (key : string) (v : value) : result bool :=
  match v with
  | VDict entries => Ok (dict_has key entries)
  | VList items => Ok (existsb (fun x => eq_str x key) items)
  | VStr s => Ok (str_contains key s)
  | VNone | VBool _ | VInt _ | VFloat _ => Raise TypeError   (* not iterable *)
  end.

(** [v["key"]] *)
Definition py_getitem (v : value) (key : string) : result value :=
  match v with
  | VDict entries =>
      match dict_get key entries with
      | Some x => Ok x
      | None => Raise KeyError
      end
  | _ => Raise TypeError   (* indices must be integers; not subscriptable *)
  end.

Fixpoint chars_of (s : string) : list value :=
  match s with
  | EmptyString => []
  | String c s' => VStr (String c EmptyString) :: chars_of s'
  end.

(** [for x in v]: the items that the loop visits. *)
Definition py_iter (v : value) : result (list value) :=
  match v with
  | VList items => Ok items
  | VDict entries => Ok (map (fun kv => VStr (fst kv)) entries)
  | VStr s => Ok (chars_of s)
  | VNone | VBool _ | VInt _ | VFloat _ => Raise TypeError
  end.

(** [len(v)] *)
Definition py_len (v : value) : result Z :=
  match v with
  | VStr s => Ok (Z.of_nat (String.length s))
  | VList items => Ok (Z.of_nat (length items))
  | VDict entries => Ok (Z.of_nat (length entries))
  | VNone | VBool _ | VInt _ | VFloat _ => Raise TypeError
  end.

(** [v in TRIGGER_TYPES]: membership in a list of [str]s. *)
Definition in_str_list (v : value) (l : list string) : bool :=
  existsb (eq_str v) l.

Fixpoint actions_get (name : string) (table : list (string * callable))
  : option callable :=
  match table with
  | [] => None
  | (k, f) :: rest => if String.eqb k name then Some f else actions_get name rest
  end.

(** Looking a value up in [AVAILABLE_ACTIONS], whose keys are [str]s:
    lists and dicts cannot be hashed, every other non-[str] is absent. *)
Definition actions_lookup (v : value) : result (option callable) :=
  match v with
  | VList _ | VDict _ => Raise TypeError
  | VStr s => Ok (actions_get s AVAILABLE_ACTIONS)
  | VNone | VBool _ | VInt _ | VFloat _ => Ok None
  end.

(** [v in AVAILABLE_ACTIONS] *)
Definition in_actions (v : value) : result bool :=
  found <- actions_lookup v ;;
  Ok (match found with Some _ => true | None => false end).

(** [AVAILABLE_ACTIONS[v]] *)
Definition actions_getitem (v : value) : result callable :=
  found <- actions_lookup v ;;
  match found with
  | Some f => Ok f
  | None => Raise KeyError
  end.

(** *** The loader *)

(** The body of the validation loop, for one entry. *)
Definition validate_entry (trig : value) : result unit :=
  has_type <- py_in "type" trig ;;
  if negb has_type then Raise TypeError else
  ty <- py_getitem trig "type" ;;
  if negb (in_str_list ty TRIGGER_TYPES) then Raise TypeError else
  has_callback <- py_in "callback" trig ;;
  if negb has_callback then Raise TypeError else
  cb <- py_getitem trig "callback" ;;
  known <- in_actions cb ;;
  if negb known then Raise TypeError else
  ty' <- py_getitem trig "type" ;;
  if eq_str ty' "Transition" then
    (has_from <- py_in "from" trig ;;
     if negb has_from then Raise TypeError else
     has_to <- py_in "to" trig ;;
     (* not "to" in trig and len(trig["to"]) == 1 *)
     bad_to <- (if negb has_to
                then (t <- py_getitem trig "to" ;;
                      n <- py_len t ;;
                      Ok (n =? 1)%Z)
                else Ok false) ;;
     if bad_to then Raise TypeError else Ok tt)
  else Ok tt.

Fixpoint validate_all (entries : list value) : result unit :=
  match entries with
  | [] => Ok tt
  | trig :: rest => _ <- validate_entry trig ;; validate_all rest
  end.

(** The body of the construction loop, for one entry: the trigger to
    append, if the entry is a transition. *)
Definition build_entry (trigger_json : value)
  : result (option TransitionTrigger) :=
  ty <- py_getitem trigger_json "type" ;;
  if eq_str ty "transition" then
    (cb <- py_getitem trigger_json "callback" ;;
     f <- actions_getitem cb ;;
     from_ <- py_getitem trigger_json "from" ;;
     to_ <- py_getitem trigger_json "to" ;;
     Ok (Some {| callback := f; from_seg := from_; to_seg := to_ |}))
  else Ok None.

(** The construction loop.  The second component is [trig_list] when the
    loop is left, by return or by an exception: the TransitionTrigger
    objects constructed so far. *)
Fixpoint build_all (entries : list value) (trig_list : list TransitionTrigger)
  : result (list TransitionTrigger) * list TransitionTrigger :=
  match entries with
  | [] => (Ok trig_list, trig_list)
  | trigger_json :: rest =>
      match build_entry trigger_json with
      | Raise e => (Raise e, trig_list)
      | Ok None => build_all rest trig_list
      | Ok (Some t) => build_all rest (trig_list ++ [t])
      end
  end.

Record loaded : Type := {
  outcome : result (list TransitionTrigger);
  constructed : list TransitionTrigger
}.

(** The entries the two loops run over: [triggers_json["triggers"]]. *)
Definition declared_entries (triggers_json : value) : result (list value) :=
  v <- py_getitem triggers_json "triggers" ;;
  py_iter v.

(** [json_path_to_trigger_list], from the document that [json.load] has
    read from the file: opening the file and parsing it, and the
    exceptions of these two steps, are outside the model. *)
Definition json_path_to_trigger_list (triggers_json : value) : loaded :=
  match (has <- py_in "triggers" triggers_json ;;
         if negb has then Raise TypeError else
         entries <- declared_entries triggers_json ;;
         validate_all entries)
  with
  | Raise e => {| outcome := Raise e; constructed := [] |}
  | Ok _ =>
      match declared_entries triggers_json with
      | Raise e => {| outcome := Raise e; constructed := [] |}
      | Ok entries =>
          let (r, built) := build_all entries [] in
          {| outcome := r; constructed := built |}
      end
  end.

(* ================================================================== *)
(** ** transforms.functional: the windowing pipeline *)
(* ================================================================== *)

(** A numpy array: its shape and its elements in row-major (C) order.
    The element type is abstract.  For [standardize_spect] the arithmetic
    of the dtype is a parameter: [sub] is the subtraction of the arrays'
    elements, [div] their division followed by the cast that storing the
    quotient into [tfm] performs (the identity for floating-point
    arrays, which spectrograms are). *)
Record ndarray (A : Type) : Type := {
  shape : list nat;
  data : list A
}.

Definition size_of (sh : list nat) : nat := fold_right Nat.mul 1 sh.

Definition ndim {A : Type} (arr : ndarray A) : nat := length (shape arr).

Definition np_size {A : Type} (arr : ndarray A) : nat := size_of (shape arr).

(** The buffer holds exactly the elements that the shape announces. *)
Definition well_shaped {A : Type} (arr : ndarray A) : Prop :=
  length (data arr) = np_size arr.

(** [chunks n w l]: the first [n] consecutive runs of [w] elements of [l],
    the rows of an [n] by [w] array stored in [l]. *)
Fixpoint chunks {A : Type} (n w : nat) (l : list A) : list (list A) :=
  match n with
  | O => []
  | S n' => firstn w l :: chunks n' w (skipn w l)
  end.

(** Boolean-mask selection [xs[mask]] on equal lengths. *)
Fixpoint select {A : Type} (mask : list bool) (xs : list A) : list A :=
  match mask, xs with
  | b :: mask', x :: xs' => if b then x :: select mask' xs' else select mask' xs'
  | _, _ => []
  end.

(** [xs[mask]] for one-dimensional [xs]: the lengths have to agree. *)
Definition np_compress {A : Type} (mask : list bool) (xs : list A)
  : result (list A) :=
  if (length mask =? length xs)%nat then Ok (select mask xs)
  else Raise IndexError.

Section Standardize.

Variable A : Type.
Variables sub div : A -> A -> A.

(** [rows - mean_freqs[:, np.newaxis]], with numpy's broadcasting of an
    [(F, T)] array against an [(M, 1)] array. *)
Definition broadcast_sub (rows : list (list A)) (mean_freqs : list A)
  : result (list (list A)) :=
  let F := length rows in
  let M := length mean_freqs in
  if (F =? M)%nat then
    Ok (map (fun rm => map (fun x => sub x (snd rm)) (fst rm))
            (combine rows mean_freqs))
  else
    match mean_freqs, rows with
    | [m], _ => Ok (map (fun row => map (fun x => sub x m) row) rows)
    | _, [row] => Ok (map (fun m => map (fun x => sub x m) row) mean_freqs)
    | _, _ => Raise ValueError
    end.

(** [tfm[mask, :] = tfm[mask, :] / std_freqs[mask, np.newaxis]] on equal
    lengths: the selected rows are divided, where they stand. *)
Fixpoint divide_selected (tfm : list (list A)) (std_freqs : list A)
         (mask : list bool) : list (list A) :=
  match tfm, std_freqs, mask with
  | row :: tfm', s :: std', b :: mask' =>
      (if b then map (fun x => div x s) row else row)
      :: divide_selected tfm' std' mask'
  | _, _, _ => []
  end.

(** [standardize_spect] on a two-dimensional [spect] and one-dimensional
    [mean_freqs], [std_freqs], [non_zero_std], as its docstring requires;
    [None] for a [spect] of another dimension, which is not modelled.
    numpy compares the length of a boolean index with the length of the
    axis it indexes unless the index is empty: an empty [non_zero_std]
    selects no row of [tfm] and no entry of [std_freqs], whatever their
    lengths, and [tfm] is returned as the subtraction left it. *)
Definition standardize_spect (spect : ndarray A) (mean_freqs std_freqs : list A)
           (non_zero_std : list bool) : option (result (ndarray A)) :=
  match shape spect with
  | [F; T] =>
      Some (tfm <- broadcast_sub (chunks F T (data spect)) mean_freqs ;;
            if (length non_zero_std =? 0)%nat
            then Ok {| shape := [length tfm; T]; data := concat tfm |}
            else if negb (length non_zero_std =? length tfm)%nat
            then Raise IndexError
            else if negb (length non_zero_std =? length std_freqs)%nat
            then Raise IndexError
            else Ok {| shape := [length tfm; T];
                       data := concat (divide_selected tfm std_freqs
                                                       non_zero_std) |})
  | _ => None
  end.

End Standardize.

Section Windows.

Variable A : Type.

(** [np.ceil(a / b)] for [b <> 0], as an exact integer.  The code
    computes [np.ceil(width / window_size) * window_size] in binary64:
    the two agree when [width + |window_size| <= 2^53], the range in
    which the quotient is never rounded to a whole number and the
    product is exact ([float64_exact]); beyond it the code rounds, or
    raises an OverflowError, and the properties below do not go there. *)
Definition ceil_div (a b : Z) : Z := (- ((- a) / b))%Z.

Definition float64_exact (width : nat) (window_size : Z) : Prop :=
  (Z.of_nat width + Z.abs window_size <= 2 ^ 53)%Z.

(** numpy refuses to build an array whose size in bytes does not fit a
    machine integer, counting the dimensions that are not zero:
    [float64_fits] keeps the padded float64 array of [height] rows
    below this limit. *)
Definition float64_fits (height width : nat) (window_size : Z) : Prop :=
  (8 * Z.of_nat height * (Z.of_nat width + Z.abs window_size) < 2 ^ 63)%Z.

(** The conversion to float64 of the elements of [arr], which the
    assignment into [padded] performs: the array that the code builds
    with [np.ones(...) * padval] is always a float64 array. *)
Variable as_float64 : A -> float.

(** [pad_to_window].  [width / window_size] raises for a zero window
    size; [padded[..., :width] = arr] raises when [arr] cannot be
    broadcast into the slice, whose width is the smaller of [width] and
    [target_width]: this happens only for a negative window size, and
    not for a single column, which numpy broadcasts.  [padval] is the
    pad value as a binary64 number, which [1.0 * padval] leaves as it
    is. *)
Definition pad_to_window (arr : ndarray A) (window_size : Z) (padval : float)
           (return_padding_mask : bool)
  : result (ndarray float * option (list bool)) :=
  dims <- match shape arr with
          | [width] => Ok (None, width)
          | [height; width] => Ok (Some height, width)
          | _ => Raise ValueError
          end ;;
  let height := fst dims in
  let width := snd dims in
  if (window_size =? 0)%Z then Raise ZeroDivisionError else
  let target_width :=
    Z.to_nat (ceil_div (Z.of_nat width) window_size * window_size) in
  if negb ((width <=? target_width) || (width =? 1))%nat
  then Raise ValueError else
  let pad_row (row : list float) : list float :=
    if (width <=? target_width)%nat
    then row ++ repeat padval (target_width - width)
    else repeat padval target_width in
  let cells := map as_float64 (data arr) in
  let padded :=
    match height with
    | None => {| shape := [target_width]; data := pad_row cells |}
    | Some h =>
        {| shape := [h; target_width];
           data := concat (map pad_row (chunks h width cells)) |}
    end in
  if return_padding_mask then
    let padding_mask :=
      repeat true (Nat.min width target_width)
      ++ repeat false (target_width - width) in
    Ok (padded, Some padding_mask)
  else Ok (padded, None).

(** [arr.reshape(newshape)]: a negative entry stands for the dimension
    to infer, and only one may occur; the array keeps its buffer.  The
    dimensions are exact integers.  numpy holds them in machine integers
    and refuses a shape whose size in bytes does not fit one, which it
    can meet only when the array is empty or an entry of [newshape] is
    beyond 2^63: the properties below are about arrays that are not
    empty and window sizes below 2^63. *)
Fixpoint scan_dims (dims : list Z) (unknown : bool) (s_known : Z)
  : result (bool * Z) :=
  match dims with
  | [] => Ok (unknown, s_known)
  | d :: rest =>
      if (d <? 0)%Z then
        if unknown then Raise ValueError else scan_dims rest true s_known
      else scan_dims rest unknown (s_known * d)%Z
  end.

Definition np_reshape (arr : ndarray A) (newshape : list Z)
  : result (ndarray A) :=
  r <- scan_dims newshape false 1%Z ;;
  let unknown := fst r in
  let s_known := snd r in
  let s_original := Z.of_nat (np_size arr) in
  if unknown then
    if (s_known =? 0)%Z || negb (s_original mod s_known =? 0)%Z
    then Raise ValueError
    else Ok {| shape := map (fun d => Z.to_nat (if (d <? 0)%Z
                                                then s_original / s_known
                                                else d)%Z) newshape;
               data := data arr |}
  else if (s_original =? s_known)%Z
       then Ok {| shape := map Z.to_nat newshape; data := data arr |}
       else Raise ValueError.

(** [reshape_to_window] *)
Definition reshape_to_window (arr : ndarray A) (window_size : Z)
  : result (ndarray A) :=
  match shape arr with
  | [_] => np_reshape arr [(-1)%Z; window_size]
  | [height; _] => np_reshape arr [(-1)%Z; Z.of_nat height; window_size]
  | _ => Raise ValueError
  end.

(** Undoing the windows of a two-dimensional array: the flattened
    windows, seen again as [height] rows, with the columns that the mask
    selects. *)
Fixpoint crop_rows (mask : list bool) (rows : list (list A))
  : result (list (list A)) :=
  match rows with
  | [] => Ok []
  | row :: rest =>
      r <- np_compress mask row ;;
      rs <- crop_rows mask rest ;;
      Ok (r :: rs)
  end.

End Windows.

(* ================================================================== *)
(** ** The trigger engine *)
(* ================================================================== *)

(** Modelled from the spec: the per-trigger result of an update, of
    which the sources hold no code: the specification's [MatchResult]
    with the report of a failed evaluation (section 7). *)
Inductive report : Type :=
| NoMatch
| MatchedAt (endIndex : Z)
| TriggerEvaluationError.

(** Modelled from the spec: how the engine reports what
    [check_trigger] did: NOT_TRIGGERED is [NoMatch], another index is a
    match ending there, an exception is a [TriggerEvaluationError]. *)
Definition report_of (c : result Z) : report :=
  match c with
  | Ok i => if (i =? NOT_TRIGGERED)%Z then NoMatch else MatchedAt i
  | Raise _ => TriggerEvaluationError
  end.

(** Modelled from the spec: the update step of the Trigger Engine
    ([onNewSymbol], sections 4.4 and 6), whose code ([vak.core.realtime])
    is not among the sources.  Every trigger of the list is evaluated, in
    declaration order, with [check_trigger]; an exception that escapes
    the evaluation of one trigger is caught and reported for that trigger
    as [TriggerEvaluationError], and the evaluation goes on with the next
    trigger.  The search function of the regex package is a parameter,
    so that the triggers can have patterns of every syntax. *)
Fixpoint onNewSymbol (re_search : searcher)
         (triggers : list TransitionTrigger) (w : world)
  : list report * world :=
  match triggers with
  | [] => ([], w)
  | t :: rest =>
      let (c, w1) := check_trigger_with re_search t w in
      let (reports, w2) := onNewSymbol re_search rest w1 in
      (report_of c :: reports, w2)
  end.

(* ================================================================== *)
(** ** Vocabulary of the properties *)
(* ================================================================== *)

(** The symbols of the stream, joined as [check_trigger] joins them. *)
Definition joined (w : world) : string := String.concat "" (cur_stream w).

(** What [Regex] says of a search, for the patterns of its fragment. *)
Definition fragment_search (pattern text : string)
  : option (result (option Regex.Match)) :=
  match Regex.compile pattern with
  | Regex.Pattern r => Some (Ok (Regex.search r text))
  | Regex.PatternError => Some (Raise RegexError)
  | Regex.OutsideFragment => None
  end.

(** A search function that does, on the fragment, what [Regex] says. *)
Definition models_fragment (re_search : searcher) : Prop :=
  forall pattern text o,
    fragment_search pattern text = Some o -> re_search pattern text = o.

(** A match ends at a position of the text, which is not negative. *)
Definition ends_not_negative (re_search : searcher) : Prop :=
  forall pattern text m,
    re_search pattern text = Ok (Some m) -> (0 <= Regex.m_end m)%Z.

(** A sample search function: [Regex] on its fragment, and a refusal of
    every other pattern. *)
Definition within_fragment : searcher :=
  fun pattern text =>
    match fragment_search pattern text with
    | Some o => o
    | None => Raise RegexError
    end.

(** The words that a pattern denotes, against which the backtracking
    matcher is checked. *)
Inductive matches : Regex.regex -> list ascii -> Prop :=
| matches_eps : matches Regex.Eps []
| matches_chr c : matches (Regex.Chr c) [c]
| matches_any a : (a =? Regex.LF)%char = false -> matches Regex.Any [a]
| matches_cat r1 r2 s1 s2 :
    matches r1 s1 -> matches r2 s2 -> matches (Regex.Cat r1 r2) (s1 ++ s2)
| matches_alt_l r1 r2 s : matches r1 s -> matches (Regex.Alt r1 r2) s
| matches_alt_r r1 r2 s : matches r2 s -> matches (Regex.Alt r1 r2) s
| matches_star_nil r : matches (Regex.Star r) []
| matches_star_app r s1 s2 :
    matches r s1 -> matches (Regex.Star r) s2 ->
    matches (Regex.Star r) (s1 ++ s2).

(** [s'] is what is left of [s] after a prefix. *)
Definition suffix_of (s' s : list ascii) : Prop := exists p, s = p ++ s'.

Definition line_feed_free (s : list ascii) : bool :=
  forallb (fun c => negb (c =? Regex.LF)%char) s.

Definition no_line_feed (s : string) : bool :=
  line_feed_free (list_ascii_of_string s).

(** The compiled pattern ends, in every alternative, with the greedy
    [.*] that [check_trigger] appends. *)
Fixpoint greedy_tail (r : Regex.regex) : bool :=
  match r with
  | Regex.Star Regex.Any => true
  | Regex.Cat r1 Regex.Eps => greedy_tail r1
  | Regex.Cat _ r2 => greedy_tail r2
  | Regex.Alt r1 r2 => greedy_tail r1 && greedy_tail r2
  | _ => false
  end.

(** A pattern string without any character that [Regex.feed] treats
    specially: it stands for itself. *)
Definition plain_char (c : ascii) : bool :=
  negb ((c =? "\")%char || (c =? "(")%char || (c =? ")")%char
        || (c =? "|")%char || (c =? ".")%char
        || Regex.is_quantifier c || Regex.is_unmodelled c).

Definition plain (s : string) : bool :=
  forallb plain_char (list_ascii_of_string s).

(** The number of stream symbols that a slice [start:stop] leaves out. *)
Definition symbols_outside (stream : list string) (start stop : Z) : Z :=
  Z.of_nat (length stream) - Z.of_nat (length (py_slice stream start stop)).

(** The width after padding, for a width [W] and a window size [k], and
    the mask that goes with it. *)
Definition padded_width (W : nat) (k : Z) : nat :=
  Z.to_nat (ceil_div (Z.of_nat W) k * k).

Definition padding_mask_of (W T' : nat) : list bool :=
  repeat true (Nat.min W T') ++ repeat false (T' - W).

(** *** Configurations *)

(** The document is an object whose ["triggers"] field lists [entries]. *)
Definition declares (cfg : value) (entries : list value) : Prop :=
  exists fields, cfg = VDict fields
                 /\ dict_get "triggers" fields = Some (VList entries).

Definition missing_triggers (cfg : value) : Prop :=
  exists fields, cfg = VDict fields /\ dict_get "triggers" fields = None.

Definition unknown_type (entry : value) : Prop :=
  exists fields ty, entry = VDict fields
                    /\ dict_get "type" fields = Some ty
                    /\ in_str_list ty TRIGGER_TYPES = false.

Definition unknown_callback (entry : value) : Prop :=
  exists fields cb, entry = VDict fields
                    /\ dict_get "callback" fields = Some cb
                    /\ (forall name, cb = VStr name ->
                                     actions_get name AVAILABLE_ACTIONS = None).

Definition transition_missing (field : string) (entry : value) : Prop :=
  exists fields, entry = VDict fields
                 /\ dict_get "type" fields = Some (VStr "transition")
                 /\ dict_get field fields = None.

(** A "transition" entry with its four fields, the callback being the
    name of a registered action. *)
Definition valid_entry (entry : value) : bool :=
  match entry with
  | VDict fields =>
      match dict_get "type" fields, dict_get "callback" fields,
            dict_get "from" fields, dict_get "to" fields with
      | Some (VStr ty), Some (VStr cb), Some _, Some _ =>
          String.eqb ty "transition"
          && match actions_get cb AVAILABLE_ACTIONS with
             | Some _ => true
             | None => false
             end
      | _, _, _, _ => false
      end
  | _ => false
  end.

Definition valid_config (cfg : value) : bool :=
  match cfg with
  | VDict fields =>
      match dict_get "triggers" fields with
      | Some (VList entries) => forallb valid_entry entries
      | _ => false
      end
  | _ => false
  end.

Definition is_transition (entry : value) : bool :=
  match entry with
  | VDict fields =>
      match dict_get "type" fields with
      | Some ty => eq_str ty "transition"
      | None => false
      end
  | _ => false
  end.

(** The trigger is the one that the entry declares. *)
Definition bound_to (entry : value) (t : TransitionTrigger) : Prop :=
  exists fields name,
    entry = VDict fields
    /\ dict_get "callback" fields = Some (VStr name)
    /\ actions_get name AVAILABLE_ACTIONS = Some (callback t)
    /\ dict_get "from" fields = Some (from_seg t)
    /\ dict_get "to" fields = Some (to_seg t).

(** *** Sample triggers, streams and configurations *)

Definition world_of (stream : list string) : world :=
  {| cur_stream := stream; stdout := [] |}.

Definition transition (from_ to_ : string) : TransitionTrigger :=
  {| callback := PrintToScreen; from_seg := VStr from_; to_seg := VStr to_ |}.

Definition transition_entry (fields : list (string * value)) : value :=
  VDict (("type", VStr "transition")
         :: ("callback", VStr "print_to_screen") :: fields).

Definition config_of (entries : list value) : value :=
  VDict [("triggers", VList entries)].

(** Two declared transitions, the second without its ["from"] field. *)
Definition config_second_lacks_from : value :=
  config_of [transition_entry [("from", VStr "A"); ("to", VStr "B")];
             transition_entry [("to", VStr "B")]].

(** One declared transition whose ["to"] field is the empty string. *)
Definition config_empty_to : value :=
  config_of [transition_entry [("from", VStr "A"); ("to", VStr "")]].

(** The notice that [print_to_screen] writes for the transition from
    ["A"] to ["B"]: the window shown and the count announced. *)
Definition notice_AB (shown : string) (announced : Z) : text :=
  [Lit "Trigger: "; Fmt (VStr "A"); Lit " -> "; Fmt (VStr "B");
   Lit (" was triggered! State:" ++ NL ++ TAB ++ "        ...")%string;
   Fmt (VStr shown);
   Lit (NL ++ TAB ++ "        (")%string;
   Fmt (VInt announced);
   Lit " segments not printed)."].

(* ================================================================== *)
(** ** Vocabulary of the further properties *)
(* ================================================================== *)

(** Element [r, c] of an array with two dimensions and element [a, b, c]
    of an array with three, read from the row-major buffer; [d] stands
    for an index out of range. *)
Definition at2 {A : Type} (arr : ndarray A) (r c : nat) (d : A) : A :=
  match shape arr with
  | [_; W] => nth (r * W + c) (data arr) d
  | _ => d
  end.

Definition at3 {A : Type} (arr : ndarray A) (a b c : nat) (d : A) : A :=
  match shape arr with
  | [_; D1; D2] => nth ((a * D1 + b) * D2 + c) (data arr) d
  | _ => d
  end.

(** The documents on which the loader returns: an object whose
    "triggers" field is a list of complete transition entries, or an
    empty object, or an empty string. *)
Definition accepted_document (cfg : value) : Prop :=
  exists fields v,
    cfg = VDict fields
    /\ dict_get "triggers" fields = Some v
    /\ ((exists entries, v = VList entries
                         /\ forallb valid_entry entries = true)
        \/ v = VDict [] \/ v = VStr "").

(** The pattern assembled from a "from" and a "to" without special
    characters, compiled: [.*], the characters, [.*]. *)
Definition framed (lit : list ascii) : Regex.regex :=
  Regex.Cat (Regex.Star Regex.Any)
    (fold_right Regex.Cat (Regex.Cat (Regex.Star Regex.Any) Regex.Eps)
                (map Regex.Chr lit)).

(** A value that is a [str]. *)
Definition is_str (v : value) : bool :=
  match v with
  | VStr _ => true
  | _ => false
  end.

(* ================================================================== *)
(** ** converters: the converters of single values *)
(* ================================================================== *)

(** *** The string methods and built-ins that the converters call

    The 8-bit characters are read as the code points 0 to 255. *)

(** White space for [str.split()] and [str.strip()]. *)
Definition is_space (c : ascii) : bool :=
  let n := nat_of_ascii c in
  (((9 <=? n) && (n <=? 13)) || ((28 <=? n) && (n <=? 32))
   || (n =? 133) || (n =? 160))%nat.

(** White space for [int()], which does not skip the separators 28 to
    31. *)
Definition is_int_space (c : ascii) : bool :=
  let n := nat_of_ascii c in
  (((9 <=? n) && (n <=? 13)) || (n =? 32) || (n =? 133) || (n =? 160))%nat.

(** [str.lower()]. *)
Definition lower_char (c : ascii) : ascii :=
  let n := nat_of_ascii c in
  if (((65 <=? n) && (n <=? 90))
      || ((192 <=? n) && (n <=? 222) && negb (n =? 215)))%nat
  then ascii_of_nat (n + 32) else c.

Fixpoint str_lower (s : string) : string :=
  match s with
  | EmptyString => EmptyString
  | String c rest => String (lower_char c) (str_lower rest)
  end.

(** [str.split()] without a separator: the maximal runs of characters
    that are not white space.  [words s] is the run at the head of [s],
    empty when [s] starts with white space, and the runs after it. *)
Definition cons_word (w : string) (ws : list string) : list string :=
  match w with
  | EmptyString => ws
  | _ => w :: ws
  end.

Fixpoint words (s : string) : string * list string :=
  match s with
  | EmptyString => (EmptyString, [])
  | String c rest =>
      let (w, ws) := words rest in
      if is_space c then (EmptyString, cons_word w ws) else (String c w, ws)
  end.

Definition str_split_ws (s : string) : list string :=
  let (w, ws) := words s in cons_word w ws.

(** [str.strip()]. *)
Fixpoint str_lstrip (s : string) : string :=
  match s with
  | EmptyString => EmptyString
  | String c rest => if is_space c then str_lstrip rest else s
  end.

Fixpoint str_rstrip (s : string) : string :=
  match s with
  | EmptyString => EmptyString
  | String c rest =>
      match str_rstrip rest with
      | EmptyString => if is_space c then EmptyString
                       else String c EmptyString
      | rest' => String c rest'
      end
  end.

Definition str_strip (s : string) : string := str_rstrip (str_lstrip s).

(** [str.split(sep)] for a separator of one character: the pieces
    between the separators, at least one. *)
Fixpoint pieces (sep : ascii) (s : string) : string * list string :=
  match s with
  | EmptyString => (EmptyString, [])
  | String c rest =>
      let (p, ps) := pieces sep rest in
      if (c =? sep)%char then (EmptyString, p :: ps) else (String c p, ps)
  end.

Definition str_split (sep : ascii) (s : string) : list string :=
  let (p, ps) := pieces sep s in p :: ps.

(** [s.replace(old, "")] for a non-empty [old]: the occurrences of [old]
    are dropped from left to right; [skip] counts the characters of the
    occurrence being dropped that are still ahead. *)
Fixpoint remove_from (old : string) (skip : nat) (s : string) : string :=
  match s with
  | EmptyString => EmptyString
  | String c rest =>
      match skip with
      | S k => remove_from old k rest
      | O => if String.prefix old s
             then remove_from old (String.length old - 1) rest
             else String c (remove_from old 0 rest)
      end
  end.

Definition str_remove (old s : string) : string := remove_from old 0 s.

(** [int(s)] in base ten: white space, a sign, digits with single
    underscores between them, white space.  Recent interpreters raise a
    ValueError, in [int()] and in [str()], for more digits than a limit
    (4300 unless configured, and never set below 640); this limit is not
    modelled, and the properties that state what [int()] or [str()]
    returns are about numbers of at most 640 digits ([short_digits]). *)
Definition digit_of (c : ascii) : option Z :=
  let n := nat_of_ascii c in
  if ((48 <=? n) && (n <=? 57))%nat then Some (Z.of_nat (n - 48)) else None.

Fixpoint all_int_space (s : string) : bool :=
  match s with
  | EmptyString => true
  | String c rest => is_int_space c && all_int_space rest
  end.

Fixpoint int_digits (s : string) (acc : Z) (after_digit : bool)
  : option Z :=
  match s with
  | EmptyString => if after_digit then Some acc else None
  | String c rest =>
      match digit_of c with
      | Some d => int_digits rest (10 * acc + d) true
      | None =>
          if (c =? "_")%char
          then if after_digit then int_digits rest acc false else None
          else if after_digit && all_int_space s then Some acc else None
      end
  end.

Fixpoint skip_int_space (s : string) : string :=
  match s with
  | EmptyString => EmptyString
  | String c rest => if is_int_space c then skip_int_space rest else s
  end.

Definition int_signed (s : string) : option Z :=
  match s with
  | EmptyString => None
  | String c rest =>
      if (c =? "+")%char then int_digits rest 0 false
      else if (c =? "-")%char
      then option_map Z.opp (int_digits rest 0 false)
      else int_digits s 0 false
  end.

Definition py_int (s : string) : result Z :=
  match int_signed (skip_int_space s) with
  | Some n => Ok n
  | None => Raise ValueError
  end.

(** [str(n)] for an [int]. *)
Definition py_str (n : Z) : string :=
  DecimalString.NilZero.string_of_int (Z.to_int n).

(** [range(a, b)]. *)
Definition py_range (a b : Z) : list Z :=
  map (fun i => (a + Z.of_nat i)%Z) (seq 0 (Z.to_nat (b - a))).

(** [list.sort()] on [int]s: the list in ascending order.  (The order of
    equal elements, which a stable sort keeps, cannot be seen on
    integers.) *)
Fixpoint sort_insert (x : Z) (l : list Z) : list Z :=
  match l with
  | [] => [x]
  | y :: l' => if (x <=? y)%Z then x :: l else y :: sort_insert x l'
  end.

Fixpoint list_sort (l : list Z) : list Z :=
  match l with
  | [] => []
  | x :: l' => sort_insert x (list_sort l')
  end.

(** [set(labels)] for strings: a list without duplicates, whose order
    means nothing. *)
Definition py_set (labels : list string) : list string :=
  nodup string_dec labels.

(** [set(s)] for a string: its characters. *)
Definition chars (s : string) : list string :=
  map (fun c => String c EmptyString) (list_ascii_of_string s).

(** *** distutils.util.strtobool *)

Definition strtobool (val : string) : result Z :=
  let val := str_lower val in
  if existsb (String.eqb val) ["y"; "yes"; "t"; "true"; "on"; "1"]
  then Ok 1%Z
  else if existsb (String.eqb val) ["n"; "no"; "f"; "false"; "off"; "0"]
  then Ok 0%Z
  else Raise ValueError.

(** *** bool_from_str

    A value that is neither a [bool] nor a [str] falls through both
    branches: the function returns [None]. *)
Definition bool_from_str (v : value) : result value :=
  match v with
  | VBool b => Ok (VBool b)
  | VStr s => n <- strtobool s ;; Ok (VBool (negb (n =? 0)%Z))
  | _ => Ok VNone
  end.

(** *** comma_separated_list *)

Definition comma_separated_list (v : value) : result value :=
  match v with
  | VList items => Ok (VList items)
  | VStr s =>
      Ok (VList (map (fun element => VStr (str_strip element))
                     (str_split_ws s)))
  | _ => Raise TypeError
  end.

(** *** range_str

    A [SyntaxError] is raised by [range_str] only; the results that can
    carry it are [completion]s. *)
Inductive raised : Type :=
| Builtin (e : exn)
| SyntaxError.

Inductive completion (A : Type) : Type :=
| Returns (a : A)
| Raises (e : raised).

Arguments Returns {A} a.
Arguments Raises {A} e.

Definition lift {A : Type} (r : result A) : completion A :=
  match r with
  | Ok a => Returns a
  | Raise e => Raises (Builtin e)
  end.

Definition and_then {A B : Type} (o : completion A) (f : A -> completion B)
  : completion B :=
  match o with
  | Returns a => f a
  | Raises e => Raises e
  end.

(** The integers that one comma-separated part stands for. *)
Definition subrange_ints (substr : string) : completion (list Z) :=
  match str_split "-" substr with
  | [a] => and_then (lift (py_int a)) (fun a => Returns [a])
  | [a; b] =>
      and_then (lift (py_int a)) (fun a =>
      and_then (lift (py_int b)) (fun b =>
      Returns (py_range a (b + 1))))
  | _ => Raises SyntaxError
  end.

(** The loop over the parts, extending [list_range]. *)
Fixpoint extend_all (substrs : list string) (list_range : list Z)
  : completion (list Z) :=
  match substrs with
  | [] => Returns list_range
  | substr :: rest =>
      and_then (subrange_ints substr) (fun ints =>
      extend_all rest (list_range ++ ints))
  end.

(** The string without its white space, [s], is computed by the code and
    not used: the parts are cut from [range_str] itself. *)
Definition range_str (range_str : string) (sort : bool)
  : completion (list string) :=
  and_then (extend_all (str_split "," range_str) []) (fun list_range =>
  Returns (map py_str (if sort then list_sort list_range else list_range))).

(** *** labelset_to_set

    The argument is a value or a set of labels. *)
Inductive labelset_arg : Type :=
| Obj (v : value)
| SetOf (labels : list string).

Definition range_prefix : string := "range:".

(** The loop over the labels of a list, extending [labelset_out].  A
    [bool] is an [int] for [isinstance]. *)
Fixpoint labels_of_list (labelset : list value) (labelset_out : list string)
  : completion (list string) :=
  match labelset with
  | [] => Returns labelset_out
  | label :: rest =>
      match label with
      | VInt n => labels_of_list rest (labelset_out ++ [py_str n])
      | VBool b =>
          labels_of_list rest (labelset_out ++ [if b then "True" else "False"])
      | VStr s =>
          if String.prefix range_prefix s
          then and_then (range_str (str_remove range_prefix s) true)
                        (fun labels =>
                           labels_of_list rest (labelset_out ++ labels))
          else labels_of_list rest (labelset_out ++ [s])
      | _ => Raises (Builtin TypeError)
      end
  end.

Definition labelset_to_set (labelset : labelset_arg)
  : completion (list string) :=
  match labelset with
  | SetOf labels => Returns labels
  | Obj (VStr s) =>
      if String.prefix range_prefix s
      then and_then (range_str (str_remove range_prefix s) true)
                    (fun labels => Returns (py_set labels))
      else Returns (py_set (chars s))
  | Obj (VList labels) =>
      and_then (labels_of_list labels []) (fun labelset_out =>
      Returns (py_set labelset_out))
  | Obj _ => Raises (Builtin TypeError)
  end.

(** *** Vocabulary of the properties of the converters *)

(** A string without white space, and a word: such a string that is not
    empty. *)
Fixpoint space_free (s : string) : bool :=
  match s with
  | EmptyString => true
  | String c rest => negb (is_space c) && space_free rest
  end.

Definition is_word (s : string) : bool :=
  negb (s =? "")%string && space_free s.

Fixpoint all_space (s : string) : bool :=
  match s with
  | EmptyString => true
  | String c rest => is_space c && all_space rest
  end.

(** The characters of a string that are not white space. *)
Fixpoint without_space (s : string) : string :=
  match s with
  | EmptyString => EmptyString
  | String c rest =>
      if is_space c then without_space rest
      else String c (without_space rest)
  end.

(** A string in which the character [c] does not occur, and a string of
    decimal digits. *)
Fixpoint free_of (c : ascii) (s : string) : bool :=
  match s with
  | EmptyString => true
  | String c' rest => negb (c' =? c)%char && free_of c rest
  end.

Fixpoint all_digits (s : string) : bool :=
  match s with
  | EmptyString => true
  | String c rest =>
      match digit_of c with Some _ => all_digits rest | None => false end
  end.

(** A number as it can be written in a range: its decimal digits, with
    white space before and after. *)
Record numeral : Type := {
  lead : string;
  number : nat;
  trail : string
}.

Definition spelled (x : numeral) : string :=
  (lead x ++ py_str (Z.of_nat (number x)) ++ trail x)%string.

(** A number whose decimal string every interpreter converts, whatever
    its limit on the number of digits: at most 640 characters. *)
Definition short_digits (n : Z) : bool :=
  (String.length (py_str n) <=? 640)%nat.

Definition tidy (x : numeral) : bool :=
  all_int_space (lead x) && all_int_space (trail x)
  && short_digits (Z.of_nat (number x)).

(** The parts of a range: a number, or two numbers around a hyphen. *)
Inductive item : Type :=
| Single (x : numeral)
| Span (a b : numeral).

Definition written_item (it : item) : string :=
  match it with
  | Single x => spelled x
  | Span a b => (spelled a ++ "-" ++ spelled b)%string
  end.

Definition written (items : list item) : string :=
  String.concat "," (map written_item items).

Definition tidy_item (it : item) : bool :=
  match it with
  | Single x => tidy x
  | Span a b => tidy a && tidy b
  end.

(** The integers that a part stands for: the number, or the numbers from
    the first to the second, both included. *)
Definition denoted (it : item) : list Z :=
  match it with
  | Single x => [Z.of_nat (number x)]
  | Span a b => py_range (Z.of_nat (number a)) (Z.of_nat (number b) + 1)
  end.

Definition covers (it : item) (n : nat) : Prop :=
  match it with
  | Single x => n = number x
  | Span a b => number a <= n <= number b
  end.

(** An entry of a list of labels: an integer, a truth value, a string
    taken as it is, or a string that announces a range. *)
Inductive label_entry : Type :=
| IntLabel (n : Z)
| BoolLabel (b : bool)
| StrLabel (s : string)
| RangeLabel (items : list item).

Definition value_of_entry (e : label_entry) : value :=
  match e with
  | IntLabel n => VInt n
  | BoolLabel b => VBool b
  | StrLabel s => VStr s
  | RangeLabel items => VStr (range_prefix ++ written items)
  end.

Definition tidy_range (items : list item) : bool :=
  negb (length items =? 0)%nat && forallb tidy_item items.

Definition tidy_entry (e : label_entry) : bool :=
  match e with
  | IntLabel n => short_digits n
  | BoolLabel _ => true
  | StrLabel s => negb (String.prefix range_prefix s)
  | RangeLabel items => tidy_range items
  end.

(** The labels that an entry stands for. *)
Definition in_range (items : list item) (l : string) : Prop :=
  exists n, l = py_str (Z.of_nat n) /\ Exists (fun it => covers it n) items.

Definition names (e : label_entry) (l : string) : Prop :=
  match e with
  | IntLabel n => l = py_str n
  | BoolLabel b => l = if b then "True" else "False"
  | StrLabel s => l = s
  | RangeLabel items => in_range items l
  end.

Definition entry_labels (e : label_entry) : list string :=
  match e with
  | IntLabel n => [py_str n]
  | BoolLabel b => [if b then "True" else "False"]
  | StrLabel s => [s]
  | RangeLabel items => map py_str (list_sort (concat (map denoted items)))
  end.

(* ================================================================== *)
(** * Properties *)
(* ================================================================== *)

Ltac case_match :=
  match goal with
  | |- context [match ?x with _ => _ end] => destruct x eqn:?
  | H : context [match ?x with _ => _ end] |- _ => destruct x eqn:?
  end.

(** ** check_trigger on the two sample streams *)

(** C1.  For the trigger from "A" to "B", [check_trigger] on the stream
    ["A","B","C"] returns 3, the length of the joined stream, and not 2,
    the position right after "AB": the pattern searched is ".*AB.*", whose
    match runs to the end of the stream.  On ["A","C","B"] it returns
    NOT_TRIGGERED. *)
Theorem check_trigger_AB_samples :
  fst (check_trigger (transition "A" "B") (world_of ["A"; "B"; "C"]))
  = Returned 3
  /\ fst (check_trigger (transition "A" "B") (world_of ["A"; "C"; "B"]))
     = Returned NOT_TRIGGERED.
Proof. split; vm_compute; reflexivity. Qed.

(** ** print_to_screen *)

(** The window shown is the slice of the stream from ten positions before
    the start of the match to ten positions after its end, and the call
    leaves the stream as it was. *)
Lemma print_to_screen_window (trig : TransitionTrigger) (m : Regex.Match)
      (w : world) :
  let w' := print_to_screen trig m w in
  let lo := Z.max 0 (Regex.m_start m - 10) in
  let hi := Z.min (Z.of_nat (length (cur_stream w))) (Regex.m_end m + 10) in
  cur_stream w' = cur_stream w
  /\ exists before after,
       stdout w' = stdout w ++
         [before
          ++ Fmt (VStr (String.concat "-" (py_slice (cur_stream w) lo hi)))
          :: after].
Proof.
  cbn. split; [reflexivity|].
  exists (trigger_str trig
          ++ [Lit (" was triggered! State:" ++ NL ++ TAB ++ "        ...")%string]).
  eexists. unfold print_to_screen. cbn. reflexivity.
Qed.

(** C5.  On the stream ["A","B","C"] with the match that [check_trigger]
    passes (from 0 to 3), [print_to_screen] shows the whole stream
    "A-B-C", so that no symbol is outside the window, and announces
    "-7 segments not printed": the count it writes is the length of the
    stream minus ten, not the number of symbols left out.  The stream is
    not changed. *)
Theorem print_to_screen_announces_length_minus_ten :
  let stream := ["A"; "B"; "C"] in
  let m := {| Regex.m_start := 0; Regex.m_end := 3 |} in
  let w' := print_to_screen (transition "A" "B") m (world_of stream) in
  stdout w' = [notice_AB "A-B-C" (-7)]
  /\ symbols_outside stream (Z.max 0 (0 - 10)) (Z.min 3 (3 + 10)) = 0%Z
  /\ cur_stream w' = stream.
Proof. repeat split. Qed.

(** ** The loader *)

Lemma dict_has_true key fields v :
  dict_get key fields = Some v -> dict_has key fields = true.
Proof. unfold dict_has. intros ->. reflexivity. Qed.

Lemma dict_has_false key fields :
  dict_get key fields = None -> dict_has key fields = false.
Proof. unfold dict_has. intros ->. reflexivity. Qed.

(** An accepted type is not "Transition": the checks of "from" and "to"
    in [validate_entry] are never reached. *)
Lemma accepted_type_not_capitalised ty :
  in_str_list ty TRIGGER_TYPES = true -> eq_str ty "Transition" = false.
Proof.
  destruct ty; cbn; try discriminate.
  rewrite orb_false_r. intros H.
  apply String.eqb_eq in H. subst s. reflexivity.
Qed.

(** Whatever stops the validation of an entry is a TypeError. *)
Lemma validate_entry_raises e x :
  validate_entry e = Raise x -> x = TypeError.
Proof.
  unfold validate_entry, in_actions, actions_lookup, py_in, py_getitem,
    py_len, dict_has, bind.
  intros H.
  repeat (case_match; cbv beta in *; try congruence).
  all: repeat match goal with
              | E : Ok _ = Ok _ |- _ => inversion E; subst; clear E
              end.
  all: try discriminate.
  all: match goal with
       | Hb : negb (in_str_list ?t _) = false,
         Hc : eq_str ?t "Transition" = true |- _ =>
           apply negb_false_iff in Hb;
           rewrite (accepted_type_not_capitalised _ Hb) in Hc; discriminate
       end.
Qed.

Lemma validate_all_raises entries x :
  validate_all entries = Raise x -> x = TypeError.
Proof.
  induction entries as [|e rest IH]; cbn; [discriminate|].
  destruct (validate_entry e) eqn:E; cbn.
  - exact IH.
  - intros [= <-]. exact (validate_entry_raises _ E).
Qed.

Lemma validate_all_stops entries e :
  In e entries -> validate_entry e = Raise TypeError ->
  validate_all entries = Raise TypeError.
Proof.
  induction entries as [|e' rest IH]; cbn; [tauto|].
  intros [-> | Hin] He.
  - rewrite He. reflexivity.
  - destruct (validate_entry e') eqn:E; cbn.
    + auto.
    + f_equal. exact (validate_entry_raises _ E).
Qed.

Lemma unknown_type_rejected e :
  unknown_type e -> validate_entry e = Raise TypeError.
Proof.
  intros (fields & ty & -> & Hty & Hnot).
  unfold validate_entry, py_in, py_getitem, bind.
  rewrite (dict_has_true _ _ Hty), Hty. cbv beta iota.
  rewrite Hnot. reflexivity.
Qed.

Lemma unknown_callback_rejected e :
  unknown_callback e -> validate_entry e = Raise TypeError.
Proof.
  intros (fields & cb & -> & Hcb & Hnone).
  destruct (validate_entry (VDict fields)) as [[]|x] eqn:E.
  - exfalso. revert E.
    unfold validate_entry, in_actions, actions_lookup, py_in, py_getitem, bind.
    rewrite (dict_has_true _ _ Hcb), Hcb.
    destruct (dict_has "type" fields); cbv beta iota; [|discriminate].
    destruct (dict_get "type" fields) as [ty|]; cbv beta iota; [|discriminate].
    destruct (in_str_list ty TRIGGER_TYPES); cbv beta iota; [|discriminate].
    destruct cb; cbv beta iota; try discriminate.
    rewrite (Hnone s eq_refl). discriminate.
  - f_equal. exact (validate_entry_raises _ E).
Qed.

(** X21.  The part of the all-or-nothing property that the code has: a
    document without "triggers", or with an entry of unknown type or
    unknown callback, is refused with a TypeError before any trigger is
    constructed. *)
Lemma loader_rejects_before_constructing cfg :
  missing_triggers cfg
  \/ (exists entries e, declares cfg entries /\ In e entries
                        /\ (unknown_type e \/ unknown_callback e)) ->
  json_path_to_trigger_list cfg
  = {| outcome := Raise TypeError; constructed := [] |}.
Proof.
  intros [(fields & -> & Hnone)
         | (entries & e & (fields & -> & Hget) & Hin & Hbad)].
  - unfold json_path_to_trigger_list. cbn.
    rewrite (dict_has_false _ _ Hnone). reflexivity.
  - unfold json_path_to_trigger_list, declared_entries. cbn.
    rewrite (dict_has_true _ _ Hget), Hget. cbn.
    rewrite (@validate_all_stops entries e Hin); [reflexivity|].
    destruct Hbad; [apply unknown_type_rejected | apply unknown_callback_rejected];
      assumption.
Qed.

(** C2.  The document that declares a complete transition and then a
    transition without "from" passes the validation loop (the checks of
    "from" and "to" are under [type == "Transition"], which no accepted
    entry satisfies), and the construction loop raises a KeyError after
    it has constructed the first trigger: the failure is neither the
    TypeError of the loader nor all-or-nothing. *)
Theorem loader_missing_from_fails_late :
  (exists entries e, declares config_second_lacks_from entries
                     /\ In e entries /\ transition_missing "from" e)
  /\ json_path_to_trigger_list config_second_lacks_from
     = {| outcome := Raise KeyError; constructed := [transition "A" "B"] |}.
Proof.
  split; [|reflexivity].
  eexists; eexists. split; [|split].
  - eexists. split; reflexivity.
  - right; left; reflexivity.
  - eexists. repeat split.
Qed.

(** C3.  A transition whose "to" field is the empty string is loaded:
    the trigger is constructed with the empty continuation pattern. *)
Theorem loader_accepts_empty_to :
  json_path_to_trigger_list config_empty_to
  = {| outcome := Ok [transition "A" ""];
       constructed := [transition "A" ""] |}.
Proof. reflexivity. Qed.

Lemma valid_entry_fields e :
  valid_entry e = true ->
  exists fields name f from_ to_,
    e = VDict fields
    /\ dict_get "type" fields = Some (VStr "transition")
    /\ dict_get "callback" fields = Some (VStr name)
    /\ actions_get name AVAILABLE_ACTIONS = Some f
    /\ dict_get "from" fields = Some from_
    /\ dict_get "to" fields = Some to_.
Proof.
  destruct e as [| | | | |?|fields]; try discriminate.
  unfold valid_entry.
  destruct (dict_get "type" fields) as [[| | | |ty| |]|] eqn:Hty; try discriminate.
  destruct (dict_get "callback" fields) as [[| | | |name| |]|] eqn:Hcb;
    try discriminate.
  destruct (dict_get "from" fields) as [from_|] eqn:Hfrom; try discriminate.
  destruct (dict_get "to" fields) as [to_|] eqn:Hto; try discriminate.
  destruct (actions_get name AVAILABLE_ACTIONS) as [f|] eqn:Hf;
    rewrite ?andb_false_r; try discriminate.
  rewrite andb_true_r. intros H. apply String.eqb_eq in H. subst ty.
  exists fields, name, f, from_, to_. auto 10.
Qed.

Lemma valid_entry_validates e :
  valid_entry e = true -> validate_entry e = Ok tt.
Proof.
  intros H.
  destruct (valid_entry_fields e H)
    as (fields & name & f & from_ & to_ & -> & Hty & Hcb & Hf & Hfrom & Hto).
  unfold validate_entry, in_actions, actions_lookup, py_in, py_getitem, bind.
  rewrite (dict_has_true _ _ Hty), (dict_has_true _ _ Hcb), Hty, Hcb.
  cbv beta iota. rewrite Hf. reflexivity.
Qed.

Lemma valid_entry_builds e :
  valid_entry e = true ->
  exists t, build_entry e = Ok (Some t) /\ bound_to e t.
Proof.
  intros H.
  destruct (valid_entry_fields e H)
    as (fields & name & f & from_ & to_ & -> & Hty & Hcb & Hf & Hfrom & Hto).
  exists {| callback := f; from_seg := from_; to_seg := to_ |}. split.
  - unfold build_entry, actions_getitem, actions_lookup, py_getitem, bind.
    rewrite Hty, Hcb, Hfrom, Hto. cbv beta iota. rewrite Hf. reflexivity.
  - exists fields, name. auto.
Qed.

Lemma valid_entry_is_transition e :
  valid_entry e = true -> is_transition e = true.
Proof.
  intros H.
  destruct (valid_entry_fields e H)
    as (fields & name & f & from_ & to_ & -> & Hty & _).
  unfold is_transition. rewrite Hty. reflexivity.
Qed.

Lemma validate_all_valid entries :
  forallb valid_entry entries = true -> validate_all entries = Ok tt.
Proof.
  induction entries as [|e rest IH]; cbn; [reflexivity|].
  intros H. apply andb_true_iff in H as [He Hrest].
  rewrite (valid_entry_validates e He). cbn. auto.
Qed.

Lemma build_all_valid entries :
  forallb valid_entry entries = true ->
  forall acc, exists tl,
    build_all entries acc = (Ok (acc ++ tl), acc ++ tl)
    /\ Forall2 bound_to entries tl.
Proof.
  induction entries as [|e rest IH]; cbn; intros H acc.
  - exists []. rewrite app_nil_r. auto.
  - apply andb_true_iff in H as [He Hrest].
    destruct (valid_entry_builds e He) as (t & -> & Hb).
    destruct (IH Hrest (acc ++ [t])) as (tl & -> & Hall).
    exists (t :: tl). rewrite <- app_assoc. cbn. auto.
Qed.

Lemma filter_all_true {A : Type} (p : A -> bool) (l : list A) :
  forallb p l = true -> filter p l = l.
Proof.
  induction l as [|a l IH]; cbn; [reflexivity|].
  intros H. apply andb_true_iff in H as [-> Hl]. f_equal. auto.
Qed.

(** C6.  A valid configuration (an object whose "triggers" field lists
    "transition" entries, each with a registered callback and with "from"
    and "to") is loaded: the loader returns a list with as many triggers
    as there are "transition" entries, in the order of the declarations,
    the k-th trigger holding the "from" and "to" values of the k-th entry
    and the action registered under its callback name. *)
Theorem loader_builds_declared_transitions (cfg : value) :
  valid_config cfg = true ->
  exists entries trig_list,
    declares cfg entries
    /\ json_path_to_trigger_list cfg
       = {| outcome := Ok trig_list; constructed := trig_list |}
    /\ length trig_list = length (filter is_transition entries)
    /\ Forall2 bound_to (filter is_transition entries) trig_list.
Proof.
  intros H.
  destruct cfg as [| | | | |?|fields]; try discriminate.
  unfold valid_config in H.
  destruct (dict_get "triggers" fields) as [[| | | | |entries|]|] eqn:Hget;
    try discriminate.
  destruct (build_all_valid entries H []) as (tl & Hbuild & Hall).
  exists entries, tl.
  assert (Hf : filter is_transition entries = entries).
  { apply filter_all_true. rewrite forallb_forall in *.
    intros e He. apply valid_entry_is_transition. auto. }
  rewrite Hf. repeat split.
  - exists fields. auto.
  - unfold json_path_to_trigger_list, declared_entries, py_in, py_getitem,
      py_iter, bind.
    rewrite (dict_has_true _ _ Hget), Hget. cbv beta iota.
    rewrite (validate_all_valid entries H), Hbuild. reflexivity.
  - symmetry. exact (Forall2_length Hall).
  - exact Hall.
Qed.

Lemma loader_builds_declared_transitions_witness :
  exists entries trig_list,
    declares (config_of [transition_entry [("from", VStr "A"); ("to", VStr "B")]])
             entries
    /\ json_path_to_trigger_list
         (config_of [transition_entry [("from", VStr "A"); ("to", VStr "B")]])
       = {| outcome := Ok trig_list; constructed := trig_list |}
    /\ length trig_list = length (filter is_transition entries)
    /\ Forall2 bound_to (filter is_transition entries) trig_list.
Proof.
  apply (loader_builds_declared_transitions
           (config_of [transition_entry [("from", VStr "A"); ("to", VStr "B")]])).
  reflexivity.
Defined.

(** ** The matcher *)

Module RegexFacts.
Import Regex.

Lemma suffix_refl s : suffix_of s s.
Proof. exists []. reflexivity. Qed.

Lemma suffix_cons a s : suffix_of s (a :: s).
Proof. exists [a]. reflexivity. Qed.

Lemma suffix_trans s1 s2 s3 :
  suffix_of s1 s2 -> suffix_of s2 s3 -> suffix_of s1 s3.
Proof.
  intros [p ->] [q ->]. exists (q ++ p). now rewrite app_assoc.
Qed.

(** *** The matcher finds the words of the pattern *)

Lemma iterate_sound r (k : continuation) :
  (forall s k' e, run r s k' = Some e ->
                  exists s1 s2, s = s1 ++ s2 /\ matches r s1 /\ k' s2 = Some e) ->
  forall fuel s e,
    iterate (run r) k fuel s = Some e ->
    exists s1 s2, s = s1 ++ s2 /\ matches (Star r) s1 /\ k s2 = Some e.
Proof.
  intros Hbody. induction fuel as [|fuel IH]; cbn [iterate]; intros s e H.
  - exists [], s. repeat split; [constructor | exact H].
  - revert H. destruct (run r s _) as [e0|] eqn:E.
    + intros [= ->].
      destruct (Hbody _ _ _ E) as (s1 & s2 & -> & Hm & Hk).
      cbv beta in Hk. revert Hk.
      destruct (length s2 <? length (s1 ++ s2))%nat; [intros Hk|discriminate].
      destruct (IH _ _ Hk) as (s3 & s4 & -> & Hm' & Hk').
      exists (s1 ++ s3), s4. rewrite app_assoc.
      repeat split; [constructor; assumption | exact Hk'].
    + intros H. exists [], s. repeat split; [constructor | exact H].
Qed.

(** Soundness: a success of [run] splits the input into a word of the
    pattern and a rest that the continuation accepts. *)
Lemma run_sound r :
  forall s k e, run r s k = Some e ->
                exists s1 s2, s = s1 ++ s2 /\ matches r s1 /\ k s2 = Some e.
Proof.
  induction r as [|c| |r1 IH1 r2 IH2|r1 IH1 r2 IH2|r IH]; cbn [run];
    intros s k e.
  - intros H. exists [], s. repeat split; [constructor | exact H].
  - destruct s as [|a s]; [discriminate|].
    destruct (Ascii.eqb_spec a c) as [->|]; [|discriminate].
    intros H. exists [c], s. repeat split; [constructor | exact H].
  - destruct s as [|a s]; [discriminate|].
    destruct (a =? LF)%char eqn:Ha; [discriminate|].
    intros H. exists [a], s. repeat split; [constructor; exact Ha | exact H].
  - intros H.
    destruct (IH1 _ _ _ H) as (s1 & s2 & -> & Hm1 & H1).
    destruct (IH2 _ _ _ H1) as (s3 & s4 & -> & Hm2 & H2).
    exists (s1 ++ s3), s4. rewrite app_assoc.
    repeat split; [constructor; assumption | exact H2].
  - destruct (run r1 s k) as [e1|] eqn:E.
    + intros [= ->]. destruct (IH1 _ _ _ E) as (s1 & s2 & -> & Hm & Hk).
      exists s1, s2. repeat split; [apply matches_alt_l; exact Hm | exact Hk].
    + intros H. destruct (IH2 _ _ _ H) as (s1 & s2 & -> & Hm & Hk).
      exists s1, s2. repeat split; [apply matches_alt_r; exact Hm | exact Hk].
  - apply iterate_sound. exact IH.
Qed.

Lemma run_fails_with_failing_continuation r s :
  run r s (fun _ => None) = None.
Proof.
  destruct (run r s (fun _ => None)) as [e|] eqn:E; [|reflexivity].
  destruct (run_sound _ _ _ E) as (_ & _ & _ & _ & H). discriminate.
Qed.

(** [run] looks at its continuation on the suffixes of the input only. *)
Lemma iterate_ext r :
  (forall s k1 k2, (forall s', suffix_of s' s -> k1 s' = k2 s') ->
                   run r s k1 = run r s k2) ->
  forall fuel s k1 k2,
    (forall s', suffix_of s' s -> k1 s' = k2 s') ->
    iterate (run r) k1 fuel s = iterate (run r) k2 fuel s.
Proof.
  intros Hbody. induction fuel as [|fuel IH]; cbn [iterate]; intros s k1 k2 Hk.
  - apply Hk, suffix_refl.
  - rewrite (Hbody s _ (fun s' => if (length s' <? length s)%nat
                                  then iterate (run r) k2 fuel s' else None)).
    + rewrite (Hk s (suffix_refl s)). reflexivity.
    + intros s' Hs'. destruct (length s' <? length s)%nat; [|reflexivity].
      apply IH. intros s'' Hs''. apply Hk. eapply suffix_trans; eassumption.
Qed.

Lemma run_ext r :
  forall s k1 k2, (forall s', suffix_of s' s -> k1 s' = k2 s') ->
                  run r s k1 = run r s k2.
Proof.
  induction r as [|c| |r1 IH1 r2 IH2|r1 IH1 r2 IH2|r IH]; cbn [run];
    intros s k1 k2 Hk.
  - apply Hk, suffix_refl.
  - destruct s as [|a s]; [reflexivity|].
    destruct (a =? c)%char; [|reflexivity]. apply Hk, suffix_cons.
  - destruct s as [|a s]; [reflexivity|].
    destruct (a =? LF)%char; [reflexivity|]. apply Hk, suffix_cons.
  - apply IH1. intros s' Hs'. apply IH2. intros s'' Hs''.
    apply Hk. eapply suffix_trans; eassumption.
  - rewrite (IH1 s k1 k2 Hk), (IH2 s k1 k2 Hk). reflexivity.
  - apply iterate_ext; assumption.
Qed.

Lemma suffix_length s' s : suffix_of s' s -> (length s' <= length s)%nat.
Proof. intros [p ->]. rewrite length_app. lia. Qed.

(** The fuel of [iterate] does not matter once it covers the input. *)
Lemma iterate_fuel r k :
  forall fuel1 fuel2 s,
    (length s <= fuel1)%nat -> (length s <= fuel2)%nat ->
    iterate (run r) k fuel1 s = iterate (run r) k fuel2 s.
Proof.
  assert (Hnil : forall fuel, iterate (run r) k fuel [] = k []).
  { intros [|fuel]; cbn [iterate]; [reflexivity|].
    rewrite (@run_ext r [] _ (fun _ => None)).
    - rewrite run_fails_with_failing_continuation. reflexivity.
    - intros s' Hs'. apply suffix_length in Hs'. cbn in Hs'.
      destruct s'; [reflexivity | cbn in Hs'; lia]. }
  induction fuel1 as [|fuel1 IH]; intros fuel2 s H1 H2.
  - destruct s; [|cbn in H1; lia]. rewrite !Hnil. reflexivity.
  - destruct fuel2 as [|fuel2].
    + destruct s; [|cbn in H2; lia]. rewrite !Hnil. reflexivity.
    + cbn [iterate].
      rewrite (@run_ext r s _ (fun s' => if (length s' <? length s)%nat
                                         then iterate (run r) k fuel2 s'
                                         else None)); [reflexivity|].
      intros s' Hs'. destruct (Nat.ltb_spec (length s') (length s));
        [|reflexivity].
      apply IH; lia.
Qed.

Lemma iterate_succeeds r k fuel s e :
  k s = Some e -> exists e', iterate (run r) k fuel s = Some e'.
Proof.
  intros Hk. destruct fuel as [|fuel]; cbn [iterate]; [eauto|].
  destruct (run r s _); eauto.
Qed.

(** Completeness: when the input starts with a word of the pattern and
    the continuation accepts the rest, [run] succeeds. *)
Lemma run_complete r s1 :
  matches r s1 ->
  forall s2 k e, k s2 = Some e -> exists e', run r (s1 ++ s2) k = Some e'.
Proof.
  induction 1 as [|c|a Ha|r1 r2 s1 s1' _ IH1 _ IH2|r1 r2 s1 _ IH|r1 r2 s1 _ IH
                 |r|r s1 s1' _ IH1 _ IH2];
    intros s2 k e Hk; cbn [run app].
  - eauto.
  - rewrite Ascii.eqb_refl. eauto.
  - rewrite Ha. eauto.
  - rewrite <- app_assoc.
    destruct (IH2 s2 k e Hk) as (e2 & H2).
    exact (IH1 (s1' ++ s2) (fun s' => run r2 s' k) e2 H2).
  - destruct (IH s2 k e Hk) as (e1 & ->). eauto.
  - destruct (run r1 (s1 ++ s2) k); eauto.
  - eapply iterate_succeeds; eassumption.
  - destruct s1 as [|a s1]; [exact (IH2 s2 k e Hk)|].
    destruct (IH2 s2 k e Hk) as (e2 & H2). cbn [run] in H2.
    rewrite <- app_assoc. cbn [app length iterate].
    set (rest := s1' ++ s2) in *.
    destruct (IH1 rest
                (fun s' => if (length s' <? S (length (s1 ++ rest)))%nat
                           then iterate (run r) k (length (s1 ++ rest)) s'
                           else None) e2) as (e1 & H1).
    + assert (Hlt : (length rest <? S (length (s1 ++ rest)))%nat = true).
      { apply Nat.ltb_lt. rewrite length_app. lia. }
      rewrite Hlt.
      rewrite (@iterate_fuel r k (length (s1 ++ rest)) (length rest) rest);
        [exact H2 | rewrite length_app; lia | lia].
    + cbn [app] in H1. rewrite H1. eauto.
Qed.

(** [search_from], and so [search], finds a match exactly when some
    factor of the input is a word of the pattern. *)
Lemma search_from_finds r s :
  forall pos,
    search_from r pos s <> None
    <-> exists p m q, s = p ++ m ++ q /\ matches r m.
Proof.
  induction s as [|a s IH]; intros pos; cbn [search_from].
  - destruct (run r [] _) as [rest|] eqn:E; split.
    + intros _. destruct (run_sound _ _ _ E) as (s1 & s2 & Hs & Hm & _).
      exists [], s1, s2. auto.
    + discriminate.
    + intros H. contradiction.
    + intros (p & m & q & Hs & Hm).
      destruct p; [|discriminate]. cbn in Hs.
      destruct (@run_complete r m Hm q (fun rest => Some rest) q eq_refl)
        as (e' & He).
      rewrite <- Hs in He. congruence.
  - destruct (run r (a :: s) _) as [rest|] eqn:E; split.
    + intros _. destruct (run_sound _ _ _ E) as (s1 & s2 & Hs & Hm & _).
      exists [], s1, s2. auto.
    + discriminate.
    + intros H. apply (IH (S pos)) in H as (p & m & q & -> & Hm).
      exists (a :: p), m, q. auto.
    + intros (p & m & q & Hs & Hm). apply (IH (S pos)).
      destruct p as [|b p].
      * cbn in Hs.
        destruct (@run_complete r m Hm q (fun rest => Some rest) q eq_refl)
          as (e' & He).
        rewrite <- Hs in He. congruence.
      * injection Hs as -> ->. eauto.
Qed.

Lemma line_feed_free_suffix s' s :
  suffix_of s' s -> line_feed_free s = true -> line_feed_free s' = true.
Proof.
  intros [p ->]. unfold line_feed_free. rewrite forallb_app.
  intros H. apply andb_true_iff in H. tauto.
Qed.

(** The greedy [.*] in front of an accepting continuation takes the
    whole of an input without line feed. *)
Lemma dot_star_takes_all k :
  (forall s, k s = Some s) ->
  forall s fuel, (length s <= fuel)%nat -> line_feed_free s = true ->
                 iterate (run Any) k fuel s = Some [].
Proof.
  intros Hk. induction s as [|a s IH]; intros fuel Hfuel Hlf.
  - destruct fuel; cbn; apply Hk.
  - destruct fuel as [|fuel]; [cbn in Hfuel; lia|].
    unfold line_feed_free in Hlf. cbn [forallb] in Hlf.
    apply andb_true_iff in Hlf as [Ha Hs].
    apply negb_true_iff in Ha.
    cbn [iterate run]. rewrite Ha.
    assert (Hlt : (length s <? length (a :: s))%nat = true).
    { apply Nat.ltb_lt. cbn. lia. }
    rewrite Hlt. rewrite IH; [reflexivity | cbn in Hfuel; lia | exact Hs].
Qed.

(** A pattern with a greedy tail, matched on an input without line feed
    in front of an accepting continuation, leaves nothing of the input. *)
Lemma greedy_tail_runs_to_end r :
  greedy_tail r = true ->
  forall s k e, (forall x, k x = Some x) -> line_feed_free s = true ->
                run r s k = Some e -> e = [].
Proof.
  induction r as [|c| |r1 IH1 r2 IH2|r1 IH1 r2 IH2|r IH];
    cbn [greedy_tail]; try discriminate; intros Hg s k e Hk Hlf.
  - assert (Hcases : (r2 = Eps /\ greedy_tail r1 = true)
                     \/ greedy_tail r2 = true).
    { destruct r2; auto. }
    cbn [run]. destruct Hcases as [[-> Hg1] | Hg2].
    + apply (IH1 Hg1 s); [|exact Hlf]. intros x. cbn. apply Hk.
    + intros H.
      destruct (run_sound _ _ _ H) as (s0 & s1 & Hs & _ & H1).
      apply (IH2 Hg2 s1 k e Hk); [|exact H1].
      apply (@line_feed_free_suffix s1 s); [exists s0; exact Hs | exact Hlf].
  - apply andb_true_iff in Hg as [Hg1 Hg2].
    cbn [run]. destruct (run r1 s k) as [e1|] eqn:E.
    + intros [= <-]. eapply IH1; eassumption.
    + intros H. eapply IH2; eassumption.
  - destruct r; try discriminate.
    change (run (Star Any) s k) with (iterate (run Any) k (length s) s).
    rewrite (dot_star_takes_all k Hk s (le_n _) Hlf).
    intros [= <-]. reflexivity.
Qed.

Lemma search_from_runs_to_end r :
  greedy_tail r = true ->
  forall s pos b e, line_feed_free s = true ->
                    search_from r pos s = Some (b, e) ->
                    e = (pos + length s)%nat.
Proof.
  intros Hg. induction s as [|a s IH]; intros pos b e Hlf; cbn [search_from].
  - destruct (run r [] _) as [rest|] eqn:E; [|discriminate].
    apply (greedy_tail_runs_to_end r Hg) in E; auto. subst rest.
    intros [= _ <-]. reflexivity.
  - destruct (run r (a :: s) _) as [rest|] eqn:E.
    + apply (greedy_tail_runs_to_end r Hg) in E; auto. subst rest.
      intros [= _ <-]. cbn. lia.
    + intros H. apply IH in H.
      * cbn. lia.
      * eapply line_feed_free_suffix; [apply suffix_cons | exact Hlf].
Qed.

Lemma string_length_chars s :
  length (list_ascii_of_string s) = String.length s.
Proof. induction s as [|c s IH]; cbn; congruence. Qed.

Lemma search_runs_to_end r s m :
  greedy_tail r = true -> line_feed_free (list_ascii_of_string s) = true ->
  search r s = Some m -> m_end m = Z.of_nat (String.length s).
Proof.
  intros Hg Hlf. unfold search.
  destruct (search_from r 0 _) as [[b e]|] eqn:E; [|discriminate].
  intros [= <-]. cbn.
  apply (search_from_runs_to_end r Hg) in E; [|exact Hlf].
  rewrite E, string_length_chars. reflexivity.
Qed.

(** *** Patterns without special characters *)

Lemma chars_app (a b : string) :
  list_ascii_of_string (a ++ b)
  = list_ascii_of_string a ++ list_ascii_of_string b.
Proof. induction a as [|c a IH]; cbn; congruence. Qed.

Lemma feed_plain c f outer :
  plain_char c = true ->
  feed (Parsing f outer false) c = Parsing (push_item (Chr c) f) outer false.
Proof.
  unfold plain_char. intros H. apply negb_true_iff in H.
  repeat (apply orb_false_iff in H; destruct H as [H ?]).
  unfold feed.
  repeat match goal with
         | E : _ = false |- _ => rewrite E; clear E
         end.
  reflexivity.
Qed.

Lemma feed_plain_chars l :
  forallb plain_char l = true ->
  forall f outer,
    fold_left feed l (Parsing f outer false)
    = Parsing {| done_alts := done_alts f;
                 cur_items := rev (map Chr l) ++ cur_items f;
                 last_quantified := match l with
                                    | [] => last_quantified f
                                    | _ => false
                                    end |} outer false.
Proof.
  induction l as [|c l IH]; intros H f outer.
  - destruct f; reflexivity.
  - cbn [forallb] in H. apply andb_true_iff in H as [Hc Hl].
    cbn [fold_left]. rewrite (feed_plain c f outer Hc), (IH Hl).
    cbn [push_item done_alts cur_items last_quantified map rev].
    rewrite <- app_assoc. cbn [app]. destruct l; reflexivity.
Qed.

Lemma close_seq_greedy_tail items acc :
  greedy_tail acc = true -> acc <> Eps ->
  greedy_tail (fold_left (fun acc r => Cat r acc) items acc) = true.
Proof.
  revert acc. induction items as [|r items IH]; cbn [fold_left]; intros acc Hg Hne.
  - exact Hg.
  - apply IH; [|discriminate].
    cbn [greedy_tail]. destruct acc; auto.
Qed.

(** When "from" and "to" hold no special character, the pattern that
    [check_trigger] assembles compiles and has a greedy tail. *)
Lemma plain_patterns_compile from_ to_ :
  plain from_ = true -> plain to_ = true ->
  exists r, compile (((".*" ++ from_) ++ to_) ++ ".*")%string = Pattern r
            /\ greedy_tail r = true.
Proof.
  unfold plain, compile. intros Hfrom Hto.
  rewrite !chars_app, !fold_left_app.
  change (fold_left feed (list_ascii_of_string ".*") (Parsing empty_frame [] false))
    with (Parsing {| done_alts := []; cur_items := [Star Any];
                     last_quantified := true |} [] false).
  rewrite (feed_plain_chars _ Hfrom), (feed_plain_chars _ Hto).
  cbn [done_alts cur_items].
  eexists. split; [reflexivity|].
  unfold close_frame, close_seq. cbn [done_alts cur_items fold_left].
  apply close_seq_greedy_tail; [reflexivity | discriminate].
Qed.

End RegexFacts.

(** ** check_trigger: the index it returns *)

(** With an alternation in "from", the appended [".*"] belongs to the
    last alternative only: the trigger from "A|B" to "C" searches
    ".*A|BC.*", fires on the stream ["A","X"] and returns 1, while the
    joined stream has 2 characters. *)
Lemma check_trigger_alternation_stops_early :
  fst (check_trigger (transition "A|B" "C") (world_of ["A"; "X"])) = Returned 1
  /\ String.length (joined (world_of ["A"; "X"])) = 2%nat.
Proof. split; vm_compute; reflexivity. Qed.

(** A line feed in the stream stops the [.*] as well. *)
Lemma check_trigger_line_feed_stops_early :
  fst (check_trigger (transition "A" "B") (world_of ["A"; "B"; NL; "C"]))
  = Returned 2
  /\ String.length (joined (world_of ["A"; "B"; NL; "C"])) = 4%nat.
Proof. split; vm_compute; reflexivity. Qed.

(** A backslash at the end of "to" takes the dot of the appended
    [".*"]: the trigger from "A" to "B\" searches ".*AB\.*", where the
    star repeats a literal dot; the pattern has no "|" and it returns 2
    on a joined stream of 3 characters. *)
Lemma check_trigger_escaped_dot_stops_early :
  fst (check_trigger (transition "A" "B\") (world_of ["A"; "B"; "C"]))
  = Returned 2
  /\ String.length (joined (world_of ["A"; "B"; "C"])) = 3%nat.
Proof. split; vm_compute; reflexivity. Qed.

(** For "from" and "to" without special characters the two conditions on
    the pattern hold. *)
Lemma check_trigger_plain_patterns from_ to_ w i :
  plain from_ = true -> plain to_ = true ->
  no_line_feed (joined w) = true ->
  fst (check_trigger (transition from_ to_) w) = Returned i ->
  i <> NOT_TRIGGERED ->
  i = Z.of_nat (String.length (joined w)).
Proof.
  intros Hfrom Hto Hlf Hret Hne.
  destruct (RegexFacts.plain_patterns_compile from_ to_ Hfrom Hto)
    as (r & Hc & Hg).
  revert Hret. unfold check_trigger, stream_regex.
  cbn [transition from_seg to_seg str_add bind]. rewrite Hc.
  destruct (Regex.search r (String.concat "" (cur_stream w))) as [m|] eqn:E;
    cbn [fst].
  - intros [= <-].
    exact (RegexFacts.search_runs_to_end r _ Hg Hlf E).
  - intros [= <-]. contradiction.
Qed.

(** C10 (as the code has it).  For "from" and "to" without characters
    that are special in a regular expression, and a joined stream
    without line feed, the index that [check_trigger] returns on a match
    is the number of characters of the joined stream; and so it is for
    every pattern of the modelled fragment that compiles with a greedy
    tail (the appended ".*" ends every alternative).  The index counts
    characters, not symbols, and the pattern is matched on the joined
    characters: on ["xA","By"] the trigger from "A" to "B" fires across
    the two symbols and returns 4. *)
Theorem check_trigger_returns_joined_length :
  (forall (from_ to_ : string) (w : world) (i : Z),
      plain from_ = true -> plain to_ = true ->
      no_line_feed (joined w) = true ->
      fst (check_trigger (transition from_ to_) w) = Returned i ->
      i <> NOT_TRIGGERED ->
      i = Z.of_nat (String.length (joined w)))
  /\ (forall (self : TransitionTrigger) (w : world) (pattern : string)
             (r : Regex.regex) (i : Z),
         stream_regex self = Ok pattern ->
         Regex.compile pattern = Regex.Pattern r ->
         greedy_tail r = true ->
         no_line_feed (joined w) = true ->
         fst (check_trigger self w) = Returned i ->
         i <> NOT_TRIGGERED ->
         i = Z.of_nat (String.length (joined w)))
  /\ fst (check_trigger (transition "A" "B") (world_of ["xA"; "By"]))
     = Returned 4
  /\ length (cur_stream (world_of ["xA"; "By"])) = 2%nat.
Proof.
  split; [|split; [|split; vm_compute; reflexivity]].
  - intros from_ to_ w i Hfrom Hto Hlf Hret Hne.
    exact (@check_trigger_plain_patterns from_ to_ w i Hfrom Hto Hlf Hret Hne).
  - intros self w pattern r i Hp Hc Hg Hlf.
    unfold check_trigger. rewrite Hp, Hc.
    destruct (Regex.search r (String.concat "" (cur_stream w))) as [m|] eqn:E;
      cbn [fst].
    + intros [= <-] _.
      exact (RegexFacts.search_runs_to_end r _ Hg Hlf E).
    + intros [= <-] Hne. contradiction.
Qed.

Lemma check_trigger_returns_joined_length_witness :
  3%Z = Z.of_nat (String.length (joined (world_of ["A"; "B"; "C"]))).
Proof.
  apply (proj1 check_trigger_returns_joined_length
               "A" "B" (world_of ["A"; "B"; "C"])).
  - reflexivity.
  - reflexivity.
  - reflexivity.
  - vm_compute. reflexivity.
  - discriminate.
Defined.

(** X22.  The search is over the whole joined stream: [check_trigger]
    returns NOT_TRIGGERED exactly when no factor of the joined stream is a
    word of the compiled pattern. *)
Lemma check_trigger_not_triggered self w pattern r :
  stream_regex self = Ok pattern ->
  Regex.compile pattern = Regex.Pattern r ->
  fst (check_trigger self w) = Returned NOT_TRIGGERED
  <-> ~ exists p m q,
          list_ascii_of_string (joined w) = p ++ m ++ q /\ matches r m.
Proof.
  intros Hp Hc. unfold check_trigger, joined, Regex.search. rewrite Hp, Hc.
  pose proof (RegexFacts.search_from_finds r
                (list_ascii_of_string (String.concat "" (cur_stream w))) 0)
    as Hfind.
  destruct (Regex.search_from r 0 _) as [[b e]|]; cbn [fst]; split.
  - intros [= He]. unfold NOT_TRIGGERED in He. lia.
  - intros Hno. exfalso. apply Hno, Hfind. discriminate.
  - intros _ Hex. apply Hfind in Hex. contradiction.
  - reflexivity.
Qed.

(** ** The engine *)

Lemma search_end_nonneg r s m :
  Regex.search r s = Some m -> (0 <= Regex.m_start m <= Regex.m_end m)%Z.
Proof.
  unfold Regex.search.
  destruct (Regex.search_from r 0 _) as [[b e]|] eqn:E; [|discriminate].
  intros [= <-]. cbn.
  assert (H : forall s0 pos b0 e0,
             Regex.search_from r pos s0 = Some (b0, e0) -> pos <= b0 <= e0).
  { induction s0 as [|a s0 IH]; intros pos b0 e0; cbn [Regex.search_from].
    - destruct (Regex.run r [] _); [|discriminate].
      intros [= <- <-]. lia.
    - destruct (Regex.run r (a :: s0) _).
      + intros [= <- <-]. lia.
      + intros H. apply IH in H. lia. }
  apply H in E. lia.
Qed.

(** On the fragment of [Regex], [check_trigger_with] is
    [check_trigger]. *)
Lemma check_trigger_with_fragment (re_search : searcher) self w :
  models_fragment re_search ->
  match fst (check_trigger self w) with
  | Returned i =>
      check_trigger_with re_search self w = (Ok i, snd (check_trigger self w))
  | Raised e =>
      check_trigger_with re_search self w
      = (Raise e, snd (check_trigger self w))
  | NotModelled => True
  end.
Proof.
  intros Hre. unfold check_trigger, check_trigger_with.
  destruct (stream_regex self) as [pattern|e]; [|reflexivity].
  pose proof (Hre pattern (String.concat "" (cur_stream w))) as Hp.
  unfold fragment_search in Hp.
  destruct (Regex.compile pattern) as [r| |]; cbn [fst].
  - rewrite (Hp _ eq_refl).
    destruct (Regex.search r _); reflexivity.
  - rewrite (Hp _ eq_refl). reflexivity.
  - exact I.
Qed.

Lemma within_fragment_models : models_fragment within_fragment.
Proof.
  intros pattern text o H. unfold within_fragment. rewrite H. reflexivity.
Qed.

Lemma within_fragment_ends : ends_not_negative within_fragment.
Proof.
  intros pattern text m. unfold within_fragment, fragment_search.
  destruct (Regex.compile pattern) as [r| |]; try discriminate.
  intros [= H]. apply search_end_nonneg in H. lia.
Qed.

(** The evaluation of a trigger reads the stream and adds to the
    output; it depends on nothing else and leaves the stream alone. *)
Lemma check_trigger_alone (re_search : searcher) t w :
  fst (check_trigger_with re_search t w)
  = fst (check_trigger_with re_search t (world_of (cur_stream w)))
  /\ cur_stream (snd (check_trigger_with re_search t w)) = cur_stream w
  /\ stdout (snd (check_trigger_with re_search t w))
     = stdout w
       ++ stdout (snd (check_trigger_with re_search t
                         (world_of (cur_stream w)))).
Proof.
  unfold check_trigger_with. cbn [world_of cur_stream].
  destruct (stream_regex t) as [p|]; [|cbn; rewrite app_nil_r; auto].
  destruct (re_search p _) as [[m|]|];
    try (cbn; rewrite app_nil_r; auto).
  destruct (callback t). cbn. auto.
Qed.

Lemma onNewSymbol_alone (re_search : searcher) triggers :
  forall w,
    fst (onNewSymbol re_search triggers w)
    = map (fun t => report_of (fst (check_trigger_with re_search t
                                      (world_of (cur_stream w)))))
          triggers
    /\ cur_stream (snd (onNewSymbol re_search triggers w)) = cur_stream w
    /\ stdout (snd (onNewSymbol re_search triggers w))
       = stdout w
         ++ flat_map (fun t => stdout (snd (check_trigger_with re_search t
                                              (world_of (cur_stream w)))))
                     triggers.
Proof.
  induction triggers as [|t rest IH]; intros w; cbn [onNewSymbol map flat_map].
  - cbn. rewrite app_nil_r. auto.
  - destruct (check_trigger_alone re_search t w) as (Hfst & Hstream & Hout).
    destruct (check_trigger_with re_search t w) as [c w1].
    cbn [fst snd] in *.
    destruct (IH w1) as (IHfst & IHstream & IHout).
    destruct (onNewSymbol re_search rest w1) as [reports w2].
    cbn [fst snd] in *.
    rewrite Hstream in *. repeat split.
    + rewrite Hfst, IHfst. reflexivity.
    + exact IHstream.
    + rewrite IHout, Hout, app_assoc. reflexivity.
Qed.

(** C4.  In the engine of the specification, whatever the regex package
    does with the patterns, every trigger is evaluated as if it were
    alone: its report is the one of its own [check_trigger] on the
    current stream, whatever the other triggers of the list do, and the
    output of the update is the output of the triggers, in order; the
    stream is unchanged.  When the evaluation of one of two triggers
    raises, the engine reports a TriggerEvaluationError for that trigger
    and the report and the output of the other are those of its own
    evaluation, in either order of declaration; and a trigger whose
    pattern is found in the joined stream is reported as matched at the
    end of the match, its callback called once.  The trigger from "("
    to "B" has the malformed pattern ".*(B.*": the regex error leaves
    [check_trigger], and the engine reports it for that trigger while
    the trigger from "A" to "B" declared after it fires. *)
Theorem engine_isolates_triggers :
  forall re_search : searcher,
    (forall triggers w,
        fst (onNewSymbol re_search triggers w)
        = map (fun t => report_of (fst (check_trigger_with re_search t
                                          (world_of (cur_stream w)))))
              triggers
        /\ cur_stream (snd (onNewSymbol re_search triggers w)) = cur_stream w
        /\ stdout (snd (onNewSymbol re_search triggers w))
           = stdout w
             ++ flat_map (fun t => stdout (snd (check_trigger_with
                                                  re_search t
                                                  (world_of (cur_stream w)))))
                         triggers)
    /\ (forall bad good w e,
          let alone :=
            check_trigger_with re_search good (world_of (cur_stream w)) in
          fst (check_trigger_with re_search bad (world_of (cur_stream w)))
          = Raise e ->
          (fst (onNewSymbol re_search [bad; good] w)
           = [TriggerEvaluationError; report_of (fst alone)]
           /\ stdout (snd (onNewSymbol re_search [bad; good] w))
              = stdout w ++ stdout (snd alone))
          /\ (fst (onNewSymbol re_search [good; bad] w)
              = [report_of (fst alone); TriggerEvaluationError]
              /\ stdout (snd (onNewSymbol re_search [good; bad] w))
                 = stdout w ++ stdout (snd alone)))
    /\ (forall good w pattern m,
          ends_not_negative re_search ->
          stream_regex good = Ok pattern ->
          re_search pattern (joined w) = Ok (Some m) ->
          let alone :=
            check_trigger_with re_search good (world_of (cur_stream w)) in
          report_of (fst alone) = MatchedAt (Regex.m_end m)
          /\ stdout (snd alone)
             = stdout (call (callback good) good m
                            (world_of (cur_stream w))))
    /\ (models_fragment re_search ->
        (forall w, check_trigger_with re_search (transition "(" "B") w
                   = (Raise RegexError, w))
        /\ onNewSymbol re_search [transition "(" "B"; transition "A" "B"]
                       (world_of ["A"; "B"])
           = ([TriggerEvaluationError; MatchedAt 2],
              {| cur_stream := ["A"; "B"];
                 stdout := [notice_AB "A-B" (-8)] |})).
Proof.
  intros re_search.
  split; [exact (onNewSymbol_alone re_search)|].
  split; [|split].
  - intros bad good w e alone Hbad.
    assert (Hraise : stdout (snd (check_trigger_with re_search bad
                                    (world_of (cur_stream w)))) = []).
    { revert Hbad. unfold check_trigger_with. cbn [world_of cur_stream].
      destruct (stream_regex bad) as [p|]; [|reflexivity].
      destruct (re_search p _) as [[m|]|]; try discriminate. reflexivity. }
    split.
    + destruct (onNewSymbol_alone re_search [bad; good] w)
        as (Hfst & _ & Hout).
      rewrite Hfst, Hout. cbn [map flat_map]. rewrite Hbad, Hraise.
      subst alone. split; [reflexivity|]. cbn. rewrite app_nil_r.
      reflexivity.
    + destruct (onNewSymbol_alone re_search [good; bad] w)
        as (Hfst & _ & Hout).
      rewrite Hfst, Hout. cbn [map flat_map]. rewrite Hbad, Hraise.
      subst alone. split; [reflexivity|]. rewrite !app_nil_r.
      reflexivity.
  - intros good w pattern m Hends Hp Hm alone. subst alone.
    unfold check_trigger_with. cbn [world_of cur_stream].
    unfold joined in Hm. rewrite Hp, Hm. cbn [fst snd report_of].
    apply Hends in Hm.
    destruct (Z.eqb_spec (Regex.m_end m) NOT_TRIGGERED) as [E|_];
      [unfold NOT_TRIGGERED in E; lia|].
    split; reflexivity.
  - intros Hre.
    assert (Hbad : forall w, check_trigger_with re_search
                               (transition "(" "B") w
                             = (Raise RegexError, w)).
    { intros w.
      exact (check_trigger_with_fragment (transition "(" "B") w Hre). }
    split; [exact Hbad|].
    cbn [onNewSymbol]. rewrite Hbad.
    assert (Hgood : check_trigger_with re_search (transition "A" "B")
                                       (world_of ["A"; "B"])
                    = (Ok 2%Z, snd (check_trigger (transition "A" "B")
                                                  (world_of ["A"; "B"]))))
      by exact (check_trigger_with_fragment (transition "A" "B")
                                            (world_of ["A"; "B"]) Hre).
    rewrite Hgood. reflexivity.
Qed.

Lemma engine_isolates_triggers_witness :
  (let alone :=
     check_trigger_with within_fragment (transition "A" "B")
                        (world_of (cur_stream (world_of ["A"; "B"]))) in
   (fst (onNewSymbol within_fragment
           [transition "(" "B"; transition "A" "B"] (world_of ["A"; "B"]))
    = [TriggerEvaluationError; report_of (fst alone)]
    /\ stdout (snd (onNewSymbol within_fragment
                      [transition "(" "B"; transition "A" "B"]
                      (world_of ["A"; "B"])))
       = stdout (world_of ["A"; "B"]) ++ stdout (snd alone))
   /\ (fst (onNewSymbol within_fragment
              [transition "A" "B"; transition "(" "B"]
              (world_of ["A"; "B"]))
       = [report_of (fst alone); TriggerEvaluationError]
       /\ stdout (snd (onNewSymbol within_fragment
                         [transition "A" "B"; transition "(" "B"]
                         (world_of ["A"; "B"])))
          = stdout (world_of ["A"; "B"]) ++ stdout (snd alone)))
  /\ ((forall w, check_trigger_with within_fragment (transition "(" "B") w
                 = (Raise RegexError, w))
      /\ onNewSymbol within_fragment
                     [transition "(" "B"; transition "A" "B"]
                     (world_of ["A"; "B"])
         = ([TriggerEvaluationError; MatchedAt 2],
            {| cur_stream := ["A"; "B"];
               stdout := [notice_AB "A-B" (-8)] |})).
Proof.
  split.
  - apply (proj1 (proj2 (engine_isolates_triggers within_fragment))
                 (transition "(" "B") (transition "A" "B")
                 (world_of ["A"; "B"]) RegexError).
    reflexivity.
  - apply (proj2 (proj2 (proj2 (engine_isolates_triggers within_fragment)))).
    exact within_fragment_models.
Defined.

(** ** standardize_spect *)

Section ArrayFacts.

Variable A : Type.

Lemma chunks_length n w (l : list A) : length (chunks n w l) = n.
Proof. revert l. induction n as [|n IH]; intros l; cbn; auto. Qed.

Lemma chunks_widths n w (l : list A) :
  length l = n * w -> Forall (fun row => length row = w) (chunks n w l).
Proof.
  revert l. induction n as [|n IH]; intros l H; cbn [chunks]; constructor.
  - rewrite length_firstn. lia.
  - apply IH. rewrite length_skipn. lia.
Qed.

Lemma nth_chunks n w (l : list A) i j d :
  i < n -> j < w ->
  nth j (nth i (chunks n w l) []) d = nth (i * w + j) l d.
Proof.
  revert l i. induction n as [|n IH]; intros l i Hi Hj; [lia|].
  cbn [chunks]. destruct i as [|i]; cbn [nth].
  - rewrite nth_firstn. apply Nat.ltb_lt in Hj. rewrite Hj. reflexivity.
  - rewrite IH by lia. rewrite nth_skipn. f_equal. lia.
Qed.

Lemma concat_uniform_length w (rows : list (list A)) :
  Forall (fun row => length row = w) rows ->
  length (concat rows) = length rows * w.
Proof.
  induction 1 as [|row rows Hrow _ IH]; cbn; [reflexivity|].
  rewrite length_app. lia.
Qed.

Lemma nth_concat_uniform w (rows : list (list A)) i j d :
  Forall (fun row => length row = w) rows ->
  j < w ->
  nth (i * w + j) (concat rows) d = nth j (nth i rows []) d.
Proof.
  intros Hall Hj. revert i.
  induction Hall as [|row rows Hrow _ IH]; intros i.
  - cbn [concat]. destruct (i * w + j), i, j; reflexivity.
  - cbn [concat]. destruct i as [|i]; cbn [nth].
    + apply app_nth1. lia.
    + replace (S i * w + j) with (length row + (i * w + j)) by lia.
      rewrite app_nth2_plus. apply IH.
Qed.

Lemma nth_map_inside {B : Type} (f : A -> B) (l : list A) j d d' :
  j < length l -> nth j (map f l) d' = f (nth j l d).
Proof.
  intros H. rewrite (nth_indep _ d' (f d)) by (rewrite length_map; exact H).
  apply map_nth.
Qed.

End ArrayFacts.

Section StandardizeFacts.

Variable A : Type.
Variables sub div : A -> A -> A.

(** The rows after the subtraction and the division, for as many means,
    deviations and mask entries as there are rows. *)
Lemma divide_selected_rows (rows : list (list A)) :
  forall (mean_freqs std_freqs : list A) (mask : list bool),
    length mean_freqs = length rows ->
    length std_freqs = length rows ->
    length mask = length rows ->
    let tfm := map (fun rm => map (fun x => sub x (snd rm)) (fst rm))
                   (combine rows mean_freqs) in
    let out := divide_selected div tfm std_freqs mask in
    length out = length rows
    /\ (forall w, Forall (fun row => length row = w) rows ->
                  Forall (fun row => length row = w) out)
    /\ forall i d, i < length rows ->
         nth i out []
         = map (fun x => if nth i mask false
                         then div (sub x (nth i mean_freqs d)) (nth i std_freqs d)
                         else sub x (nth i mean_freqs d))
               (nth i rows []).
Proof.
  induction rows as [|row rows IH]; intros mean_freqs std_freqs mask Hm Hs Hk.
  - cbn. repeat split; [constructor | intros; lia].
  - destruct mean_freqs as [|m mean_freqs]; [discriminate|].
    destruct std_freqs as [|s std_freqs]; [discriminate|].
    destruct mask as [|b mask]; [discriminate|].
    cbn in Hm, Hs, Hk.
    destruct (IH mean_freqs std_freqs mask) as (IHlen & IHw & IHnth); try lia.
    cbn [combine map divide_selected fst snd length]. repeat split.
    + cbn in IHlen. rewrite IHlen. reflexivity.
    + intros w Hall. inversion Hall as [|? ? Hrow Hrest]; subst.
      constructor; [|apply IHw; exact Hrest].
      destruct b; rewrite ?length_map; reflexivity.
    + intros i d Hi. destruct i as [|i]; cbn [nth].
      * destruct b; [rewrite map_map|]; reflexivity.
      * apply IHnth. lia.
Qed.

End StandardizeFacts.

(** C7.  For a spectrogram of [F] bands by [T] time bins and a mean, a
    standard deviation and a mask entry per band, [standardize_spect]
    returns an array of the same shape; the value at band [i], time [j]
    is the input value minus the mean of band [i], divided by the
    standard deviation of band [i] where the mask is true and left as it
    is where the mask is false.  On binary64 floats, the spectrogram
    [[2,4]] with mean [3], deviation [1] and mask [true] gives
    [[-1,1]]. *)
Theorem standardize_spect_bands :
  (forall (A : Type) (sub div : A -> A -> A) (F T : nat)
          (cells mean_freqs std_freqs : list A) (non_zero_std : list bool),
      length cells = F * T ->
      length mean_freqs = F ->
      length std_freqs = F ->
      length non_zero_std = F ->
      exists out,
        standardize_spect sub div {| shape := [F; T]; data := cells |}
                          mean_freqs std_freqs non_zero_std
        = Some (Ok out)
        /\ shape out = [F; T]
        /\ length (data out) = F * T
        /\ forall i j d, i < F -> j < T ->
             nth (i * T + j) (data out) d
             = let x := sub (nth (i * T + j) cells d) (nth i mean_freqs d) in
               if nth i non_zero_std false
               then div x (nth i std_freqs d) else x)
  /\ standardize_spect PrimFloat.sub PrimFloat.div
       {| shape := [1; 2]; data := [2%float; 4%float] |}
       [3%float] [1%float] [true]
     = Some (Ok {| shape := [1; 2]; data := [(-1)%float; 1%float] |}).
Proof.
  split; [|vm_compute; reflexivity].
  intros A sub div F T cells mean_freqs std_freqs non_zero_std.
  intros Hcells Hmean Hstd Hmask.
  pose proof (chunks_length F T cells) as Hrows.
  pose proof (chunks_widths F T cells Hcells) as Hwidths.
  destruct (divide_selected_rows sub div (chunks F T cells) mean_freqs
              std_freqs non_zero_std) as (Hlen & Hw & Hnth); try congruence.
  specialize (Hw T Hwidths).
  set (tfm := map (fun rm => map (fun x => sub x (snd rm)) (fst rm))
                  (combine (chunks F T cells) mean_freqs)) in *.
  set (out := divide_selected div tfm std_freqs non_zero_std) in *.
  assert (Htfm : length tfm = F).
  { unfold tfm. rewrite length_map, length_combine. lia. }
  exists {| shape := [F; T]; data := concat out |}.
  split; [|split; [reflexivity|split]].
  - unfold standardize_spect, broadcast_sub. cbn [shape data].
    rewrite Hrows, Hmean, Nat.eqb_refl. cbn [bind]. fold tfm.
    rewrite Htfm, Hmask, Hstd, Nat.eqb_refl.
    destruct (Nat.eqb_spec F 0) as [HF|_]; [|reflexivity].
    assert (Hnil : tfm = []) by (apply length_zero_iff_nil; congruence).
    assert (Honil : out = []) by (apply length_zero_iff_nil; congruence).
    rewrite Hnil, Honil. reflexivity.
  - cbn [data]. rewrite (concat_uniform_length Hw). congruence.
  - intros i j d Hi Hj. cbn [data].
    rewrite (nth_concat_uniform i d Hw Hj).
    rewrite (Hnth i d) by congruence.
    rewrite <- (nth_chunks cells d Hi Hj).
    set (row := nth i (chunks F T cells) []).
    assert (Hrow : j < length row).
    { unfold row. rewrite Forall_forall in Hwidths.
      rewrite (Hwidths (nth i (chunks F T cells) [])); [exact Hj|].
      apply nth_In. congruence. }
    rewrite (nth_map_inside _ _ d d Hrow).
    cbv zeta. destruct (nth i non_zero_std false); reflexivity.
Qed.

Lemma standardize_spect_bands_witness :
  exists out,
    standardize_spect Z.sub Z.div
      {| shape := [2; 2]; data := [7; 9; 5; 6]%Z |} [1; 2]%Z [2; 0]%Z [true; false]
    = Some (Ok out)
    /\ shape out = [2; 2]
    /\ length (data out) = 2 * 2
    /\ forall i j d, i < 2 -> j < 2 ->
         nth (i * 2 + j) (data out) d
         = let x := Z.sub (nth (i * 2 + j) [7; 9; 5; 6]%Z d) (nth i [1; 2]%Z d) in
           if nth i [true; false] false
           then Z.div x (nth i [2; 0]%Z d) else x.
Proof.
  apply (proj1 standardize_spect_bands Z Z.sub Z.div 2 2
               [7; 9; 5; 6]%Z [1; 2]%Z [2; 0]%Z [true; false]);
    reflexivity.
Defined.

(** ** pad_to_window and reshape_to_window *)

Section WindowFacts.

Variable A : Type.

Lemma ceil_div_bounds (a b : Z) :
  (0 < b)%Z -> (a <= ceil_div a b * b < a + b)%Z.
Proof.
  intros Hb. unfold ceil_div.
  pose proof (Z_div_mod_eq_full (- a) b) as Hdiv.
  pose proof (Z.mod_pos_bound (- a) b Hb) as Hmod.
  nia.
Qed.

Lemma padded_width_spec (W : nat) (k : Z) :
  (1 <= k)%Z ->
  (0 <= ceil_div (Z.of_nat W) k)%Z
  /\ Z.of_nat (padded_width W k) = (ceil_div (Z.of_nat W) k * k)%Z
  /\ W <= padded_width W k.
Proof.
  intros Hk. unfold padded_width.
  assert (Hb : (Z.of_nat W <= ceil_div (Z.of_nat W) k * k < Z.of_nat W + k)%Z)
    by (apply ceil_div_bounds; lia).
  assert (0 <= ceil_div (Z.of_nat W) k)%Z by nia.
  repeat split; [assumption | lia | lia].
Qed.

Lemma select_padding (xs : list A) (padval : A) (m : nat) :
  select (repeat true (length xs) ++ repeat false m) (xs ++ repeat padval m)
  = xs.
Proof.
  induction xs as [|x xs IH]; cbn.
  - induction m as [|m IHm]; cbn; auto.
  - f_equal. exact IH.
Qed.

Lemma np_compress_padding (xs : list A) (padval : A) (m : nat) :
  np_compress (repeat true (length xs) ++ repeat false m)
              (xs ++ repeat padval m)
  = Ok xs.
Proof.
  unfold np_compress.
  rewrite !length_app, !repeat_length, Nat.eqb_refl, select_padding.
  reflexivity.
Qed.

Lemma chunks_concat w (rows : list (list A)) :
  Forall (fun row => length row = w) rows ->
  chunks (length rows) w (concat rows) = rows.
Proof.
  induction 1 as [|row rows Hrow _ IH]; cbn [length chunks concat].
  - reflexivity.
  - rewrite firstn_app, skipn_app, Hrow, Nat.sub_diag.
    rewrite firstn_all2, skipn_all2 by lia.
    cbn [firstn skipn app]. rewrite app_nil_r, IH. reflexivity.
Qed.

End WindowFacts.

Section PadReshape.

Variable A : Type.
Variable as_float64 : A -> float.

(** For a window size of at least one, [pad_to_window] returns, and this
    is what it returns. *)
Lemma pad_to_window_1d (W : nat) (cells : list A) (k : Z) (padval : float)
      (return_padding_mask : bool) :
  (1 <= k)%Z ->
  pad_to_window as_float64 {| shape := [W]; data := cells |} k padval
                return_padding_mask
  = Ok ({| shape := [padded_width W k];
           data := map as_float64 cells
                   ++ repeat padval (padded_width W k - W) |},
        if return_padding_mask
        then Some (padding_mask_of W (padded_width W k)) else None).
Proof.
  intros Hk. destruct (padded_width_spec W Hk) as (_ & _ & Hle).
  unfold pad_to_window. cbn [shape data bind fst snd].
  fold (padded_width W k).
  destruct (Z.eqb_spec k 0); [lia|].
  apply Nat.leb_le in Hle. rewrite Hle. cbn [orb negb].
  destruct return_padding_mask; reflexivity.
Qed.

Lemma pad_to_window_2d (H W : nat) (cells : list A) (k : Z) (padval : float)
      (return_padding_mask : bool) :
  (1 <= k)%Z ->
  pad_to_window as_float64 {| shape := [H; W]; data := cells |} k padval
                return_padding_mask
  = Ok ({| shape := [H; padded_width W k];
           data := concat (map (fun row =>
                                  row ++ repeat padval (padded_width W k - W))
                               (chunks H W (map as_float64 cells))) |},
        if return_padding_mask
        then Some (padding_mask_of W (padded_width W k)) else None).
Proof.
  intros Hk. destruct (padded_width_spec W Hk) as (_ & _ & Hle).
  unfold pad_to_window. cbn [shape data bind fst snd].
  fold (padded_width W k).
  destruct (Z.eqb_spec k 0); [lia|].
  apply Nat.leb_le in Hle. rewrite Hle. cbn [orb negb].
  destruct return_padding_mask; reflexivity.
Qed.

(** [reshape_to_window] on a width that is a multiple of the window
    size. *)
Lemma reshape_to_window_1d (T : nat) (cells : list A) (k : Z) :
  (1 <= k)%Z -> (k | Z.of_nat T)%Z ->
  reshape_to_window {| shape := [T]; data := cells |} k
  = Ok {| shape := [Z.to_nat (Z.of_nat T / k); Z.to_nat k]; data := cells |}.
Proof.
  intros Hk Hdiv.
  unfold reshape_to_window, np_reshape, np_size. cbn [shape data size_of fold_right].
  cbn [scan_dims].
  change (-1 <? 0)%Z with true. cbv iota.
  destruct (Z.ltb_spec k 0); [lia|]. cbn [bind fst snd].
  rewrite Nat.mul_1_r, Z.mul_1_l.
  destruct (Z.eqb_spec k 0); [lia|]. cbn [orb].
  apply Z.mod_divide in Hdiv; [|lia]. rewrite Hdiv. cbn [Z.eqb negb].
  cbn [map]. change (-1 <? 0)%Z with true. cbv iota.
  destruct (Z.ltb_spec k 0); [lia|]. reflexivity.
Qed.

Lemma reshape_to_window_2d (H T : nat) (cells : list A) (k : Z) :
  (1 <= k)%Z -> 1 <= H -> (k | Z.of_nat T)%Z ->
  reshape_to_window {| shape := [H; T]; data := cells |} k
  = Ok {| shape := [Z.to_nat (Z.of_nat T / k); H; Z.to_nat k]; data := cells |}.
Proof.
  intros Hk HH Hdiv.
  unfold reshape_to_window, np_reshape, np_size. cbn [shape data size_of fold_right].
  cbn [scan_dims].
  change (-1 <? 0)%Z with true. cbv iota.
  destruct (Z.ltb_spec (Z.of_nat H) 0); [lia|].
  destruct (Z.ltb_spec k 0); [lia|]. cbn [bind fst snd].
  rewrite Nat.mul_1_r, Z.mul_1_l, Nat2Z.inj_mul.
  destruct (Z.eqb_spec (Z.of_nat H * k) 0); [nia|]. cbn [orb].
  assert (Hmod : ((Z.of_nat H * Z.of_nat T) mod (Z.of_nat H * k) = 0)%Z).
  { rewrite Z.mul_mod_distr_l by lia.
    apply Z.mod_divide in Hdiv; [|lia]. rewrite Hdiv. lia. }
  rewrite Hmod. cbn [Z.eqb negb].
  cbn [map]. change (-1 <? 0)%Z with true. cbv iota.
  destruct (Z.ltb_spec (Z.of_nat H) 0); [lia|].
  destruct (Z.ltb_spec k 0); [lia|].
  rewrite Z.div_mul_cancel_l by lia. rewrite Nat2Z.id. reflexivity.
Qed.

End PadReshape.

Section WindowErrors.

Variable A : Type.

Lemma pad_to_window_bad_ndim (as_float64 : A -> float) (arr : ndarray A)
      k padval rm :
  ndim arr <> 1 -> ndim arr <> 2 ->
  pad_to_window as_float64 arr k padval rm = Raise ValueError.
Proof.
  unfold ndim, pad_to_window. intros H1 H2.
  destruct (shape arr) as [|a [|b [|c l]]]; cbn in *; congruence.
Qed.

Lemma reshape_to_window_bad_ndim (arr : ndarray A) k :
  ndim arr <> 1 -> ndim arr <> 2 ->
  reshape_to_window arr k = Raise ValueError.
Proof.
  unfold ndim, reshape_to_window. intros H1 H2.
  destruct (shape arr) as [|a [|b [|c l]]]; cbn in *; congruence.
Qed.

Lemma reshape_to_window_1d_rejects (T : nat) (cells : list A) (k : Z) :
  ~ (k | Z.of_nat T)%Z ->
  reshape_to_window {| shape := [T]; data := cells |} k = Raise ValueError.
Proof.
  intros Hdiv.
  unfold reshape_to_window, np_reshape, np_size.
  cbn [shape data size_of fold_right scan_dims].
  change (-1 <? 0)%Z with true. cbv iota.
  destruct (Z.ltb_spec k 0); [reflexivity|]. cbn [bind fst snd].
  rewrite Nat.mul_1_r, Z.mul_1_l.
  destruct (Z.eqb_spec k 0); [reflexivity|]. cbn [orb].
  destruct (Z.eqb_spec (Z.of_nat T mod k) 0) as [Hmod|]; [|reflexivity].
  exfalso. apply Hdiv. apply Z.mod_divide; [lia | exact Hmod].
Qed.

Lemma reshape_to_window_2d_rejects (H T : nat) (cells : list A) (k : Z) :
  ~ (k | Z.of_nat T)%Z ->
  reshape_to_window {| shape := [H; T]; data := cells |} k = Raise ValueError.
Proof.
  intros Hdiv.
  unfold reshape_to_window, np_reshape, np_size.
  cbn [shape data size_of fold_right scan_dims].
  change (-1 <? 0)%Z with true. cbv iota.
  destruct (Z.ltb_spec (Z.of_nat H) 0); [lia|].
  destruct (Z.ltb_spec k 0); [reflexivity|]. cbn [bind fst snd].
  rewrite Nat.mul_1_r, Z.mul_1_l, Nat2Z.inj_mul.
  destruct (Z.eqb_spec (Z.of_nat H * k) 0); [reflexivity|]. cbn [orb].
  destruct (Z.eqb_spec ((Z.of_nat H * Z.of_nat T) mod (Z.of_nat H * k)) 0)
    as [Hmod|]; [|reflexivity].
  exfalso. apply Hdiv.
  rewrite Z.mul_mod_distr_l in Hmod by lia.
  apply Z.mod_divide; [lia | nia].
Qed.

Lemma crop_rows_padding (padval : A) (W m : nat) (rows : list (list A)) :
  Forall (fun row => length row = W) rows ->
  crop_rows (repeat true W ++ repeat false m)
            (map (fun row => row ++ repeat padval m) rows)
  = Ok rows.
Proof.
  induction 1 as [|row rows Hrow _ IH]; cbn [map crop_rows].
  - reflexivity.
  - rewrite <- Hrow at 1. rewrite np_compress_padding. cbn [bind].
    rewrite IH. reflexivity.
Qed.

End WindowErrors.

(** With a window size of zero the division in [pad_to_window] raises,
    and the windows of an array with two dimensions and no row cannot be
    formed. *)
Lemma pad_then_reshape_degenerate :
  (r <- pad_to_window (fun x => x)
          {| shape := [3]; data := [1; 2; 3]%float |} 0 0%float true ;;
   reshape_to_window (fst r) 0)
  = Raise ZeroDivisionError
  /\ (r <- pad_to_window (fun x => x)
             {| shape := [0; 3]; data := @nil float |} 3 0%float true ;;
      reshape_to_window (fst r) 3)
     = Raise ValueError.
Proof. split; reflexivity. Qed.

(** C8 (as the code has it).  For a window size [k] of at least one and
    an array that is not empty, with one dimension, or with two
    dimensions and at least one row, of width [W] with [W + k <= 2^53]
    (and, for two dimensions, a padded array below numpy's limit on the
    size in bytes): [pad_to_window] followed by [reshape_to_window]
    gives ceil(W/k) windows of width [k]; the mask is true on the first
    [W] positions and false on the padding; the flattened windows are
    the padded array, so that selecting with the mask (in each of the
    rows, for two dimensions) gives back the elements of the array,
    converted to float64 as [pad_to_window] stores them. *)
Theorem pad_then_reshape_round_trip :
  forall (A : Type) (as_float64 : A -> float) (arr : ndarray A) (k : Z)
         (padval : float),
    (1 <= k)%Z -> well_shaped arr ->
    (forall W, shape arr = [W] -> 1 <= W -> float64_exact W k ->
       exists padded mask windows,
         pad_to_window as_float64 arr k padval true = Ok (padded, Some mask)
         /\ reshape_to_window padded k = Ok windows
         /\ shape windows = [Z.to_nat (ceil_div (Z.of_nat W) k); Z.to_nat k]
         /\ mask = repeat true W ++ repeat false (length mask - W)
         /\ np_compress mask (data windows)
            = Ok (map as_float64 (data arr)))
    /\ (forall H W, shape arr = [H; W] -> 1 <= H -> 1 <= W ->
          float64_exact W k -> float64_fits H W k ->
          exists padded mask windows,
            pad_to_window as_float64 arr k padval true
            = Ok (padded, Some mask)
            /\ reshape_to_window padded k = Ok windows
            /\ shape windows
               = [Z.to_nat (ceil_div (Z.of_nat W) k); H; Z.to_nat k]
            /\ mask = repeat true W ++ repeat false (length mask - W)
            /\ crop_rows mask (chunks H (length mask) (data windows))
               = Ok (chunks H W (map as_float64 (data arr)))).
Proof.
  intros A as_float64 [sh cells] k padval Hk Hws. cbn [shape data].
  unfold well_shaped, np_size in Hws. cbn [shape data] in Hws.
  set (fcells := map as_float64 cells).
  assert (Hflen : length fcells = length cells) by apply length_map.
  split.
  - intros W -> _ _. cbn in Hws. rewrite Nat.mul_1_r in Hws.
    destruct (padded_width_spec W Hk) as (Hn & HT & Hle).
    set (T' := padded_width W k) in *.
    assert (Hmask : padding_mask_of W T' = repeat true W ++ repeat false (T' - W)).
    { unfold padding_mask_of. rewrite Nat.min_l by exact Hle. reflexivity. }
    assert (Hlen : length (padding_mask_of W T') = T').
    { rewrite Hmask, length_app, !repeat_length. lia. }
    exists {| shape := [T']; data := fcells ++ repeat padval (T' - W) |},
           (padding_mask_of W T'),
           {| shape := [Z.to_nat (Z.of_nat T' / k); Z.to_nat k];
              data := fcells ++ repeat padval (T' - W) |}.
    split; [exact (pad_to_window_1d as_float64 W cells padval true Hk)|].
    split; [apply reshape_to_window_1d;
            [exact Hk | exists (ceil_div (Z.of_nat W) k); exact HT]|].
    cbn [shape data]. rewrite HT, Z.div_mul by lia.
    split; [reflexivity|]. rewrite Hlen. split; [exact Hmask|].
    rewrite Hmask. rewrite <- Hws, <- Hflen at 1. apply np_compress_padding.
  - intros H W -> HH _ _ _. cbn in Hws. rewrite Nat.mul_1_r in Hws.
    destruct (padded_width_spec W Hk) as (Hn & HT & Hle).
    set (T' := padded_width W k) in *.
    assert (Hmask : padding_mask_of W T' = repeat true W ++ repeat false (T' - W)).
    { unfold padding_mask_of. rewrite Nat.min_l by exact Hle. reflexivity. }
    assert (Hlen : length (padding_mask_of W T') = T').
    { rewrite Hmask, length_app, !repeat_length. lia. }
    assert (Hfws : length fcells = H * W) by congruence.
    pose proof (chunks_widths H W fcells Hfws) as Hrows.
    set (padded_cells := concat (map (fun row => row ++ repeat padval (T' - W))
                                     (chunks H W fcells))).
    exists {| shape := [H; T']; data := padded_cells |},
           (padding_mask_of W T'),
           {| shape := [Z.to_nat (Z.of_nat T' / k); H; Z.to_nat k];
              data := padded_cells |}.
    split; [exact (pad_to_window_2d as_float64 H W cells padval true Hk)|].
    split; [apply reshape_to_window_2d;
            [exact Hk | exact HH
             | exists (ceil_div (Z.of_nat W) k); exact HT]|].
    subst padded_cells.
    cbn [shape data]. rewrite HT, Z.div_mul by lia.
    split; [reflexivity|]. rewrite Hlen. split; [exact Hmask|].
    rewrite Hmask.
    rewrite <- (chunks_length H W fcells) at 1.
    rewrite <- (length_map (fun row => row ++ repeat padval (T' - W))
                           (chunks H W fcells)).
    rewrite chunks_concat.
    + apply crop_rows_padding. exact Hrows.
    + apply Forall_forall. intros row Hin.
      apply in_map_iff in Hin as (row0 & <- & Hin0).
      rewrite Forall_forall in Hrows.
      rewrite length_app, repeat_length, (Hrows row0 Hin0). lia.
Qed.

Lemma pad_then_reshape_round_trip_witness :
  (exists padded mask windows,
      pad_to_window (fun x => x)
        {| shape := [5]; data := [1; 2; 3; 4; 5]%float |} 3 0%float true
      = Ok (padded, Some mask)
      /\ reshape_to_window padded 3 = Ok windows
      /\ shape windows = [Z.to_nat (ceil_div (Z.of_nat 5) 3); Z.to_nat 3]
      /\ mask = repeat true 5 ++ repeat false (length mask - 5)
      /\ np_compress mask (data windows)
         = Ok (map (fun x => x) [1; 2; 3; 4; 5]%float))
  /\ (exists padded mask windows,
         pad_to_window (fun x => x)
           {| shape := [2; 3]; data := [1; 2; 3; 4; 5; 6]%float |}
           2 0%float true
         = Ok (padded, Some mask)
         /\ reshape_to_window padded 2 = Ok windows
         /\ shape windows = [Z.to_nat (ceil_div (Z.of_nat 3) 2); 2; Z.to_nat 2]
         /\ mask = repeat true 3 ++ repeat false (length mask - 3)
         /\ crop_rows mask (chunks 2 (length mask) (data windows))
            = Ok (chunks 2 3 (map (fun x => x) [1; 2; 3; 4; 5; 6]%float))).
Proof.
  split.
  - apply (proj1 (@pad_then_reshape_round_trip float (fun x => x)
                    {| shape := [5]; data := [1; 2; 3; 4; 5]%float |}
                    3%Z 0%float ltac:(lia) eq_refl) 5 eq_refl).
    + lia.
    + unfold float64_exact. cbn. lia.
  - apply (proj2 (@pad_then_reshape_round_trip float (fun x => x)
                    {| shape := [2; 3]; data := [1; 2; 3; 4; 5; 6]%float |}
                    2%Z 0%float ltac:(lia) eq_refl) 2 3 eq_refl).
    + lia.
    + lia.
    + unfold float64_exact. cbn. lia.
    + unfold float64_fits. cbn. lia.
Defined.

(** For an array with one or two dimensions, [pad_to_window] raises a
    ZeroDivisionError when the window size is zero; and
    [reshape_to_window] raises for an array with two dimensions and no
    row, although its width is a multiple of the window size. *)
Lemma windowing_fails_within_preconditions :
  ndim {| shape := [3]; data := [1; 2; 3]%float |} = 1
  /\ pad_to_window (fun x => x)
       {| shape := [3]; data := [1; 2; 3]%float |} 0 0%float true
     = Raise ZeroDivisionError
  /\ ndim {| shape := [0; 3]; data := @nil float |} = 2
  /\ (3 | Z.of_nat 3)%Z
  /\ reshape_to_window {| shape := [0; 3]; data := @nil float |} 3
     = Raise ValueError.
Proof.
  repeat split. exists 1%Z. reflexivity.
Qed.

(** C9 (as the code has it).  [pad_to_window] and [reshape_to_window]
    raise a ValueError for an array with neither one nor two dimensions;
    [reshape_to_window] raises a ValueError when the width is not a
    multiple of the window size (a window size that fits a machine
    integer).  For a window size [k] of at least one, [pad_to_window]
    returns for every array with one or two dimensions of a width [W]
    with [W + k <= 2^53] (and, for two dimensions, a padded array below
    numpy's limit on the size in bytes), and [reshape_to_window] returns
    for every array that is not empty, with one dimension, or with two
    dimensions and at least one row, whose width is a multiple of the
    window size. *)
Theorem windowing_errors :
  forall (A : Type) (as_float64 : A -> float) (arr : ndarray A) (k : Z)
         (padval : float) (rm : bool),
    (ndim arr <> 1 -> ndim arr <> 2 ->
     pad_to_window as_float64 arr k padval rm = Raise ValueError
     /\ reshape_to_window arr k = Raise ValueError)
    /\ (forall width,
          shape arr = [width] \/ (exists height, shape arr = [height; width]) ->
          (Z.abs k < 2 ^ 63)%Z ->
          ~ (k | Z.of_nat width)%Z ->
          reshape_to_window arr k = Raise ValueError)
    /\ ((1 <= k)%Z ->
        forall width,
          shape arr = [width]
          \/ (exists height, shape arr = [height; width]
                             /\ float64_fits height width k) ->
          float64_exact width k ->
          exists r, pad_to_window as_float64 arr k padval rm = Ok r)
    /\ ((1 <= k)%Z ->
        forall width,
          1 <= width ->
          shape arr = [width]
          \/ (exists height, 1 <= height /\ shape arr = [height; width]) ->
          (k | Z.of_nat width)%Z ->
          exists r, reshape_to_window arr k = Ok r).
Proof.
  intros A as_float64 [sh cells] k padval rm. unfold ndim. cbn [shape].
  split; [|split; [|split]].
  - intros H1 H2. split.
    + apply pad_to_window_bad_ndim; assumption.
    + apply reshape_to_window_bad_ndim; assumption.
  - intros width [-> | [height ->]] _ Hdiv.
    + apply reshape_to_window_1d_rejects. exact Hdiv.
    + apply reshape_to_window_2d_rejects. exact Hdiv.
  - intros Hk width [-> | (height & -> & _)] _.
    + eexists. apply pad_to_window_1d. exact Hk.
    + eexists. apply pad_to_window_2d. exact Hk.
  - intros Hk width _ [-> | (height & Hh & ->)] Hdiv.
    + eexists. apply reshape_to_window_1d; assumption.
    + eexists. apply reshape_to_window_2d; assumption.
Qed.

Lemma windowing_errors_witness :
  (pad_to_window (fun x => x)
     {| shape := [1; 1; 1]; data := [7%float] |} 2 0%float true
   = Raise ValueError
   /\ reshape_to_window {| shape := [1; 1; 1]; data := [7%float] |} 2
      = Raise ValueError)
  /\ reshape_to_window {| shape := [3]; data := [1; 2; 3]%float |} 2
     = Raise ValueError
  /\ (exists r, pad_to_window (fun x => x)
                  {| shape := [3]; data := [1; 2; 3]%float |} 2 0%float true
                = Ok r)
  /\ (exists r, reshape_to_window
                  {| shape := [2; 2]; data := [1; 2; 3; 4]%float |} 2
                = Ok r).
Proof.
  split; [|split; [|split]].
  - apply (proj1 (@windowing_errors float (fun x => x)
                    {| shape := [1; 1; 1]; data := [7%float] |}
                    2 0%float true));
      cbn; lia.
  - apply (proj1 (proj2 (@windowing_errors float (fun x => x)
                           {| shape := [3]; data := [1; 2; 3]%float |}
                           2 0%float true))
                 3).
    + left. reflexivity.
    + cbn. lia.
    + intros [q Hq]. cbn in Hq. lia.
  - apply (proj1 (proj2 (proj2 (@windowing_errors float (fun x => x)
                                  {| shape := [3]; data := [1; 2; 3]%float |}
                                  2 0%float true)))
                 ltac:(lia) 3).
    + left. reflexivity.
    + unfold float64_exact. cbn. lia.
  - apply (proj2 (proj2 (proj2 (@windowing_errors float (fun x => x)
                                  {| shape := [2; 2];
                                     data := [1; 2; 3; 4]%float |}
                                  2 0%float true)))
                 ltac:(lia) 2).
    + lia.
    + right. exists 2. split; [lia | reflexivity].
    + exists 1%Z. reflexivity.
Defined.

(* ================================================================== *)
(** * Further properties *)
(* ================================================================== *)

(** ** The words of the assembled pattern *)

Module PatternFacts.
Import Regex.

Lemma matches_eps_inv m : matches Eps m -> m = [].
Proof. inversion 1. reflexivity. Qed.

Lemma matches_chr_inv c m : matches (Chr c) m -> m = [c].
Proof. inversion 1. reflexivity. Qed.

Lemma matches_cat_inv r1 r2 m :
  matches (Cat r1 r2) m ->
  exists m1 m2, m = m1 ++ m2 /\ matches r1 m1 /\ matches r2 m2.
Proof. inversion 1; subst. eauto. Qed.

Lemma matches_star_any_free m :
  matches (Star Any) m -> line_feed_free m = true.
Proof.
  intros H. remember (Star Any) as r eqn:Hr.
  induction H as [| | | | | | r0 | r0 s1 s2 H1 _ H2 IH2]; try discriminate.
  - reflexivity.
  - injection Hr as ->. inversion H1 as [| |a Ha| | | | |]; subst.
    unfold line_feed_free in *. cbn [app forallb].
    rewrite Ha. cbn. apply IH2. reflexivity.
Qed.

Lemma line_feed_free_matches m :
  line_feed_free m = true -> matches (Star Any) m.
Proof.
  induction m as [|a m IH]; intros H.
  - constructor.
  - unfold line_feed_free in H. cbn [forallb] in H.
    apply andb_true_iff in H as [Ha Hm]. apply negb_true_iff in Ha.
    change (a :: m) with ([a] ++ m).
    constructor; [constructor; exact Ha | apply IH; exact Hm].
Qed.

Lemma matches_star_app r a b :
  matches (Star r) a -> matches (Star r) b -> matches (Star r) (a ++ b).
Proof.
  intros Ha Hb. remember (Star r) as sr eqn:Hr.
  induction Ha as [| | | | | | r0 | r0 s1 s2 H1 _ H2 IH2]; try discriminate.
  - exact Hb.
  - injection Hr as ->. rewrite <- app_assoc.
    constructor; [exact H1 | apply IH2; auto].
Qed.

(** The sequence of the items [rs], as [close_seq] builds it from the
    items read, most recent first. *)
Lemma close_seq_rev items :
  close_seq items = fold_right Cat Eps (rev items).
Proof.
  unfold close_seq.
  assert (H : forall acc, fold_left (fun acc r => Cat r acc) items acc
                          = fold_right Cat acc (rev items)).
  { induction items as [|r items IH]; intros acc; cbn [fold_left rev].
    - reflexivity.
    - rewrite IH, fold_right_app. reflexivity. }
  apply H.
Qed.

Lemma matches_literal (lit : list ascii) rest m :
  matches (fold_right Cat rest (map Chr lit)) m
  <-> exists m', m = lit ++ m' /\ matches rest m'.
Proof.
  revert m. induction lit as [|c lit IH]; intros m; cbn [map fold_right app].
  - split; [eauto | intros (m' & -> & H); exact H].
  - split.
    + intros H. apply matches_cat_inv in H as (m1 & m2 & -> & H1 & H2).
      apply matches_chr_inv in H1 as ->. apply IH in H2 as (m' & -> & H').
      exists m'. auto.
    + intros (m' & -> & H'). change (c :: lit ++ m') with ([c] ++ (lit ++ m')).
      constructor; [constructor | apply IH; eauto].
Qed.

Lemma plain_patterns_compile_framed from_ to_ :
  plain from_ = true -> plain to_ = true ->
  compile (((".*" ++ from_) ++ to_) ++ ".*")%string
  = Pattern (framed (list_ascii_of_string (from_ ++ to_))).
Proof.
  unfold plain, compile. intros Hfrom Hto.
  rewrite !RegexFacts.chars_app, !fold_left_app.
  change (fold_left feed (list_ascii_of_string ".*") (Parsing empty_frame [] false))
    with (Parsing {| done_alts := []; cur_items := [Star Any];
                     last_quantified := true |} [] false).
  rewrite (RegexFacts.feed_plain_chars _ Hfrom),
          (RegexFacts.feed_plain_chars _ Hto).
  cbn [done_alts cur_items]. cbn [list_ascii_of_string fold_left].
  unfold feed at 2. cbn [Ascii.eqb Bool.eqb andb orb is_quantifier].
  match goal with
  | |- finish (feed ?st "*"%char) = _ => set (state := st)
  end.
  cbv [state feed]. cbn [Ascii.eqb Bool.eqb andb orb is_quantifier
                         cur_items push_item last_quantified done_alts quantify].
  unfold finish, close_frame. cbn [done_alts cur_items fold_left].
  rewrite close_seq_rev. cbn [rev]. rewrite !rev_app_distr, !rev_involutive.
  cbn [rev app]. unfold framed.
  rewrite <- ?app_assoc. cbn [app fold_right].
  rewrite map_app, app_assoc, fold_right_app. reflexivity.
Qed.

Lemma matches_framed lit m :
  matches (framed lit) m
  <-> exists a b, m = a ++ lit ++ b
                  /\ line_feed_free a = true /\ line_feed_free b = true.
Proof.
  unfold framed. split.
  - intros H. apply matches_cat_inv in H as (a & m2 & -> & Ha & H2).
    apply matches_literal in H2 as (m' & -> & H').
    apply matches_cat_inv in H' as (b & e & -> & Hb & He).
    apply matches_eps_inv in He as ->. rewrite app_nil_r.
    exists a, b. repeat split; auto using matches_star_any_free.
  - intros (a & b & -> & Ha & Hb).
    constructor; [apply line_feed_free_matches; exact Ha|].
    apply matches_literal. exists b. split; [reflexivity|].
    rewrite <- (app_nil_r b).
    constructor; [apply line_feed_free_matches; exact Hb | constructor].
Qed.

End PatternFacts.

(** ** check_trigger: when it fires, and what firing does *)

Section StringFacts.

Lemma string_of_chars_app (a b : list ascii) :
  string_of_list_ascii (a ++ b)
  = (string_of_list_ascii a ++ string_of_list_ascii b)%string.
Proof. induction a as [|c a IH]; cbn; congruence. Qed.

Lemma append_empty_r (s : string) : (s ++ "")%string = s.
Proof. induction s as [|c s IH]; cbn; congruence. Qed.

Lemma append_assoc (a b c : string) :
  ((a ++ b) ++ c)%string = (a ++ (b ++ c))%string.
Proof. induction a as [|x a IH]; cbn; congruence. Qed.

Lemma length_append (a b : string) :
  String.length (a ++ b) = String.length a + String.length b.
Proof. induction a as [|x a IH]; cbn; congruence. Qed.

(** [''.join(a + b) == ''.join(a) + ''.join(b)] *)
Lemma join_app (a b : list string) :
  String.concat "" (a ++ b)
  = (String.concat "" a ++ String.concat "" b)%string.
Proof.
  induction a as [|x a IH]; cbn [app].
  - reflexivity.
  - destruct a as [|y a].
    + cbn [app String.concat]. destruct b as [|z b].
      * cbn. rewrite append_empty_r. reflexivity.
      * reflexivity.
    + change (String.concat "" (x :: (y :: a) ++ b))
        with (x ++ String.concat "" ((y :: a) ++ b))%string.
      rewrite IH.
      change (String.concat "" (x :: y :: a))
        with (x ++ String.concat "" (y :: a))%string.
      rewrite append_assoc. reflexivity.
Qed.

Lemma join_cons (x : string) (l : list string) :
  String.concat "" (x :: l) = (x ++ String.concat "" l)%string.
Proof. exact (join_app [x] l). Qed.

(** A stream of non-empty symbols has at most as many symbols as
    characters. *)
Lemma join_length_symbols (l : list string) :
  Forall (fun x => x <> ""%string) l ->
  length l <= String.length (String.concat "" l).
Proof.
  induction 1 as [|x l Hx _ IH].
  - cbn. lia.
  - rewrite join_cons, length_append. cbn [length].
    destruct x as [|c x]; [contradiction|]. cbn. lia.
Qed.

End StringFacts.

Lemma search_some_iff r s :
  (exists m, Regex.search r s = Some m)
  <-> exists p m q, list_ascii_of_string s = p ++ m ++ q /\ matches r m.
Proof.
  unfold Regex.search.
  pose proof (RegexFacts.search_from_finds r (list_ascii_of_string s) 0) as H.
  destruct (Regex.search_from r 0 _) as [[b e]|]; split.
  - intros _. apply H. discriminate.
  - intros _. eauto.
  - intros [m Hm]. discriminate.
  - intros Hex. apply H in Hex. contradiction.
Qed.

(** X1.  For "from" and "to" without special characters,
    [check_trigger] returns an index, which is not negative exactly when
    the joined stream contains the characters of "from" immediately
    followed by those of "to", and NOT_TRIGGERED otherwise. *)
Theorem check_trigger_fires_on_factor (from_ to_ : string) (w : world) :
  plain from_ = true -> plain to_ = true ->
  exists i,
    fst (check_trigger (transition from_ to_) w) = Returned i
    /\ (i = NOT_TRIGGERED \/ (0 <= i)%Z)
    /\ ((0 <= i)%Z
        <-> exists p q, joined w = (p ++ (from_ ++ to_) ++ q)%string).
Proof.
  intros Hfrom Hto.
  unfold check_trigger, stream_regex.
  cbn [transition from_seg to_seg callback str_add bind].
  rewrite (PatternFacts.plain_patterns_compile_framed from_ to_ Hfrom Hto).
  fold (joined w).
  pose proof (search_some_iff
                (framed (list_ascii_of_string (from_ ++ to_))) (joined w))
    as Hfind.
  assert (Hfactor :
            (exists p m q,
                list_ascii_of_string (joined w) = p ++ m ++ q
                /\ matches (framed (list_ascii_of_string (from_ ++ to_))) m)
            <-> exists p q, joined w = (p ++ (from_ ++ to_) ++ q)%string).
  { split.
    - intros (p & m & q & Hs & Hm).
      apply PatternFacts.matches_framed in Hm as (a & b & -> & _ & _).
      exists (string_of_list_ascii (p ++ a)), (string_of_list_ascii (b ++ q)).
      rewrite <- (string_of_list_ascii_of_string (joined w)), Hs.
      rewrite <- (string_of_list_ascii_of_string (from_ ++ to_)) at 2.
      rewrite <- !string_of_chars_app. f_equal.
      rewrite <- !app_assoc. reflexivity.
    - intros (p & q & Hs).
      exists (list_ascii_of_string p), (list_ascii_of_string (from_ ++ to_)),
             (list_ascii_of_string q).
      split.
      + rewrite Hs, !RegexFacts.chars_app. reflexivity.
      + apply PatternFacts.matches_framed. exists [], [].
        rewrite app_nil_r. auto. }
  destruct (Regex.search _ (joined w)) as [m|] eqn:E; cbn [fst].
  - exists (Regex.m_end m). pose proof (search_end_nonneg _ _ E) as Hm.
    split; [reflexivity|]. split; [right; lia|].
    split; [intros _|intros _; lia].
    apply Hfactor, Hfind. eauto.
  - exists NOT_TRIGGERED. split; [reflexivity|]. split; [left; reflexivity|].
    split; [unfold NOT_TRIGGERED; lia|].
    intros Hex. apply Hfactor, Hfind in Hex as [m Hm]. discriminate.
Qed.

Lemma check_trigger_fires_on_factor_witness :
  exists i,
    fst (check_trigger (transition "in" "tro") (world_of ["i"; "n"; "t"; "r"; "o"]))
    = Returned i
    /\ (i = NOT_TRIGGERED \/ (0 <= i)%Z)
    /\ ((0 <= i)%Z
        <-> exists p q, joined (world_of ["i"; "n"; "t"; "r"; "o"])
                        = (p ++ ("in" ++ "tro") ++ q)%string).
Proof.
  apply (check_trigger_fires_on_factor "in" "tro"
           (world_of ["i"; "n"; "t"; "r"; "o"])); reflexivity.
Defined.

(** X2.  For a trigger whose pattern lies in the modelled fragment of
    regular expressions (literal characters, [.], [*], [+], [?], [|],
    groups and escaped punctuation; no anchors, classes, look-arounds
    or back-references), a trigger that fires keeps firing: when
    [check_trigger] returns a match index on a stream, it returns a
    match index on every stream that extends it, since each call
    searches the whole stream again. *)
Theorem check_trigger_fires_again (self : TransitionTrigger) (w : world)
        (more : list string) (out : list text) (pattern : string)
        (r : Regex.regex) (i : Z) :
  stream_regex self = Ok pattern ->
  Regex.compile pattern = Regex.Pattern r ->
  fst (check_trigger self w) = Returned i -> i <> NOT_TRIGGERED ->
  exists j,
    fst (check_trigger self {| cur_stream := cur_stream w ++ more;
                               stdout := out |}) = Returned j
    /\ (0 <= j)%Z.
Proof.
  intros Hp Hc. unfold check_trigger. cbn [cur_stream]. rewrite Hp, Hc.
  destruct (Regex.search r (String.concat "" (cur_stream w))) as [m|] eqn:E;
    cbn [fst].
  - intros _ _.
    assert (Hex : exists m', Regex.search r (String.concat ""
                                              (cur_stream w ++ more))
                             = Some m').
    { apply search_some_iff.
      destruct (proj1 (search_some_iff r _) (ex_intro _ m E))
        as (p & m0 & q & Hs & Hm).
      exists p, m0, (q ++ list_ascii_of_string (String.concat "" more)).
      split; [|exact Hm].
      rewrite join_app, RegexFacts.chars_app, Hs, <- !app_assoc.
      reflexivity. }
    destruct Hex as [m' Hm']. rewrite Hm'. cbn [fst].
    exists (Regex.m_end m'). split; [reflexivity|].
    pose proof (search_end_nonneg _ _ Hm'). lia.
  - intros [= <-] Hne. contradiction.
Qed.

Lemma check_trigger_fires_again_witness :
  exists j,
    fst (check_trigger (transition "A" "B")
           {| cur_stream := cur_stream (world_of ["A"; "B"]) ++ ["C"; "D"];
              stdout := [] |}) = Returned j
    /\ (0 <= j)%Z.
Proof.
  apply (@check_trigger_fires_again (transition "A" "B") (world_of ["A"; "B"])
           ["C"; "D"] [] ".*AB.*" (framed (list_ascii_of_string "AB")) 2).
  - reflexivity.
  - reflexivity.
  - vm_compute. reflexivity.
  - discriminate.
Defined.

(** X3.  What a call of [check_trigger] does to the world, for every
    trigger and whatever the regex package does with its pattern (a match
    ending at a position that is not negative): the stream is never
    changed; one notice is printed when a match index is returned, and
    nothing is printed when NOT_TRIGGERED is returned or when the call
    raises. *)
Theorem check_trigger_effects (re_search : searcher)
        (self : TransitionTrigger) (w : world) :
  ends_not_negative re_search ->
  cur_stream (snd (check_trigger_with re_search self w)) = cur_stream w
  /\ match fst (check_trigger_with re_search self w) with
     | Ok i =>
         if (i =? NOT_TRIGGERED)%Z
         then stdout (snd (check_trigger_with re_search self w)) = stdout w
         else exists notice,
             stdout (snd (check_trigger_with re_search self w))
             = stdout w ++ [notice]
     | Raise _ =>
         stdout (snd (check_trigger_with re_search self w)) = stdout w
     end.
Proof.
  intros Hends. unfold check_trigger_with.
  destruct (stream_regex self) as [pattern|]; [|cbn; auto].
  destruct (re_search pattern _) as [[m|]|] eqn:E; cbn [fst snd].
  - apply Hends in E.
    destruct (Z.eqb_spec (Regex.m_end m) NOT_TRIGGERED) as [Heq|_];
      [unfold NOT_TRIGGERED in Heq; lia|].
    destruct (callback self). cbn. split; [reflexivity|]. eauto.
  - cbn. auto.
  - auto.
Qed.

Lemma check_trigger_effects_witness :
  cur_stream (snd (check_trigger_with within_fragment (transition "A" "B")
                     (world_of ["A"; "B"])))
  = cur_stream (world_of ["A"; "B"])
  /\ match fst (check_trigger_with within_fragment (transition "A" "B")
                  (world_of ["A"; "B"])) with
     | Ok i =>
         if (i =? NOT_TRIGGERED)%Z
         then stdout (snd (check_trigger_with within_fragment
                             (transition "A" "B") (world_of ["A"; "B"])))
              = stdout (world_of ["A"; "B"])
         else exists notice,
             stdout (snd (check_trigger_with within_fragment
                            (transition "A" "B") (world_of ["A"; "B"])))
             = stdout (world_of ["A"; "B"]) ++ [notice]
     | Raise _ =>
         stdout (snd (check_trigger_with within_fragment
                        (transition "A" "B") (world_of ["A"; "B"])))
         = stdout (world_of ["A"; "B"])
     end.
Proof.
  apply (@check_trigger_effects within_fragment (transition "A" "B")
           (world_of ["A"; "B"])).
  exact within_fragment_ends.
Defined.

(** ** check_trigger with print_to_screen *)

Lemma search_from_greedy_head r' s :
  line_feed_free s = true ->
  forall b e,
    Regex.search_from (Regex.Cat (Regex.Star Regex.Any) r') 0 s = Some (b, e) ->
    b = 0.
Proof.
  intros Hlf b e. destruct s as [|a s]; cbn [Regex.search_from].
  - destruct (Regex.run _ [] _); [|discriminate]. intros [= <- _]. reflexivity.
  - destruct (Regex.run _ (a :: s) _) as [rest|] eqn:E.
    + intros [= <- _]. reflexivity.
    + intros H. exfalso.
      assert (Hsome : Regex.search_from (Regex.Cat (Regex.Star Regex.Any) r')
                                        1 s <> None) by congruence.
      apply RegexFacts.search_from_finds in Hsome as (p & m & q & Hs & Hm).
      apply PatternFacts.matches_cat_inv in Hm as (m1 & m2 & -> & H1 & H2).
      subst s. unfold line_feed_free in Hlf.
      change (a :: p ++ (m1 ++ m2) ++ q) with ((a :: p) ++ (m1 ++ m2) ++ q)
        in Hlf.
      rewrite forallb_app in Hlf. apply andb_true_iff in Hlf as [Hp _].
      assert (Hm' : matches (Regex.Cat (Regex.Star Regex.Any) r')
                            (((a :: p) ++ m1) ++ m2)).
      { constructor; [|exact H2].
        apply PatternFacts.matches_star_app; [|exact H1].
        apply PatternFacts.line_feed_free_matches. exact Hp. }
      destruct (@RegexFacts.run_complete _ _ Hm' q (fun rest => Some rest) q
                                         eq_refl) as (e' & He').
      rewrite <- !app_assoc in He'. cbn [app] in He'.
      rewrite <- !app_assoc in E. congruence.
Qed.

(** X4.  For "from" and "to" without special characters and a stream of
    non-empty symbols without line feed: when [check_trigger] fires, the
    match it hands to [print_to_screen] spans the whole joined stream,
    and the one notice printed shows every symbol of the stream, not the
    ten before and after the transition, and announces the length of
    the stream minus ten as not printed. *)
Theorem check_trigger_prints_whole_stream
        (from_ to_ : string) (w : world) (i : Z) :
  plain from_ = true -> plain to_ = true ->
  no_line_feed (joined w) = true ->
  Forall (fun x => x <> ""%string) (cur_stream w) ->
  fst (check_trigger (transition from_ to_) w) = Returned i ->
  i <> NOT_TRIGGERED ->
  snd (check_trigger (transition from_ to_) w)
  = {| cur_stream := cur_stream w;
       stdout := stdout w ++
         [[Lit "Trigger: "; Fmt (VStr from_); Lit " -> "; Fmt (VStr to_);
           Lit (" was triggered! State:" ++ NL ++ TAB ++ "        ...")%string;
           Fmt (VStr (String.concat "-" (cur_stream w)));
           Lit (NL ++ TAB ++ "        (")%string;
           Fmt (VInt (Z.of_nat (length (cur_stream w)) - 10));
           Lit " segments not printed)."]] |}.
Proof.
  intros Hfrom Hto Hlf Hsym.
  pose proof (join_length_symbols Hsym) as Hlen.
  unfold check_trigger, stream_regex.
  cbn [transition from_seg to_seg callback str_add bind].
  rewrite (PatternFacts.plain_patterns_compile_framed from_ to_ Hfrom Hto).
  unfold Regex.search.
  destruct (Regex.search_from _ 0 _) as [[b e]|] eqn:E; cbn [fst snd].
  - intros _ _.
    pose proof (@search_from_greedy_head _ _ Hlf b e E) as ->.
    assert (He : e = String.length (String.concat "" (cur_stream w))).
    { assert (Hg : greedy_tail (framed (list_ascii_of_string (from_ ++ to_)))
                   = true).
      { destruct (RegexFacts.plain_patterns_compile from_ to_ Hfrom Hto)
          as (r & Hc & Hg).
        rewrite (PatternFacts.plain_patterns_compile_framed from_ to_ Hfrom Hto)
          in Hc.
        injection Hc as <-. exact Hg. }
      rewrite (@RegexFacts.search_from_runs_to_end _ Hg _ 0 0 e Hlf E).
      apply RegexFacts.string_length_chars. }
    unfold call, print_to_screen, trigger_str, transition.
    cbn [Regex.m_start Regex.m_end cur_stream stdout from_seg to_seg app].
    f_equal. f_equal. f_equal. f_equal. f_equal. f_equal. f_equal. f_equal.
    f_equal. f_equal. f_equal.
    unfold py_slice, clamp_index.
    set (n := Z.of_nat (length (cur_stream w))).
    replace (Z.max 0 (Z.of_nat 0 - 10)) with 0%Z by lia.
    replace (Z.min n (Z.of_nat e + 10)) with n by lia.
    cbn [Z.ltb Z.compare]. 
    destruct (Z.ltb_spec n 0); [lia|].
    rewrite !Z.min_id, Z.min_l by lia.
    rewrite Z.sub_0_r. unfold n. rewrite Nat2Z.id. cbn [Z.to_nat skipn].
    rewrite firstn_all. reflexivity.
  - intros [= <-] Hne. contradiction.
Qed.

Lemma check_trigger_prints_whole_stream_witness :
  snd (check_trigger (transition "A" "B") (world_of ["A"; "B"; "C"]))
  = {| cur_stream := cur_stream (world_of ["A"; "B"; "C"]);
       stdout := stdout (world_of ["A"; "B"; "C"]) ++
         [[Lit "Trigger: "; Fmt (VStr "A"); Lit " -> "; Fmt (VStr "B");
           Lit (" was triggered! State:" ++ NL ++ TAB ++ "        ...")%string;
           Fmt (VStr (String.concat "-" (cur_stream (world_of ["A"; "B"; "C"]))));
           Lit (NL ++ TAB ++ "        (")%string;
           Fmt (VInt (Z.of_nat (length (cur_stream (world_of ["A"; "B"; "C"])))
                      - 10));
           Lit " segments not printed)."]] |}.
Proof.
  apply (@check_trigger_prints_whole_stream "A" "B"
           (world_of ["A"; "B"; "C"]) 3).
  - reflexivity.
  - reflexivity.
  - reflexivity.
  - repeat constructor; discriminate.
  - vm_compute. reflexivity.
  - discriminate.
Defined.

(** ** The loader: what it accepts and how it fails *)

(** X5.  The loader does not look at the values of "from" and "to": a
    transition whose "from" is not a string is loaded, and the trigger
    constructed from it raises a TypeError every time it is checked,
    without printing. *)
Theorem loader_accepts_non_string_pattern (v : value) (to_ : string) :
  is_str v = false ->
  let t := {| callback := PrintToScreen; from_seg := v; to_seg := VStr to_ |} in
  json_path_to_trigger_list
    (config_of [transition_entry [("from", v); ("to", VStr to_)]])
  = {| outcome := Ok [t]; constructed := [t] |}
  /\ forall w, check_trigger t w = (Raised TypeError, w).
Proof.
  intros Hv t. split; [reflexivity|].
  intros w. unfold check_trigger, stream_regex. cbn [from_seg t bind].
  destruct v; try discriminate; reflexivity.
Qed.

Lemma loader_accepts_non_string_pattern_witness :
  let t := {| callback := PrintToScreen; from_seg := VInt 5;
              to_seg := VStr "B" |} in
  json_path_to_trigger_list
    (config_of [transition_entry [("from", VInt 5); ("to", VStr "B")]])
  = {| outcome := Ok [t]; constructed := [t] |}
  /\ forall w, check_trigger t w = (Raised TypeError, w).
Proof.
  apply (loader_accepts_non_string_pattern (VInt 5) "B"). reflexivity.
Defined.

Lemma in_trigger_types ty :
  in_str_list ty TRIGGER_TYPES = true -> ty = VStr "transition".
Proof.
  destruct ty; cbn; try discriminate.
  rewrite orb_false_r. intros H. apply String.eqb_eq in H. congruence.
Qed.

(** An entry that passes the validation loop is an object of type
    "transition" with the name of a registered action as callback. *)
Lemma validate_entry_ok e :
  validate_entry e = Ok tt ->
  exists fields name f,
    e = VDict fields
    /\ dict_get "type" fields = Some (VStr "transition")
    /\ dict_get "callback" fields = Some (VStr name)
    /\ actions_get name AVAILABLE_ACTIONS = Some f.
Proof.
  destruct e as [| | | |s|items|fields];
    try solve [cbn; discriminate
              | unfold validate_entry, py_in, py_getitem, bind;
                repeat (case_match; try discriminate)].
  unfold validate_entry, in_actions, actions_lookup, py_in, py_getitem,
    dict_has, bind.
  destruct (dict_get "type" fields) as [ty|] eqn:Hty; [|discriminate].
  cbv beta iota. cbn [negb].
  destruct (in_str_list ty TRIGGER_TYPES) eqn:Hin; [|discriminate].
  cbn [negb]. apply in_trigger_types in Hin. subst ty.
  destruct (dict_get "callback" fields) as [cb|] eqn:Hcb; [|discriminate].
  cbv beta iota. cbn [negb].
  destruct cb as [| | | |name| |]; try discriminate.
  destruct (actions_get name AVAILABLE_ACTIONS) as [f|] eqn:Hf;
    [|discriminate].
  intros _. exists fields, name, f. auto.
Qed.

(** After the validation, the construction of an entry can only fail
    with a KeyError, for a missing "from" or "to". *)
Lemma build_entry_after_validation e :
  validate_entry e = Ok tt ->
  (valid_entry e = true /\ exists t, build_entry e = Ok (Some t))
  \/ (build_entry e = Raise KeyError
      /\ (transition_missing "from" e \/ transition_missing "to" e)).
Proof.
  intros H.
  destruct (validate_entry_ok e H) as (fields & name & f & -> & Hty & Hcb & Hf).
  unfold valid_entry, build_entry, actions_getitem, actions_lookup,
    py_getitem, bind.
  rewrite Hty, Hcb. cbv beta iota. rewrite Hf.
  change (eq_str (VStr "transition") "transition") with true. cbv iota.
  destruct (dict_get "from" fields) as [from_|] eqn:Hfrom.
  - destruct (dict_get "to" fields) as [to_|] eqn:Hto.
    + left. split; [reflexivity | eauto].
    + right. split; [reflexivity|]. right. exists fields. auto.
  - right. split; [reflexivity|]. left. exists fields. auto.
Qed.

Lemma build_all_after_validation entries :
  validate_all entries = Ok tt ->
  forall acc,
    (forallb valid_entry entries = true
     /\ exists tl, build_all entries acc = (Ok tl, tl))
    \/ (fst (build_all entries acc) = Raise KeyError
        /\ exists e, In e entries
                     /\ (transition_missing "from" e
                         \/ transition_missing "to" e)).
Proof.
  induction entries as [|e rest IH]; cbn [validate_all build_all forallb].
  - intros _ acc. left. eauto.
  - unfold bind at 1. destruct (validate_entry e) as [[]|] eqn:He;
      [|discriminate].
    intros Hrest acc.
    destruct (build_entry_after_validation e He)
      as [(Hv & t & Ht) | (Hraise & Hmiss)].
    + rewrite Ht, Hv. cbn [andb].
      destruct (IH Hrest (acc ++ [t])) as [(Hall & tl & Htl) | (Hr & e' & Hin & Hm)].
      * left. eauto.
      * right. split; [exact Hr|]. exists e'. split; [right; exact Hin | exact Hm].
    + rewrite Hraise. right. split; [reflexivity|].
      exists e. split; [left; reflexivity | exact Hmiss].
Qed.

(** The keys of an object and the characters of a string, as entries,
    never pass the validation. *)
Lemma validate_all_strings (l : list string) :
  validate_all (map VStr l) = Ok tt -> l = [].
Proof.
  destruct l as [|s l]; [reflexivity|].
  cbn [map validate_all]. unfold bind at 1.
  destruct (validate_entry (VStr s)) as [[]|] eqn:E; [|discriminate].
  apply validate_entry_ok in E as (fields & _ & _ & H & _). discriminate.
Qed.

Lemma chars_of_strings s :
  chars_of s = map VStr (map (fun c => String c EmptyString)
                             (list_ascii_of_string s)).
Proof. induction s as [|c s IH]; cbn; congruence. Qed.

(** The two phases of the loader. *)
Lemma loader_phases cfg :
  json_path_to_trigger_list cfg
  = {| outcome := Raise TypeError; constructed := [] |}
  \/ exists fields v entries,
      cfg = VDict fields
      /\ dict_get "triggers" fields = Some v
      /\ py_iter v = Ok entries
      /\ validate_all entries = Ok tt
      /\ json_path_to_trigger_list cfg
         = {| outcome := fst (build_all entries []);
              constructed := snd (build_all entries []) |}.
Proof.
  unfold json_path_to_trigger_list, declared_entries.
  destruct cfg as [| | | |s|items|fields];
    try (left; reflexivity).
  - left. cbn [py_in py_getitem bind].
    destruct (str_contains "triggers" s); reflexivity.
  - left. cbn [py_in py_getitem bind].
    destruct (existsb _ items); reflexivity.
  - cbn [py_in py_getitem]. unfold dict_has.
    destruct (dict_get "triggers" fields) as [v|] eqn:Hget;
      [|left; reflexivity].
    cbn [bind negb].
    destruct (py_iter v) as [entries|x] eqn:Hiter.
    + cbn [bind]. destruct (validate_all entries) as [[]|x] eqn:Hval.
      * right. exists fields, v, entries.
        destruct (build_all entries []) as [r built]. auto 10.
      * left. rewrite (validate_all_raises _ Hval). reflexivity.
    + left. cbn [bind].
      destruct v; cbn in Hiter; try discriminate; injection Hiter as <-;
        reflexivity.
Qed.

(** X6.  The loader returns exactly on the documents that are an object
    whose "triggers" field is a list of entries of type "transition" with
    a registered callback, a "from" and a "to", or is an empty object or
    an empty string (for which the list returned is empty). *)
Theorem loader_accepts_exactly (cfg : value) :
  (exists trig_list,
      outcome (json_path_to_trigger_list cfg) = Ok trig_list)
  <-> accepted_document cfg.
Proof.
  split.
  - intros [tl Htl].
    destruct (loader_phases cfg)
      as [Hraise | (fields & v & entries & -> & Hget & Hiter & Hval & Hload)].
    + rewrite Hraise in Htl. discriminate.
    + rewrite Hload in Htl. cbn [outcome] in Htl.
      exists fields, v. split; [reflexivity|]. split; [exact Hget|].
      destruct v as [| | | |s|items|kv]; cbn in Hiter; try discriminate;
        injection Hiter as <-.
      * right. right. rewrite chars_of_strings in Hval.
        apply validate_all_strings in Hval.
        apply map_eq_nil in Hval.
        rewrite <- (string_of_list_ascii_of_string s), Hval. reflexivity.
      * left. exists items. split; [reflexivity|].
        destruct (build_all_after_validation items Hval [])
          as [(Hall & _) | (Hr & _)]; [exact Hall|].
        rewrite Hr in Htl. discriminate.
      * right. left.
        rewrite <- (map_map fst VStr) in Hval.
        apply validate_all_strings in Hval.
        apply map_eq_nil in Hval. subst kv. reflexivity.
  - intros (fields & v & -> & Hget & [(entries & -> & Hall) | [-> | ->]]).
    + destruct (build_all_valid entries Hall []) as (tl & Hbuild & _).
      exists tl.
      unfold json_path_to_trigger_list, declared_entries, py_in, py_getitem,
        py_iter, bind.
      rewrite (dict_has_true _ _ Hget), Hget. cbv beta iota.
      rewrite (validate_all_valid entries Hall), Hbuild. reflexivity.
    + exists [].
      unfold json_path_to_trigger_list, declared_entries, py_in, py_getitem,
        bind.
      rewrite (dict_has_true _ _ Hget), Hget. reflexivity.
    + exists [].
      unfold json_path_to_trigger_list, declared_entries, py_in, py_getitem,
        bind.
      rewrite (dict_has_true _ _ Hget), Hget. reflexivity.
Qed.

(** X7.  Once the file has been opened and parsed, the two ways in
    which the loader fails on the parsed document: with a TypeError,
    before any trigger is constructed; or with a KeyError, raised while
    the triggers are constructed, and then the document declares a list
    with an entry of type "transition" that has no "from" or no "to". *)
Theorem loader_failures (cfg : value) (e : exn) :
  outcome (json_path_to_trigger_list cfg) = Raise e ->
  (e = TypeError /\ constructed (json_path_to_trigger_list cfg) = [])
  \/ (e = KeyError
      /\ exists entries entry,
          declares cfg entries /\ In entry entries
          /\ (transition_missing "from" entry
              \/ transition_missing "to" entry)).
Proof.
  intros He.
  destruct (loader_phases cfg)
    as [Hraise | (fields & v & entries & -> & Hget & Hiter & Hval & Hload)].
  - rewrite Hraise in *. cbn in *. left. split; congruence.
  - rewrite Hload in He. cbn [outcome] in He.
    destruct (build_all_after_validation entries Hval [])
      as [(_ & tl & Htl) | (Hr & entry & Hin & Hmiss)].
    + rewrite Htl in He. discriminate.
    + right. rewrite Hr in He. split; [congruence|].
      assert (Hv : v = VList entries).
      { destruct v as [| | | |s|items|kv]; cbn in Hiter; try discriminate;
          injection Hiter as <-.
        - exfalso. rewrite chars_of_strings in Hval.
          apply validate_all_strings in Hval. rewrite chars_of_strings in Hin.
          rewrite Hval in Hin. contradiction.
        - reflexivity.
        - exfalso. rewrite <- (map_map fst VStr) in Hval.
          apply validate_all_strings in Hval.
          rewrite <- (map_map fst VStr), Hval in Hin. contradiction. }
      subst v. exists entries, entry.
      split; [exists fields; auto | auto].
Qed.

Lemma loader_failures_witness :
  (KeyError = TypeError
   /\ constructed (json_path_to_trigger_list config_second_lacks_from) = [])
  \/ (KeyError = KeyError
      /\ exists entries entry,
          declares config_second_lacks_from entries /\ In entry entries
          /\ (transition_missing "from" entry
              \/ transition_missing "to" entry)).
Proof.
  apply (@loader_failures config_second_lacks_from KeyError). reflexivity.
Defined.

Lemma check_trigger_not_triggered_witness :
  fst (check_trigger (transition "A" "B") (world_of ["A"; "C"; "B"]))
  = Returned NOT_TRIGGERED
  <-> ~ exists p m q,
          list_ascii_of_string (joined (world_of ["A"; "C"; "B"]))
          = p ++ m ++ q
          /\ matches (framed (list_ascii_of_string "AB")) m.
Proof.
  apply (@check_trigger_not_triggered
           (transition "A" "B") (world_of ["A"; "C"; "B"]) ".*AB.*"
           (framed (list_ascii_of_string "AB"))).
  - reflexivity.
  - reflexivity.
Defined.

Lemma loader_rejects_before_constructing_witness :
  json_path_to_trigger_list (VDict [("trigger", VList [])])
  = {| outcome := Raise TypeError; constructed := [] |}.
Proof.
  apply (@loader_rejects_before_constructing (VDict [("trigger", VList [])])).
  left. exists [("trigger", VList [])]. split; reflexivity.
Defined.

(** ** pad_to_window: the padded array, element by element *)

Section PaddingFacts.

Variable A : Type.

Lemma nth_padded_row (row : list A) (padval : A) (m j : nat) (d : A) :
  j < length row + m ->
  nth j (row ++ repeat padval m) d
  = if (j <? length row)%nat then nth j row d else padval.
Proof.
  intros Hj. destruct (Nat.ltb_spec j (length row)) as [Hlt|Hge].
  - apply app_nth1. exact Hlt.
  - rewrite app_nth2 by exact Hge.
    apply nth_repeat_lt. lia.
Qed.

Lemma nth_padding_mask (W T' j : nat) :
  W <= T' -> j < T' ->
  nth j (padding_mask_of W T') false = (j <? W)%nat.
Proof.
  intros HW Hj. unfold padding_mask_of. rewrite Nat.min_l by exact HW.
  destruct (Nat.ltb_spec j W) as [Hlt|Hge].
  - rewrite app_nth1 by (rewrite repeat_length; exact Hlt).
    apply nth_repeat_lt. exact Hlt.
  - rewrite app_nth2 by (rewrite repeat_length; exact Hge).
    rewrite repeat_length. apply nth_repeat_lt. lia.
Qed.

Lemma padded_width_tight (W : nat) (k : Z) :
  (1 <= k)%Z ->
  W <= padded_width W k < W + Z.to_nat k
  /\ (k | Z.of_nat (padded_width W k))%Z.
Proof.
  intros Hk. destruct (padded_width_spec W Hk) as (Hn & HT & Hle).
  assert (Hb : (Z.of_nat W <= ceil_div (Z.of_nat W) k * k < Z.of_nat W + k)%Z)
    by (apply ceil_div_bounds; lia).
  repeat split; [exact Hle | lia |].
  exists (ceil_div (Z.of_nat W) k). exact HT.
Qed.

Lemma concat_chunks n w (l : list A) :
  length l = n * w -> concat (chunks n w l) = l.
Proof.
  revert l. induction n as [|n IH]; intros l H; cbn [chunks concat].
  - destruct l; [reflexivity|discriminate].
  - rewrite IH by (rewrite length_skipn; lia). apply firstn_skipn.
Qed.

End PaddingFacts.

(** X8.  For a window size [k] of at least one and a width [W] with
    [W + k <= 2^53] (and, for two dimensions, a padded array below
    numpy's limit on the size in bytes), [pad_to_window] adds less than
    one window: the padded width is the least multiple of [k] that is
    not below the width.  The padded array holds the elements of the array, converted
    to float64, in its first columns and the pad value in the others,
    row by row, and the mask is true exactly on the first columns. *)
Theorem pad_to_window_elements :
  forall (A : Type) (as_float64 : A -> float) (k : Z) (padval : float),
    (1 <= k)%Z ->
    forall W : nat,
      float64_exact W k ->
      let T' := padded_width W k in
      (W <= T' < W + Z.to_nat k /\ (k | Z.of_nat T')%Z)
      /\ (forall cells : list A,
             length cells = W ->
             exists padded mask,
               pad_to_window as_float64 {| shape := [W]; data := cells |}
                             k padval true
               = Ok (padded, Some mask)
               /\ shape padded = [T']
               /\ length (data padded) = T'
               /\ length mask = T'
               /\ forall j d a, j < T' ->
                    nth j mask false = (j <? W)%nat
                    /\ nth j (data padded) d
                       = if (j <? W)%nat then as_float64 (nth j cells a)
                         else padval)
      /\ (forall (H : nat) (cells : list A),
             float64_fits H W k ->
             length cells = H * W ->
             exists padded mask,
               pad_to_window as_float64 {| shape := [H; W]; data := cells |}
                             k padval true
               = Ok (padded, Some mask)
               /\ shape padded = [H; T']
               /\ length (data padded) = H * T'
               /\ length mask = T'
               /\ forall i j d a, i < H -> j < T' ->
                    nth j mask false = (j <? W)%nat
                    /\ at2 padded i j d
                       = if (j <? W)%nat
                         then as_float64
                                (at2 {| shape := [H; W]; data := cells |}
                                     i j a)
                         else padval).
Proof.
  intros A as_float64 k padval Hk W _ T'.
  destruct (padded_width_tight W Hk) as ((Hle & Hlt) & Hdiv). fold T' in Hle, Hlt, Hdiv.
  assert (Hmask : length (padding_mask_of W T') = T').
  { unfold padding_mask_of. rewrite length_app, !repeat_length. lia. }
  split; [auto|]. split.
  - intros cells Hcells.
    set (fcells := map as_float64 cells).
    assert (Hf : length fcells = W) by (unfold fcells; rewrite length_map; exact Hcells).
    exists {| shape := [T']; data := fcells ++ repeat padval (T' - W) |},
           (padding_mask_of W T').
    split; [exact (pad_to_window_1d as_float64 W cells padval true Hk)|].
    cbn [shape data]. split; [reflexivity|].
    split; [rewrite length_app, repeat_length; lia|].
    split; [exact Hmask|].
    intros j d a Hj. split; [apply nth_padding_mask; assumption|].
    rewrite nth_padded_row by lia. rewrite Hf.
    destruct (Nat.ltb_spec j W) as [HjW|_]; [|reflexivity].
    apply nth_map_inside. lia.
  - intros H cells _ Hcells.
    set (fcells := map as_float64 cells).
    assert (Hf : length fcells = H * W) by (unfold fcells; rewrite length_map; exact Hcells).
    set (rows := map (fun row => row ++ repeat padval (T' - W))
                     (chunks H W fcells)).
    assert (Hrows : Forall (fun row => length row = T') rows).
    { apply Forall_forall. intros row Hin.
      apply in_map_iff in Hin as (row0 & <- & Hin0).
      pose proof (chunks_widths H W fcells Hf) as Hw.
      rewrite Forall_forall in Hw.
      rewrite length_app, repeat_length, (Hw row0 Hin0). lia. }
    exists {| shape := [H; T']; data := concat rows |},
           (padding_mask_of W T').
    split; [exact (pad_to_window_2d as_float64 H W cells padval true Hk)|].
    cbn [shape data]. split; [reflexivity|].
    split.
    { rewrite (concat_uniform_length Hrows). unfold rows.
      rewrite length_map, chunks_length. reflexivity. }
    split; [exact Hmask|].
    intros i j d a Hi Hj. split; [apply nth_padding_mask; assumption|].
    unfold at2. cbn [shape data].
    rewrite (nth_concat_uniform i d Hrows Hj). unfold rows.
    assert (Hrow : length (nth i (chunks H W fcells) []) = W).
    { pose proof (chunks_widths H W fcells Hf) as Hw.
      rewrite Forall_forall in Hw. apply Hw, nth_In.
      rewrite chunks_length. exact Hi. }
    rewrite (nth_indep _ [] ((fun row => row ++ repeat padval (T' - W)) []))
      by (rewrite length_map, chunks_length; exact Hi).
    rewrite (map_nth (fun row => row ++ repeat padval (T' - W))).
    rewrite nth_padded_row by lia. rewrite Hrow.
    destruct (Nat.ltb_spec j W) as [HjW|_]; [|reflexivity].
    rewrite (nth_chunks fcells d Hi HjW).
    apply nth_map_inside. nia.
Qed.

Lemma pad_to_window_elements_witness :
  let T' := padded_width 5 3 in
  (5 <= T' < 5 + Z.to_nat 3 /\ (3 | Z.of_nat T')%Z)
  /\ (forall cells : list float,
         length cells = 5 ->
         exists padded mask,
           pad_to_window (fun x => x) {| shape := [5]; data := cells |}
                         3 0%float true
           = Ok (padded, Some mask)
           /\ shape padded = [T']
           /\ length (data padded) = T'
           /\ length mask = T'
           /\ forall j d a, j < T' ->
                nth j mask false = (j <? 5)%nat
                /\ nth j (data padded) d
                   = if (j <? 5)%nat then nth j cells a else 0%float)
  /\ (forall (H : nat) (cells : list float),
         float64_fits H 5 3 ->
         length cells = H * 5 ->
         exists padded mask,
           pad_to_window (fun x => x) {| shape := [H; 5]; data := cells |}
                         3 0%float true
           = Ok (padded, Some mask)
           /\ shape padded = [H; T']
           /\ length (data padded) = H * T'
           /\ length mask = T'
           /\ forall i j d a, i < H -> j < T' ->
                nth j mask false = (j <? 5)%nat
                /\ at2 padded i j d
                   = if (j <? 5)%nat
                     then at2 {| shape := [H; 5]; data := cells |} i j a
                     else 0%float).
Proof.
  apply (@pad_to_window_elements float (fun x => x) 3%Z 0%float).
  - lia.
  - unfold float64_exact. cbn. lia.
Defined.

(** ** pad_to_window twice *)

Lemma padded_width_multiple (T : nat) (k : Z) :
  (1 <= k)%Z -> (k | Z.of_nat T)%Z -> padded_width T k = T.
Proof.
  intros Hk [q Hq]. unfold padded_width, ceil_div.
  rewrite Hq, <- Z.mul_opp_l, Z.div_mul by lia.
  rewrite Z.opp_involutive, <- Hq. apply Nat2Z.id.
Qed.

(** X9.  Padding is idempotent: [pad_to_window] applied to an array that
    it has padded (a float64 array, converted to itself), with the same
    window size, returns that array unchanged, whatever the pad value,
    with a mask that is true everywhere. *)
Theorem pad_to_window_idempotent :
  forall (A : Type) (as_float64 : A -> float) (arr : ndarray A)
         (padded : ndarray float) (k : Z) (padval padval' : float)
         (mask : list bool),
    (1 <= k)%Z -> well_shaped arr ->
    pad_to_window as_float64 arr k padval true = Ok (padded, Some mask) ->
    pad_to_window (fun x => x) padded k padval' true
    = Ok (padded, Some (repeat true (length mask))).
Proof.
  intros A as_float64 [sh cells] padded k padval padval' mask Hk Hws.
  unfold well_shaped, np_size in Hws. cbn [shape data] in Hws.
  set (fcells := map as_float64 cells).
  assert (Hflen : length fcells = length cells) by apply length_map.
  destruct sh as [|W [|W' [|c l]]].
  - cbn. discriminate.
  - cbn in Hws. rewrite Nat.mul_1_r in Hws.
    rewrite (pad_to_window_1d as_float64 W cells padval true Hk).
    intros [= <- <-].
    destruct (padded_width_tight W Hk) as ((Hle & _) & Hdiv).
    set (T' := padded_width W k) in *.
    rewrite (pad_to_window_1d (fun x : float => x) T' _ padval' true Hk).
    rewrite (@padded_width_multiple T' k Hk Hdiv), map_id.
    unfold padding_mask_of. rewrite Nat.sub_diag, Nat.min_id, Nat.min_l by lia.
    cbn [repeat]. rewrite !app_nil_r, length_app, !repeat_length.
    replace (W + (T' - W)) with T' by lia. reflexivity.
  - rename W into H, W' into W.
    cbn in Hws. rewrite Nat.mul_1_r in Hws.
    rewrite (pad_to_window_2d as_float64 H W cells padval true Hk).
    intros [= <- <-].
    destruct (padded_width_tight W Hk) as ((Hle & _) & Hdiv).
    set (T' := padded_width W k) in *.
    fold fcells.
    set (rows := map (fun row => row ++ repeat padval (T' - W))
                     (chunks H W fcells)).
    assert (Hfws : length fcells = H * W) by congruence.
    assert (Hrows : Forall (fun row => length row = T') rows).
    { apply Forall_forall. intros row Hin.
      apply in_map_iff in Hin as (row0 & <- & Hin0).
      pose proof (chunks_widths H W fcells Hfws) as Hw.
      rewrite Forall_forall in Hw.
      rewrite length_app, repeat_length, (Hw row0 Hin0). lia. }
    assert (Hlen : length rows = H)
      by (unfold rows; rewrite length_map; apply chunks_length).
    rewrite (pad_to_window_2d (fun x : float => x) H T' (concat rows)
                              padval' true Hk).
    rewrite (@padded_width_multiple T' k Hk Hdiv), map_id.
    unfold padding_mask_of. rewrite Nat.sub_diag, Nat.min_id, Nat.min_l by lia.
    cbn [repeat]. rewrite !app_nil_r, length_app, !repeat_length.
    replace (W + (T' - W)) with T' by lia.
    rewrite <- Hlen at 2. rewrite (chunks_concat Hrows).
    replace (map (fun row => row ++ []) rows) with rows; [reflexivity|].
    clear. induction rows as [|row rows IH]; cbn; [reflexivity|].
    rewrite app_nil_r. congruence.
  - cbn. discriminate.
Qed.

Lemma pad_to_window_idempotent_witness :
  pad_to_window (fun x => x)
    {| shape := [6]; data := [1; 2; 3; 4; 5; 0]%float |} 3 9%float true
  = Ok ({| shape := [6]; data := [1; 2; 3; 4; 5; 0]%float |},
        Some (repeat true (length [true; true; true; true; true; false]))).
Proof.
  apply (@pad_to_window_idempotent float (fun x => x)
           {| shape := [5]; data := [1; 2; 3; 4; 5]%float |}
           {| shape := [6]; data := [1; 2; 3; 4; 5; 0]%float |}
           3%Z 0%float 9%float [true; true; true; true; true; false]).
  - lia.
  - reflexivity.
  - reflexivity.
Defined.

(** ** reshape_to_window: when it returns, and where the elements go *)

Lemma divides_or_not (k n : Z) : (k | n)%Z \/ ~ (k | n)%Z.
Proof.
  destruct (Z.eq_dec k 0) as [->|Hk].
  - destruct (Z.eq_dec n 0) as [->|Hn].
    + left. exists 0%Z. reflexivity.
    + right. intros [q Hq]. lia.
  - destruct (Z.eq_dec (n mod k) 0) as [Hm|Hm].
    + left. apply Z.mod_divide; assumption.
    + right. intros Hd. apply Hm, Z.mod_divide; assumption.
Qed.

Section ReshapeFacts.

Variable A : Type.

Lemma reshape_to_window_1d_nonpositive (T : nat) (cells : list A) (k : Z) :
  (k <= 0)%Z ->
  reshape_to_window {| shape := [T]; data := cells |} k = Raise ValueError.
Proof.
  intros Hk. unfold reshape_to_window, np_reshape, np_size.
  cbn [shape data size_of fold_right scan_dims].
  change (-1 <? 0)%Z with true. cbv iota.
  destruct (Z.ltb_spec k 0); [reflexivity|]. cbn [bind fst snd].
  assert (k = 0%Z) as -> by lia. reflexivity.
Qed.

Lemma reshape_to_window_2d_degenerate (H T : nat) (cells : list A) (k : Z) :
  (k <= 0)%Z \/ H = 0 ->
  reshape_to_window {| shape := [H; T]; data := cells |} k = Raise ValueError.
Proof.
  intros Hk. unfold reshape_to_window, np_reshape, np_size.
  cbn [shape data size_of fold_right scan_dims].
  change (-1 <? 0)%Z with true. cbv iota.
  destruct (Z.ltb_spec (Z.of_nat H) 0); [lia|].
  destruct (Z.ltb_spec k 0); [reflexivity|]. cbn [bind fst snd].
  destruct (Z.eqb_spec (1 * Z.of_nat H * k) 0); [reflexivity|]. nia.
Qed.

End ReshapeFacts.

(** X10.  For an array that is not empty and a window size that fits a
    machine integer, [reshape_to_window] returns exactly when the window
    size is at least one, the array has one dimension, or two dimensions
    and at least one row, and the window size divides the width; the
    result then has width/size windows and the elements of the array in
    their order.  In every other case it raises a ValueError. *)
Theorem reshape_to_window_returns_exactly :
  forall (A : Type) (arr : ndarray A) (k : Z),
    1 <= np_size arr -> (Z.abs k < 2 ^ 63)%Z ->
    (forall out,
        reshape_to_window arr k = Ok out
        <-> (1 <= k)%Z
            /\ exists T : nat,
                (k | Z.of_nat T)%Z
                /\ ((shape arr = [T]
                     /\ out = {| shape := [Z.to_nat (Z.of_nat T / k);
                                           Z.to_nat k];
                                 data := data arr |})
                    \/ exists H, 1 <= H /\ shape arr = [H; T]
                                 /\ out = {| shape := [Z.to_nat (Z.of_nat T / k);
                                                       H; Z.to_nat k];
                                             data := data arr |}))
    /\ forall e, reshape_to_window arr k = Raise e -> e = ValueError.
Proof.
  intros A [sh cells] k _ _. cbn [shape data].
  assert (Hcases :
            (exists e, reshape_to_window {| shape := sh; data := cells |} k
                       = Raise e /\ e = ValueError
                       /\ ~ ((1 <= k)%Z
                             /\ exists T : nat,
                                 (k | Z.of_nat T)%Z
                                 /\ (sh = [T]
                                     \/ exists H, 1 <= H /\ sh = [H; T])))
            \/ ((1 <= k)%Z
                /\ exists T : nat,
                    (k | Z.of_nat T)%Z
                    /\ ((sh = [T]
                         /\ reshape_to_window {| shape := sh; data := cells |} k
                            = Ok {| shape := [Z.to_nat (Z.of_nat T / k);
                                              Z.to_nat k];
                                    data := cells |})
                        \/ exists H, 1 <= H /\ sh = [H; T]
                                     /\ reshape_to_window
                                          {| shape := sh; data := cells |} k
                                        = Ok {| shape := [Z.to_nat (Z.of_nat T / k);
                                                          H; Z.to_nat k];
                                                data := cells |}))).
  { destruct sh as [|T [|T' [|c l]]].
    - left. exists ValueError. repeat split.
      intros (_ & T & _ & [Hs | (H & _ & Hs)]); discriminate.
    - destruct (Z_le_gt_dec k 0) as [Hk|Hk].
      + left. exists ValueError.
        split; [apply reshape_to_window_1d_nonpositive; exact Hk|].
        split; [reflexivity|]. intros (Hk' & _). lia.
      + destruct (divides_or_not k (Z.of_nat T)) as [Hd|Hd].
        * right. split; [lia|]. exists T. split; [exact Hd|]. left.
          split; [reflexivity|]. apply reshape_to_window_1d; [lia | exact Hd].
        * left. exists ValueError.
          split; [apply reshape_to_window_1d_rejects; exact Hd|].
          split; [reflexivity|].
          intros (_ & T0 & Hd0 & [[= ->] | (H & _ & Hs)]);
            [contradiction | discriminate].
    - rename T into H. rename T' into T.
      destruct (Z_le_gt_dec k 0) as [Hk|Hk].
      + left. exists ValueError.
        split; [apply reshape_to_window_2d_degenerate; left; exact Hk|].
        split; [reflexivity|]. intros (Hk' & _). lia.
      + destruct H as [|H].
        * left. exists ValueError.
          split; [apply reshape_to_window_2d_degenerate; right; reflexivity|].
          split; [reflexivity|].
          intros (_ & T0 & _ & [Hs | (H0 & HH & [= <- _])]);
            [discriminate | lia].
        * destruct (divides_or_not k (Z.of_nat T)) as [Hd|Hd].
          -- right. split; [lia|]. exists T. split; [exact Hd|]. right.
             exists (S H). split; [lia|]. split; [reflexivity|].
             apply reshape_to_window_2d; [lia | lia | exact Hd].
          -- left. exists ValueError.
             split; [apply reshape_to_window_2d_rejects; exact Hd|].
             split; [reflexivity|].
             intros (_ & T0 & Hd0 & [Hs | (H0 & _ & [= _ ->])]);
               [discriminate | contradiction].
    - left. exists ValueError. repeat split.
      intros (_ & T0 & _ & [Hs | (H & _ & Hs)]); discriminate. }
  split.
  - intros out. split.
    + intros Hout.
      destruct Hcases as [(e & He & _) | (Hk & T & Hd & Hshape)];
        [congruence|].
      split; [exact Hk|]. exists T. split; [exact Hd|].
      destruct Hshape as [(Hs & Hr) | (H & HH & Hs & Hr)].
      * left. split; [exact Hs | congruence].
      * right. exists H. repeat split; [exact HH | exact Hs | congruence].
    + intros (Hk & T & Hd & [(-> & ->) | (H & HH & -> & ->)]).
      * apply reshape_to_window_1d; assumption.
      * apply reshape_to_window_2d; assumption.
  - intros e He.
    destruct Hcases as [(e' & He' & -> & _) | (_ & T & _ & Hshape)];
      [congruence|].
    destruct Hshape as [(_ & Hr) | (H & _ & _ & Hr)]; congruence.
Qed.

Lemma reshape_to_window_returns_exactly_witness :
  (forall out,
      reshape_to_window {| shape := [2; 4];
                           data := [1; 2; 3; 4; 5; 6; 7; 8]%Z |} 2
      = Ok out
      <-> (1 <= 2)%Z
          /\ exists T : nat,
              (2 | Z.of_nat T)%Z
              /\ ((shape {| shape := [2; 4];
                            data := [1; 2; 3; 4; 5; 6; 7; 8]%Z |} = [T]
                   /\ out = {| shape := [Z.to_nat (Z.of_nat T / 2);
                                         Z.to_nat 2];
                               data := data {| shape := [2; 4];
                                               data := [1; 2; 3; 4;
                                                        5; 6; 7; 8]%Z |} |})
                  \/ exists H,
                      1 <= H
                      /\ shape {| shape := [2; 4];
                                  data := [1; 2; 3; 4; 5; 6; 7; 8]%Z |}
                         = [H; T]
                      /\ out = {| shape := [Z.to_nat (Z.of_nat T / 2);
                                            H; Z.to_nat 2];
                                  data := data {| shape := [2; 4];
                                                  data := [1; 2; 3; 4;
                                                           5; 6; 7; 8]%Z |}
                               |}))
  /\ forall e,
      reshape_to_window {| shape := [2; 4];
                           data := [1; 2; 3; 4; 5; 6; 7; 8]%Z |} 2
      = Raise e -> e = ValueError.
Proof.
  apply (@reshape_to_window_returns_exactly Z
           {| shape := [2; 4]; data := [1; 2; 3; 4; 5; 6; 7; 8]%Z |} 2%Z).
  - cbn. lia.
  - cbn. lia.
Defined.

(** X11.  Where [reshape_to_window] puts the elements of an array with
    two dimensions that is not empty, [H] rows of width [n * k]: element
    [j] of row [h] of window [w] is the element of the array in row
    [(w * H + h) / n], at column [((w * H + h) mod n) * k + j].  A window holds [H] consecutive
    runs of [k] elements of the buffer, not the columns [w * k] to
    [w * k + k - 1] of every row; for the array [[1,2,3,4],[5,6,7,8]] and
    [k] = 2, row 1 of window 0 is [3,4], the end of row 0. *)
Theorem reshape_to_window_2d_layout :
  (forall (A : Type) (H T : nat) (cells : list A) (k : Z),
      (1 <= k)%Z -> 1 <= H -> 1 <= T -> (k | Z.of_nat T)%Z ->
      let n := Z.to_nat (Z.of_nat T / k) in
      let arr := {| shape := [H; T]; data := cells |} in
      exists windows,
        reshape_to_window arr k = Ok windows
        /\ shape windows = [n; H; Z.to_nat k]
        /\ forall w h j d, w < n -> h < H -> j < Z.to_nat k ->
             at3 windows w h j d
             = at2 arr ((w * H + h) / n)
                   (((w * H + h) mod n) * Z.to_nat k + j) d)
  /\ (exists windows,
         reshape_to_window
           {| shape := [2; 4]; data := [1; 2; 3; 4; 5; 6; 7; 8]%Z |} 2
         = Ok windows
         /\ at3 windows 0 1 0 0%Z = 3%Z
         /\ at2 {| shape := [2; 4]; data := [1; 2; 3; 4; 5; 6; 7; 8]%Z |}
                1 0 0%Z = 5%Z).
Proof.
  split.
  - intros A H T cells k Hk HH _ Hd n arr.
    exists {| shape := [n; H; Z.to_nat k]; data := cells |}.
    split; [apply reshape_to_window_2d; assumption|].
    split; [reflexivity|].
    intros w h j d Hw Hh Hj. unfold at3, at2, arr. cbn [shape data].
    f_equal.
    assert (HT : T = n * Z.to_nat k).
    { destruct Hd as [q Hq]. unfold n. rewrite Hq, Z.div_mul by lia.
      assert (0 <= q)%Z by nia.
      rewrite <- Z2Nat.inj_mul by lia. rewrite <- Hq. symmetry.
      apply Nat2Z.id. }
    assert (Hn : n <> 0) by lia.
    pose proof (Nat.div_mod_eq (w * H + h) n) as Hx.
    rewrite HT. set (x := w * H + h) in *.
    set (qx := x / n) in *. set (rx := x mod n) in *. nia.
  - eexists. split; [reflexivity|]. split; reflexivity.
Qed.

Lemma reshape_to_window_2d_layout_witness :
  let n := Z.to_nat (Z.of_nat 4 / 2) in
  let arr := {| shape := [2; 4]; data := [1; 2; 3; 4; 5; 6; 7; 8]%Z |} in
  exists windows,
    reshape_to_window arr 2 = Ok windows
    /\ shape windows = [n; 2; Z.to_nat 2]
    /\ forall w h j d, w < n -> h < 2 -> j < Z.to_nat 2 ->
         at3 windows w h j d
         = at2 arr ((w * 2 + h) / n) (((w * 2 + h) mod n) * Z.to_nat 2 + j) d.
Proof.
  apply (proj1 reshape_to_window_2d_layout Z 2 4
               [1; 2; 3; 4; 5; 6; 7; 8]%Z 2%Z).
  - lia.
  - lia.
  - lia.
  - exists 2%Z. reflexivity.
Defined.

(** ** standardize_spect: lengths that do not agree *)

Section BroadcastFacts.

Variable A : Type.
Variable sub : A -> A -> A.

(** numpy's broadcasting of [F] rows against [M] means: the subtraction
    is defined when [M = F], or one of them is 1; it then has [F] rows
    for a single mean, and [M] rows otherwise. *)
Lemma broadcast_sub_spec (rows : list (list A)) (mean_freqs : list A) :
  let F := length rows in
  let M := length mean_freqs in
  (M = F \/ M = 1 \/ F = 1 ->
   exists tfm, broadcast_sub sub rows mean_freqs = Ok tfm
               /\ length tfm = if (M =? 1)%nat then F else M)
  /\ (~ (M = F \/ M = 1 \/ F = 1) ->
      broadcast_sub sub rows mean_freqs = Raise ValueError).
Proof.
  cbv zeta. unfold broadcast_sub.
  destruct (Nat.eqb_spec (length rows) (length mean_freqs)) as [E|E].
  - split; [|intros Hn; exfalso; apply Hn; left; congruence].
    intros _. eexists. split; [reflexivity|].
    rewrite length_map, length_combine, E, Nat.min_id.
    destruct (Nat.eqb_spec (length mean_freqs) 1); congruence.
  - destruct mean_freqs as [|m [|m' mean_freqs]];
      destruct rows as [|row [|row' rows]]; cbn [length] in *;
      try (exfalso; apply E; reflexivity);
      (split;
       [ intros Hc; try (exfalso; lia);
         eexists; (split; [reflexivity|]);
         rewrite length_map; reflexivity
       | intros Hn; try (exfalso; apply Hn; lia); reflexivity ]).
Qed.

Lemma broadcast_sub_single_mean (rows : list (list A)) (m : A) :
  broadcast_sub sub rows [m]
  = broadcast_sub sub rows (repeat m (length rows)).
Proof.
  assert (Hmap : map (fun rm => map (fun x => sub x (snd rm)) (fst rm))
                     (combine rows (repeat m (length rows)))
                 = map (fun row => map (fun x => sub x m) row) rows).
  { induction rows as [|row rows IH]; cbn; [reflexivity|]. congruence. }
  unfold broadcast_sub at 2. rewrite repeat_length, Nat.eqb_refl, Hmap.
  unfold broadcast_sub. cbn [length].
  destruct (Nat.eqb_spec (length rows) 1) as [E|E]; [|reflexivity].
  destruct rows as [|row [|row' rows]]; try discriminate. reflexivity.
Qed.

Lemma broadcast_sub_single_row (row : list A) (mean_freqs : list A) :
  broadcast_sub sub [row] mean_freqs
  = broadcast_sub sub (repeat row (length mean_freqs)) mean_freqs.
Proof.
  assert (Hmap : map (fun rm => map (fun x => sub x (snd rm)) (fst rm))
                     (combine (repeat row (length mean_freqs)) mean_freqs)
                 = map (fun m => map (fun x => sub x m) row) mean_freqs).
  { induction mean_freqs as [|m mean_freqs IH]; cbn; [reflexivity|].
    congruence. }
  unfold broadcast_sub at 2. rewrite repeat_length, Nat.eqb_refl, Hmap.
  unfold broadcast_sub. cbn [length].
  destruct mean_freqs as [|m [|m' mean_freqs]]; reflexivity.
Qed.

End BroadcastFacts.

(** X12.  When [standardize_spect] returns and what it raises, for a
    spectrogram of [F] bands and [M] means.  It returns exactly when the
    means can be broadcast against the bands ([M = F], or one of them is
    1) and the mask is empty, or the mask and the deviations both have
    as many entries as the result has bands: [F] for a single mean, [M]
    otherwise, so a spectrogram of one band standardised with [M] means
    comes back with [M] bands.  Means that cannot be broadcast raise a
    ValueError; a mask that is not empty and has another length, or
    comes with deviations of another length, raises an IndexError. *)
Theorem standardize_spect_returns_exactly :
  forall (A : Type) (sub div : A -> A -> A) (F T : nat)
         (cells mean_freqs std_freqs : list A) (non_zero_std : list bool),
    let M := length mean_freqs in
    let R := if (M =? 1)%nat then F else M in
    let res := standardize_spect sub div {| shape := [F; T]; data := cells |}
                                 mean_freqs std_freqs non_zero_std in
    ((exists out, res = Some (Ok out))
     <-> (M = F \/ M = 1 \/ F = 1)
         /\ (non_zero_std = []
             \/ (length non_zero_std = R /\ length std_freqs = R)))
    /\ (forall out, res = Some (Ok out) -> shape out = [R; T])
    /\ (~ (M = F \/ M = 1 \/ F = 1) -> res = Some (Raise ValueError))
    /\ ((M = F \/ M = 1 \/ F = 1) ->
        non_zero_std <> [] ->
        ~ (length non_zero_std = R /\ length std_freqs = R) ->
        res = Some (Raise IndexError)).
Proof.
  intros A sub div F T cells mean_freqs std_freqs non_zero_std M R res.
  destruct (broadcast_sub_spec sub (chunks F T cells) mean_freqs)
    as (Hok & Herr).
  rewrite chunks_length in Hok, Herr. fold M in Hok, Herr. fold R in Hok.
  unfold standardize_spect in res. cbn [shape data] in res.
  assert (Hdec : (M = F \/ M = 1 \/ F = 1) \/ ~ (M = F \/ M = 1 \/ F = 1))
    by lia.
  destruct Hdec as [Hc|Hc].
  - destruct (Hok Hc) as (tfm & Htfm & Hlen).
    assert (Hres : res
                   = Some (if (length non_zero_std =? 0)%nat
                           then Ok {| shape := [R; T]; data := concat tfm |}
                           else if negb (length non_zero_std =? R)%nat
                           then Raise IndexError
                           else if negb (length non_zero_std
                                         =? length std_freqs)%nat
                           then Raise IndexError
                           else Ok {| shape := [R; T];
                                      data := concat (divide_selected
                                                        div tfm std_freqs
                                                        non_zero_std) |})).
    { unfold res. rewrite Htfm. cbn [bind]. rewrite Hlen. reflexivity. }
    rewrite Hres.
    destruct non_zero_std as [|b mask].
    + cbn [length Nat.eqb].
      split; [split; [intros _; split; [exact Hc | left; reflexivity]
                     | intros _; eexists; reflexivity]|].
      split; [intros out [= <-]; reflexivity|].
      split; [intros Hn; contradiction | intros _ Hn; congruence].
    + assert (Hm : b :: mask <> []) by discriminate.
      set (m := b :: mask) in *.
      destruct (Nat.eqb_spec (length m) 0) as [E0|_];
        [apply length_zero_iff_nil in E0; contradiction|].
      destruct (Nat.eqb_spec (length m) R) as [E1|E1];
        destruct (Nat.eqb_spec (length m) (length std_freqs))
          as [E2|E2]; cbn [negb];
        (split;
         [ split;
           [ intros (out & Hout);
             first [ discriminate
                   | split; [exact Hc | right; split; congruence] ]
           | intros (_ & [Hnil | (H1 & H2)]);
             first [ contradiction
                   | exfalso; congruence
                   | eexists; reflexivity ] ]
         | split;
           [ intros out Hout;
             first [ discriminate | injection Hout as <-; reflexivity ]
           | split;
             [ intros Hn; contradiction
             | intros _ _ Hn;
               first [ reflexivity
                     | exfalso; apply Hn; split; congruence ] ] ] ]).
  - assert (Hres : res = Some (Raise ValueError)).
    { unfold res. rewrite (Herr Hc). reflexivity. }
    rewrite Hres.
    split; [split; [intros (out & Hout); discriminate
                   | intros (Hc' & _); contradiction]|].
    split; [intros out Hout; discriminate|].
    split; [reflexivity | intros Hc'; contradiction].
Qed.

(** X13.  Broadcasting in [standardize_spect]: a single mean is
    subtracted from every band, as if it had been given once per band;
    and a spectrogram of one band with [M] means is standardised as if
    its band had been given [M] times, once for each mean. *)
Theorem standardize_spect_broadcasts :
  forall (A : Type) (sub div : A -> A -> A) (T : nat)
         (cells std_freqs : list A) (non_zero_std : list bool),
    (forall (F : nat) (m : A),
        standardize_spect sub div {| shape := [F; T]; data := cells |}
                          [m] std_freqs non_zero_std
        = standardize_spect sub div {| shape := [F; T]; data := cells |}
                            (repeat m F) std_freqs non_zero_std)
    /\ (forall mean_freqs : list A,
           length cells = T ->
           standardize_spect sub div {| shape := [1; T]; data := cells |}
                             mean_freqs std_freqs non_zero_std
           = standardize_spect sub div
               {| shape := [length mean_freqs; T];
                  data := concat (repeat cells (length mean_freqs)) |}
               mean_freqs std_freqs non_zero_std).
Proof.
  intros A sub div T cells std_freqs non_zero_std. split.
  - intros F m. unfold standardize_spect. cbn [shape data].
    rewrite broadcast_sub_single_mean, chunks_length. reflexivity.
  - intros mean_freqs Hlen. unfold standardize_spect. cbn [shape data].
    assert (Hone : chunks 1 T cells = [cells]).
    { cbn [chunks]. rewrite <- Hlen, firstn_all. reflexivity. }
    assert (Hall : Forall (fun row : list A => length row = T)
                          (repeat cells (length mean_freqs))).
    { apply Forall_forall. intros row Hin.
      apply repeat_spec in Hin. congruence. }
    pose proof (chunks_concat Hall) as Hmany.
    rewrite repeat_length in Hmany.
    rewrite Hone, Hmany, broadcast_sub_single_row. reflexivity.
Qed.

Lemma standardize_spect_broadcasts_witness :
  standardize_spect Z.sub Z.div {| shape := [1; 2]; data := [7; 9]%Z |}
                    [1; 2; 3]%Z [1; 2; 1]%Z [true; true; false]
  = standardize_spect Z.sub Z.div
      {| shape := [length [1; 2; 3]%Z; 2];
         data := concat (repeat [7; 9]%Z (length [1; 2; 3]%Z)) |}
      [1; 2; 3]%Z [1; 2; 1]%Z [true; true; false].
Proof.
  apply (proj2 (@standardize_spect_broadcasts Z Z.sub Z.div 2 [7; 9]%Z
                  [1; 2; 1]%Z [true; true; false]) [1; 2; 3]%Z).
  reflexivity.
Defined.

(** ** comma_separated_list *)

Section WordFacts.

Lemma words_space_free (s : string) :
  space_free s = true -> words s = (s, []).
Proof.
  induction s as [|c s IH]; cbn; [reflexivity|].
  intros H. apply andb_prop in H as (Hc & Hs).
  rewrite (IH Hs). apply negb_true_iff in Hc. rewrite Hc. reflexivity.
Qed.

Lemma words_after_space (sep r : string) :
  sep <> "" -> all_space sep = true ->
  words (sep ++ r)
  = ("", let (w, ws) := words r in cons_word w ws).
Proof.
  induction sep as [|c sep IH]; [congruence|].
  intros _ H. cbn in H. apply andb_prop in H as (Hc & Hs).
  cbn [append words]. rewrite Hc.
  destruct sep as [|c' sep].
  - cbn [append]. destruct (words r) as (w, ws). reflexivity.
  - rewrite IH by (congruence || exact Hs). reflexivity.
Qed.

Lemma words_word_then (t rest : string) (ws : list string) :
  space_free t = true -> words rest = ("", ws) ->
  words (t ++ rest) = (t, ws).
Proof.
  intros Ht Hr. induction t as [|c t IH]; cbn [append]; [exact Hr|].
  cbn in Ht. apply andb_prop in Ht as (Hc & Ht).
  cbn [words]. rewrite (IH Ht). apply negb_true_iff in Hc. rewrite Hc.
  reflexivity.
Qed.

Lemma is_word_inv (t : string) :
  is_word t = true -> t <> "" /\ space_free t = true.
Proof.
  unfold is_word. intros H. apply andb_prop in H as (Hn & Hs).
  split; [|exact Hs]. intros ->. discriminate.
Qed.

Lemma cons_word_word (t : string) (ws : list string) :
  t <> "" -> cons_word t ws = t :: ws.
Proof. destruct t; [congruence | reflexivity]. Qed.

Lemma split_ws_join (sep : string) (toks : list string) :
  sep <> "" -> all_space sep = true ->
  forallb is_word toks = true ->
  str_split_ws (String.concat sep toks) = toks.
Proof.
  intros Hne Hsep Htoks. unfold str_split_ws.
  assert (H : words (String.concat sep toks)
              = match toks with [] => ("", []) | t :: ts => (t, ts) end).
  { induction toks as [|t ts IH]; [reflexivity|].
    cbn in Htoks. apply andb_prop in Htoks as (Ht & Hts).
    apply is_word_inv in Ht as (Htne & Htsf).
    specialize (IH Hts).
    destruct ts as [|t' ts].
    - apply words_space_free. exact Htsf.
    - change (String.concat sep (t :: t' :: ts))
        with (t ++ sep ++ String.concat sep (t' :: ts))%string.
      apply words_word_then; [exact Htsf|].
      rewrite (@words_after_space sep _ Hne Hsep), IH.
      cbn in Hts. apply andb_prop in Hts as (Ht' & _).
      apply is_word_inv in Ht' as (Hne' & _).
      rewrite (@cons_word_word t' ts Hne'). reflexivity. }
  rewrite H. destruct toks as [|t ts]; [reflexivity|].
  cbn in Htoks. apply andb_prop in Htoks as (Ht & _).
  apply is_word_inv in Ht as (Htne & _).
  apply cons_word_word. exact Htne.
Qed.

Lemma strip_space_free (s : string) :
  space_free s = true -> str_strip s = s.
Proof.
  intros H. unfold str_strip.
  assert (Hl : str_lstrip s = s).
  { destruct s as [|c s]; [reflexivity|]. cbn in *.
    apply andb_prop in H as (Hc & _). apply negb_true_iff in Hc.
    rewrite Hc. reflexivity. }
  rewrite Hl. induction s as [|c s IH]; [reflexivity|].
  cbn in H. apply andb_prop in H as (Hc & Hs). apply negb_true_iff in Hc.
  cbn [str_rstrip]. rewrite (IH Hs).
  - destruct s; [rewrite Hc|]; reflexivity.
  - destruct s as [|c' s]; [reflexivity|]. cbn in *.
    apply andb_prop in Hs as (Hc' & _). apply negb_true_iff in Hc'.
    rewrite Hc'. reflexivity.
Qed.

Lemma cons_word_words (w : string) (ws : list string) :
  space_free w = true -> forallb is_word ws = true ->
  forallb is_word (cons_word w ws) = true
  /\ String.concat "" (cons_word w ws) = (w ++ String.concat "" ws)%string.
Proof.
  intros Hw Hws. destruct w as [|c w]; [split; [exact Hws | reflexivity]|].
  cbn [cons_word]. split.
  - cbn [forallb]. rewrite Hws. unfold is_word. rewrite Hw. reflexivity.
  - destruct ws; cbn [String.concat]; [|reflexivity].
    symmetry. apply append_empty_r.
Qed.

Lemma words_spec (s : string) :
  let (w, ws) := words s in
  space_free w = true /\ forallb is_word ws = true
  /\ (w ++ String.concat "" ws)%string = without_space s.
Proof.
  induction s as [|c s IH]; [repeat split|].
  cbn [words without_space]. destruct (words s) as (w, ws).
  destruct IH as (Hw & Hws & Hcat).
  destruct (is_space c) eqn:Hc.
  - destruct (@cons_word_words w ws Hw Hws) as (H1 & H2).
    repeat split; [exact H1|]. cbn [append]. rewrite H2. exact Hcat.
  - repeat split; [cbn; rewrite Hc, Hw; reflexivity | exact Hws |].
    cbn [append]. rewrite Hcat. reflexivity.
Qed.

Lemma map_strip_words (toks : list string) :
  forallb is_word toks = true ->
  map (fun element => VStr (str_strip element)) toks = map VStr toks.
Proof.
  induction toks as [|t toks IH]; [reflexivity|].
  cbn. intros H. apply andb_prop in H as (Ht & Hts).
  apply is_word_inv in Ht as (_ & Ht).
  rewrite (@strip_space_free t Ht), (IH Hts). reflexivity.
Qed.

End WordFacts.

(** X14.  [comma_separated_list] cuts a string at its white space, not
    at its commas: words joined by white space come back as the list of
    these words, with the commas they contain.  A string without white
    space, such as "TweetyNet,GRUNet", is a list of one element. *)
Theorem comma_separated_list_splits_at_white_space :
  forall (sep : string) (toks : list string),
    sep <> "" -> all_space sep = true ->
    forallb is_word toks = true ->
    comma_separated_list (VStr (String.concat sep toks))
    = Ok (VList (map VStr toks)).
Proof.
  intros sep toks Hne Hsep Htoks. unfold comma_separated_list.
  rewrite (@split_ws_join sep toks Hne Hsep Htoks).
  rewrite (@map_strip_words toks Htoks).
  reflexivity.
Qed.

Lemma comma_separated_list_splits_at_white_space_witness :
  comma_separated_list (VStr (String.concat " " ["TweetyNet,GRUNet"]))
  = Ok (VList (map VStr ["TweetyNet,GRUNet"])).
Proof.
  apply (@comma_separated_list_splits_at_white_space
           " " ["TweetyNet,GRUNet"]).
  - discriminate.
  - reflexivity.
  - reflexivity.
Defined.

(** X15.  What [comma_separated_list] returns for any string: a list of
    strings that are not empty and hold no white space, whose characters
    are, in order, the characters of the string that are not white
    space; a list is returned as it is, and any other value raises a
    TypeError. *)
Theorem comma_separated_list_elements :
  forall v : value,
    match v with
    | VStr s =>
        exists toks,
          comma_separated_list v = Ok (VList (map VStr toks))
          /\ forallb is_word toks = true
          /\ String.concat "" toks = without_space s
    | VList items => comma_separated_list v = Ok (VList items)
    | _ => comma_separated_list v = Raise TypeError
    end.
Proof.
  intros v. destruct v; try reflexivity.
  pose proof (words_spec s) as H.
  unfold comma_separated_list, str_split_ws.
  destruct (words s) as (w, ws). destruct H as (Hw & Hws & Hcat).
  destruct (@cons_word_words w ws Hw Hws) as (H1 & H2).
  exists (cons_word w ws). split; [|split].
  - rewrite (@map_strip_words _ H1). reflexivity.
  - exact H1.
  - rewrite H2. exact Hcat.
Qed.

(** ** bool_from_str *)

Lemma lower_char_idempotent (c : ascii) :
  lower_char (lower_char c) = lower_char c.
Proof.
  destruct c as [b0 b1 b2 b3 b4 b5 b6 b7].
  destruct b0, b1, b2, b3, b4, b5, b6, b7; reflexivity.
Qed.

Lemma str_lower_idempotent (s : string) :
  str_lower (str_lower s) = str_lower s.
Proof.
  induction s as [|c s IH]; [reflexivity|].
  cbn. rewrite lower_char_idempotent, IH. reflexivity.
Qed.

Lemma existsb_eqb_in (w : string) (l : list string) :
  existsb (String.eqb w) l = true <-> In w l.
Proof.
  rewrite existsb_exists. split.
  - intros (x & Hx & E). apply String.eqb_eq in E. congruence.
  - intros H. exists w. split; [exact H | apply String.eqb_refl].
Qed.

Lemma false_word_not_true (w : string) :
  In w ["n"; "no"; "f"; "false"; "off"; "0"] ->
  existsb (String.eqb w) ["y"; "yes"; "t"; "true"; "on"; "1"] = false.
Proof.
  intros H. repeat (destruct H as [<-|H]; [reflexivity|]). destruct H.
Qed.

(** X16.  [bool_from_str] on a string looks at the string in lower case,
    so that the capitalisation of the word does not matter: it returns
    [True] exactly for the six words "y", "yes", "t", "true", "on", "1",
    [False] exactly for "n", "no", "f", "false", "off", "0", and raises
    a ValueError exactly for a string that is not one of the twelve
    words; nothing else is raised.  A result is a fixed point of the
    converter; and a value that is neither a [bool] nor a [str], an
    [int] for instance, is converted to [None] without an error. *)
Theorem bool_from_str_outcomes :
  (forall s, bool_from_str (VStr (str_lower s)) = bool_from_str (VStr s))
  /\ (forall s,
         (bool_from_str (VStr s) = Ok (VBool true)
          <-> In (str_lower s) ["y"; "yes"; "t"; "true"; "on"; "1"])
         /\ (bool_from_str (VStr s) = Ok (VBool false)
             <-> In (str_lower s) ["n"; "no"; "f"; "false"; "off"; "0"])
         /\ (bool_from_str (VStr s) = Raise ValueError
             <-> ~ In (str_lower s)
                      ["y"; "yes"; "t"; "true"; "on"; "1";
                       "n"; "no"; "f"; "false"; "off"; "0"]))
  /\ (forall v,
         match bool_from_str v with
         | Ok r => bool_from_str r = Ok r
         | Raise e => e = ValueError /\ exists s, v = VStr s
         end)
  /\ (forall v,
         bool_from_str v = Ok VNone
         <-> (forall b, v <> VBool b) /\ (forall s, v <> VStr s)).
Proof.
  split; [|split; [|split]].
  - intros s. unfold bool_from_str, strtobool.
    rewrite str_lower_idempotent. reflexivity.
  - intros s. unfold bool_from_str, strtobool.
    set (w := str_lower s).
    pose proof (existsb_eqb_in w ["y"; "yes"; "t"; "true"; "on"; "1"])
      as Hyes.
    pose proof (existsb_eqb_in w ["n"; "no"; "f"; "false"; "off"; "0"])
      as Hno.
    pose proof (@false_word_not_true w) as Hdisj.
    assert (Hall : In w ["y"; "yes"; "t"; "true"; "on"; "1";
                         "n"; "no"; "f"; "false"; "off"; "0"]
                   <-> In w ["y"; "yes"; "t"; "true"; "on"; "1"]
                       \/ In w ["n"; "no"; "f"; "false"; "off"; "0"]).
    { change ["y"; "yes"; "t"; "true"; "on"; "1";
              "n"; "no"; "f"; "false"; "off"; "0"]
        with (["y"; "yes"; "t"; "true"; "on"; "1"]
              ++ ["n"; "no"; "f"; "false"; "off"; "0"]).
      apply in_app_iff. }
    destruct (existsb (String.eqb w) ["y"; "yes"; "t"; "true"; "on"; "1"])
      eqn:Ey.
    + assert (Hy : In w ["y"; "yes"; "t"; "true"; "on"; "1"])
        by (apply Hyes; reflexivity).
      cbn [bind Z.eqb negb].
      split; [split; [intros _; exact Hy | reflexivity]|].
      split.
      * split; [discriminate|]. intros Hn. apply Hdisj in Hn. discriminate.
      * split; [discriminate|]. intros Hn. exfalso. apply Hn, Hall.
        left. exact Hy.
    + assert (Hy : ~ In w ["y"; "yes"; "t"; "true"; "on"; "1"]).
      { intros H. apply Hyes in H. discriminate. }
      destruct (existsb (String.eqb w)
                        ["n"; "no"; "f"; "false"; "off"; "0"]) eqn:En.
      * assert (Hn : In w ["n"; "no"; "f"; "false"; "off"; "0"])
          by (apply Hno; reflexivity).
        cbn [bind Z.eqb negb].
        split; [split; [discriminate | intros H; contradiction]|].
        split; [split; [intros _; exact Hn | reflexivity]|].
        split; [discriminate|]. intros H. exfalso. apply H, Hall.
        right. exact Hn.
      * assert (Hn : ~ In w ["n"; "no"; "f"; "false"; "off"; "0"]).
        { intros H. apply Hno in H. discriminate. }
        cbn [bind].
        split; [split; [discriminate | intros H; contradiction]|].
        split; [split; [discriminate | intros H; contradiction]|].
        split; [|reflexivity]. intros _ H. apply Hall in H. tauto.
  - intros v. destruct v; try reflexivity.
    unfold bool_from_str, strtobool.
    destruct (existsb _ _); [reflexivity|].
    destruct (existsb _ _); [reflexivity|].
    split; [reflexivity | eexists; reflexivity].
  - intros v. split.
    + destruct v; try (intros _; split; intros; discriminate).
      * cbn. discriminate.
      * unfold bool_from_str, strtobool.
        destruct (existsb _ _); [discriminate|].
        destruct (existsb _ _); discriminate.
    + intros (Hb & Hs). destruct v; try reflexivity.
      * exfalso. apply (Hb b). reflexivity.
      * exfalso. apply (Hs s). reflexivity.
Qed.

(** ** range_str *)

Section NumeralFacts.

Lemma free_of_app (c : ascii) (a b : string) :
  free_of c (a ++ b) = free_of c a && free_of c b.
Proof.
  induction a as [|x a IH]; [reflexivity|].
  cbn. rewrite IH, andb_assoc. reflexivity.
Qed.

Lemma all_digits_free_of (c : ascii) (s : string) :
  digit_of c = None -> all_digits s = true -> free_of c s = true.
Proof.
  intros Hc. induction s as [|x s IH]; [reflexivity|].
  cbn. destruct (digit_of x) eqn:Hx; [|discriminate].
  intros Hs. rewrite (IH Hs), andb_true_r.
  apply negb_true_iff. apply Ascii.eqb_neq. intros ->. congruence.
Qed.

Lemma int_space_not_digit (c : ascii) :
  is_int_space c = true -> digit_of c = None.
Proof.
  destruct c as [b0 b1 b2 b3 b4 b5 b6 b7].
  destruct b0, b1, b2, b3, b4, b5, b6, b7; vm_compute; congruence.
Qed.

Lemma all_int_space_free_of (c : ascii) (s : string) :
  is_int_space c = false -> all_int_space s = true -> free_of c s = true.
Proof.
  intros Hc. induction s as [|x s IH]; [reflexivity|].
  cbn. intros H. apply andb_prop in H as (Hx & Hs).
  rewrite (IH Hs), andb_true_r.
  apply negb_true_iff. apply Ascii.eqb_neq. intros ->. congruence.
Qed.

Ltac eval_digit :=
  match goal with
  | |- context [digit_of ?c] =>
      let v := eval vm_compute in (digit_of c) in
      change (digit_of c) with v
  end.

Lemma uint_digits (d : Decimal.uint) :
  all_digits (DecimalString.NilEmpty.string_of_uint d) = true.
Proof.
  induction d; [reflexivity | ..];
    cbn [DecimalString.NilEmpty.string_of_uint all_digits];
    eval_digit; exact IHd.
Qed.

(** The digits of a number in front of [t], read from a positive
    accumulator and from zero. *)
Lemma int_digits_uint_acc (d : Decimal.uint) :
  forall (p : positive) (t : string),
    int_digits (DecimalString.NilEmpty.string_of_uint d ++ t) (Z.pos p) true
    = int_digits t (Z.pos (Pos.of_uint_acc d p)) true.
Proof.
  induction d; intros p t; cbn [DecimalString.NilEmpty.string_of_uint
                                 append Pos.of_uint_acc];
    [reflexivity | ..];
    cbn [int_digits];
    eval_digit; cbv iota; rewrite <- IHd; f_equal; lia.
Qed.

Lemma int_digits_uint (d : Decimal.uint) :
  forall (t : string) (b : bool),
    int_digits (DecimalString.NilEmpty.string_of_uint d ++ t) 0 b
    = int_digits t (Z.of_N (Pos.of_uint d))
                 (match d with Decimal.Nil => b | _ => true end).
Proof.
  induction d; intros t b; cbn [DecimalString.NilEmpty.string_of_uint
                                 append Pos.of_uint];
    [reflexivity | ..];
    cbn [int_digits];
    eval_digit; cbv iota.
  - change (10 * 0 + Z.of_nat 0)%Z with 0%Z. rewrite IHd.
    destruct d; reflexivity.
  - apply (int_digits_uint_acc d 1 t).
  - apply (int_digits_uint_acc d 2 t).
  - apply (int_digits_uint_acc d 3 t).
  - apply (int_digits_uint_acc d 4 t).
  - apply (int_digits_uint_acc d 5 t).
  - apply (int_digits_uint_acc d 6 t).
  - apply (int_digits_uint_acc d 7 t).
  - apply (int_digits_uint_acc d 8 t).
  - apply (int_digits_uint_acc d 9 t).
Qed.

Lemma int_digits_trail (t : string) (n : Z) :
  all_int_space t = true -> int_digits t n true = Some n.
Proof.
  destruct t as [|c t]; [reflexivity|].
  intros H. cbn [int_digits]. rewrite H.
  cbn in H. apply andb_prop in H as (Hc & _).
  rewrite int_space_not_digit by exact Hc.
  destruct (Ascii.eqb_spec c "_") as [->|_]; [discriminate | reflexivity].
Qed.

Lemma skip_int_space_lead (l s : string) :
  all_int_space l = true -> skip_int_space (l ++ s) = skip_int_space s.
Proof.
  induction l as [|c l IH]; [reflexivity|].
  cbn. intros H. apply andb_prop in H as (Hc & Hl).
  rewrite Hc. apply IH. exact Hl.
Qed.

(** The decimal digits of a natural number. *)
Lemma py_str_nat (n : nat) :
  exists d,
    d <> Decimal.Nil
    /\ py_str (Z.of_nat n) = DecimalString.NilEmpty.string_of_uint d
    /\ Z.of_N (Pos.of_uint d) = Z.of_nat n.
Proof.
  unfold py_str. destruct (Z.of_nat n) as [|p|p] eqn:E; [| |lia].
  - exists (Decimal.D0 Decimal.Nil). repeat split. discriminate.
  - exists (Pos.to_uint p). cbn [Z.to_int].
    pose proof (DecimalPos.Unsigned.to_uint_nonnil p) as Hnn.
    split; [exact Hnn|]. split.
    + cbn [DecimalString.NilZero.string_of_int].
      unfold DecimalString.NilZero.string_of_uint.
      destruct (Pos.to_uint p); [congruence | reflexivity ..].
    + rewrite DecimalPos.Unsigned.of_to. reflexivity.
Qed.

Lemma py_str_nat_digits (n : nat) :
  all_digits (py_str (Z.of_nat n)) = true /\ py_str (Z.of_nat n) <> "".
Proof.
  destruct (py_str_nat n) as (d & Hd & -> & _).
  split; [apply uint_digits|]. destruct d; [congruence | discriminate ..].
Qed.

Lemma py_int_spelled (x : numeral) :
  tidy x = true -> py_int (spelled x) = Ok (Z.of_nat (number x)).
Proof.
  unfold tidy, spelled. intros H. apply andb_prop in H as (H & _).
  apply andb_prop in H as (Hl & Ht).
  destruct (py_str_nat (number x)) as (d & Hd & Hs & Hv).
  unfold py_int. rewrite skip_int_space_lead by exact Hl. rewrite Hs.
  assert (Hskip : forall t,
             int_signed
               (skip_int_space
                  (DecimalString.NilEmpty.string_of_uint d ++ t))
             = int_digits (DecimalString.NilEmpty.string_of_uint d ++ t)
                          0 false).
  { intros t. destruct d; [congruence | reflexivity ..]. }
  rewrite Hskip, int_digits_uint, Hv.
  destruct d; [congruence | ..]; rewrite int_digits_trail by exact Ht;
    reflexivity.
Qed.

Lemma spelled_free_of (c : ascii) (x : numeral) :
  digit_of c = None -> is_int_space c = false -> tidy x = true ->
  free_of c (spelled x) = true.
Proof.
  intros Hd Hs H. unfold tidy in H. apply andb_prop in H as (H & _).
  apply andb_prop in H as (Hl & Ht).
  unfold spelled. rewrite !free_of_app.
  rewrite (@all_int_space_free_of c (lead x) Hs Hl).
  rewrite (@all_int_space_free_of c (trail x) Hs Ht).
  rewrite (@all_digits_free_of c _ Hd (proj1 (py_str_nat_digits (number x)))).
  reflexivity.
Qed.

End NumeralFacts.

Section SplitFacts.

Variable sep : ascii.

Lemma pieces_free (s : string) :
  free_of sep s = true -> pieces sep s = (s, []).
Proof.
  induction s as [|c s IH]; [reflexivity|].
  cbn. intros H. apply andb_prop in H as (Hc & Hs).
  rewrite (IH Hs). apply negb_true_iff in Hc. rewrite Hc. reflexivity.
Qed.

Lemma pieces_app (p r : string) :
  free_of sep p = true ->
  pieces sep (p ++ String sep r)
  = (p, let (q, qs) := pieces sep r in q :: qs).
Proof.
  induction p as [|c p IH]; cbn [append].
  - intros _. cbn [pieces]. rewrite Ascii.eqb_refl.
    destruct (pieces sep r). reflexivity.
  - cbn. intros H. apply andb_prop in H as (Hc & Hp).
    rewrite (IH Hp). apply negb_true_iff in Hc. rewrite Hc.
    destruct (pieces sep r). reflexivity.
Qed.

Lemma str_split_join (parts : list string) :
  parts <> [] -> forallb (free_of sep) parts = true ->
  str_split sep (String.concat (String sep "") parts) = parts.
Proof.
  intros Hne Hall. unfold str_split.
  induction parts as [|p parts IH]; [congruence|].
  cbn in Hall. apply andb_prop in Hall as (Hp & Hparts).
  destruct parts as [|q parts].
  - cbn [String.concat]. rewrite pieces_free by exact Hp. reflexivity.
  - change (String.concat (String sep "") (p :: q :: parts))
      with (p ++ String sep (String.concat (String sep "") (q :: parts)))%string.
    rewrite pieces_app by exact Hp.
    destruct (pieces sep (String.concat (String sep "") (q :: parts)))
      as (q', qs).
    rewrite IH by (congruence || exact Hparts). reflexivity.
Qed.

(** The pieces of a split do not hold the separator. *)
Lemma pieces_free_of (s : string) :
  let (p, ps) := pieces sep s in
  free_of sep p = true /\ forallb (free_of sep) ps = true.
Proof.
  induction s as [|c s IH]; [split; reflexivity|].
  cbn [pieces]. destruct (pieces sep s) as (p, ps).
  destruct IH as (Hp & Hps).
  destruct (Ascii.eqb_spec c sep) as [->|Hc].
  - split; [reflexivity|]. cbn. rewrite Hp, Hps. reflexivity.
  - split; [|exact Hps]. cbn. rewrite Hp, andb_true_r.
    apply negb_true_iff, Ascii.eqb_neq. exact Hc.
Qed.

End SplitFacts.

Section RangeFacts.

Lemma subrange_ints_written (it : item) :
  tidy_item it = true -> subrange_ints (written_item it) = Returns (denoted it).
Proof.
  destruct it as [x|a b]; cbn [tidy_item written_item denoted].
  - intros Hx. unfold subrange_ints, str_split.
    rewrite (@pieces_free "-" (spelled x))
      by (apply spelled_free_of; [reflexivity | reflexivity | exact Hx]).
    rewrite py_int_spelled by exact Hx. reflexivity.
  - intros H. apply andb_prop in H as (Ha & Hb).
    unfold subrange_ints, str_split.
    change (spelled a ++ "-" ++ spelled b)%string
      with (spelled a ++ String "-" (spelled b))%string.
    rewrite (@pieces_app "-" (spelled a) (spelled b))
      by (apply spelled_free_of; [reflexivity | reflexivity | exact Ha]).
    rewrite (@pieces_free "-" (spelled b))
      by (apply spelled_free_of; [reflexivity | reflexivity | exact Hb]).
    rewrite !py_int_spelled by assumption. reflexivity.
Qed.

Lemma written_item_free_of (c : ascii) (it : item) :
  digit_of c = None -> is_int_space c = false -> (c =? "-")%char = false ->
  tidy_item it = true -> free_of c (written_item it) = true.
Proof.
  intros Hd Hs Hc. destruct it as [x|a b]; cbn [tidy_item written_item].
  - apply spelled_free_of; assumption.
  - intros H. apply andb_prop in H as (Ha & Hb).
    rewrite !free_of_app.
    rewrite (@spelled_free_of c a Hd Hs Ha), (@spelled_free_of c b Hd Hs Hb).
    cbn [free_of andb]. rewrite Ascii.eqb_sym, Hc. reflexivity.
Qed.

Lemma extend_all_written (items : list item) :
  forall list_range,
    forallb tidy_item items = true ->
    extend_all (map written_item items) list_range
    = Returns (list_range ++ concat (map denoted items)).
Proof.
  induction items as [|it items IH]; intros list_range H.
  - cbn. rewrite app_nil_r. reflexivity.
  - cbn in H. apply andb_prop in H as (Hit & Hitems).
    cbn [map extend_all concat].
    rewrite subrange_ints_written by exact Hit. cbn [and_then].
    rewrite IH by exact Hitems. rewrite app_assoc. reflexivity.
Qed.

Lemma range_str_written_aux (items : list item) (sort : bool) :
  items <> [] -> forallb tidy_item items = true ->
  range_str (written items) sort
  = Returns (map py_str (if sort
                         then list_sort (concat (map denoted items))
                         else concat (map denoted items))).
Proof.
  intros Hne Htidy. unfold range_str, written.
  rewrite (@str_split_join "," (map written_item items)).
  - rewrite extend_all_written by exact Htidy. reflexivity.
  - destruct items; [congruence | discriminate].
  - clear Hne. induction items as [|it items IH]; [reflexivity|].
    cbn in Htidy. apply andb_prop in Htidy as (Hit & Hitems).
    cbn [map forallb]. rewrite (IH Hitems), andb_true_r.
    apply written_item_free_of; [reflexivity .. | exact Hit].
Qed.

End RangeFacts.

Section SortFacts.

Lemma sort_insert_perm (x : Z) (l : list Z) :
  Permutation.Permutation (sort_insert x l) (x :: l).
Proof.
  induction l as [|y l IH]; cbn; [apply Permutation.Permutation_refl|].
  destruct (x <=? y)%Z; [apply Permutation.Permutation_refl|].
  eapply Permutation.perm_trans; [apply Permutation.perm_skip, IH|].
  apply Permutation.perm_swap.
Qed.

Lemma list_sort_perm (l : list Z) :
  Permutation.Permutation (list_sort l) l.
Proof.
  induction l as [|x l IH]; cbn; [constructor|].
  eapply Permutation.perm_trans; [apply sort_insert_perm|].
  apply Permutation.perm_skip, IH.
Qed.

Lemma sort_insert_sorted (x : Z) (l : list Z) :
  Sorted.StronglySorted Z.le l ->
  Sorted.StronglySorted Z.le (sort_insert x l).
Proof.
  induction l as [|y l IH]; cbn; intros Hs.
  - constructor; constructor.
  - inversion Hs as [|? ? Hl Hy]; subst.
    destruct (Z.leb_spec x y) as [Hxy|Hxy].
    + constructor; [exact Hs|]. constructor; [exact Hxy|].
      eapply Forall_impl; [|exact Hy]. intros z Hz. cbn in Hz. lia.
    + constructor; [apply IH; exact Hl|].
      eapply Permutation.Permutation_Forall;
        [apply Permutation.Permutation_sym, sort_insert_perm|].
      constructor; [lia | exact Hy].
Qed.

Lemma list_sort_sorted (l : list Z) :
  Sorted.StronglySorted Z.le (list_sort l).
Proof.
  induction l as [|x l IH]; cbn; [constructor|].
  apply sort_insert_sorted, IH.
Qed.

End SortFacts.

Section RangeResultFacts.

Lemma digit_of_nonneg (c : ascii) (d : Z) :
  digit_of c = Some d -> (0 <= d)%Z.
Proof.
  unfold digit_of. destruct (_ && _)%bool; [|discriminate].
  intros [= <-]. lia.
Qed.

Lemma int_digits_nonneg (s : string) :
  forall (acc : Z) (b : bool) (n : Z),
    (0 <= acc)%Z -> int_digits s acc b = Some n -> (0 <= n)%Z.
Proof.
  induction s as [|c s IH]; intros acc b n Hacc; cbn [int_digits].
  - destruct b; [|discriminate]. intros [= <-]. exact Hacc.
  - destruct (digit_of c) as [d|] eqn:Hd.
    + apply IH. pose proof (@digit_of_nonneg c d Hd). lia.
    + destruct (c =? "_")%char.
      * destruct b; [|discriminate]. apply IH. exact Hacc.
      * destruct (b && _)%bool; [|discriminate]. intros [= <-]. exact Hacc.
Qed.

Lemma skip_int_space_free_of (c : ascii) (s : string) :
  free_of c s = true -> free_of c (skip_int_space s) = true.
Proof.
  induction s as [|x s IH]; [reflexivity|].
  cbn [skip_int_space]. destruct (is_int_space x); [|tauto].
  cbn. intros H. apply andb_prop in H as (_ & Hs). apply IH, Hs.
Qed.

(** A string without a hyphen is never read as a negative number. *)
Lemma py_int_nonneg (a : string) (n : Z) :
  free_of "-" a = true -> py_int a = Ok n -> (0 <= n)%Z.
Proof.
  intros Hfree. apply skip_int_space_free_of in Hfree.
  unfold py_int. destruct (skip_int_space a) as [|c r]; [discriminate|].
  cbn [int_signed].
  destruct (c =? "+")%char.
  - destruct (int_digits r 0 false) eqn:E; [|discriminate].
    intros [= <-]. eapply int_digits_nonneg; [|exact E]. lia.
  - cbn in Hfree. apply andb_prop in Hfree as (Hc & _).
    apply negb_true_iff in Hc. rewrite Hc.
    destruct (int_digits (String c r) 0 false) eqn:E; [|discriminate].
    intros [= <-].
    eapply int_digits_nonneg; [|exact E]. lia.
Qed.

Lemma in_py_range (a b z : Z) :
  In z (py_range a b) <-> (a <= z < b)%Z.
Proof.
  unfold py_range. rewrite in_map_iff. split.
  - intros (i & <- & Hi). apply in_seq in Hi. lia.
  - intros Hz. exists (Z.to_nat (z - a)). split; [lia|].
    apply in_seq. lia.
Qed.

Lemma subrange_ints_nonneg (substr : string) (ints : list Z) :
  subrange_ints substr = Returns ints -> Forall (fun n => (0 <= n)%Z) ints.
Proof.
  unfold subrange_ints, str_split.
  pose proof (pieces_free_of "-" substr) as Hfree.
  destruct (pieces "-" substr) as (p, ps). destruct Hfree as (Hp & Hps).
  destruct ps as [|q [|r ps]]; [| |discriminate].
  - destruct (py_int p) as [a|e] eqn:Ea; [|discriminate].
    cbn. intros [= <-]. constructor; [|constructor].
    eapply py_int_nonneg; eassumption.
  - destruct (py_int p) as [a|e] eqn:Ea; [|discriminate].
    cbn [lift and_then].
    destruct (py_int q) as [b|e] eqn:Eb; [|discriminate].
    cbn. intros [= <-]. apply Forall_forall. intros z Hz.
    apply in_py_range in Hz.
    pose proof (@py_int_nonneg p a Hp Ea). lia.
Qed.

Lemma extend_all_nonneg (substrs : list string) :
  forall list_range ints,
    Forall (fun n => (0 <= n)%Z) list_range ->
    extend_all substrs list_range = Returns ints ->
    Forall (fun n => (0 <= n)%Z) ints.
Proof.
  induction substrs as [|substr substrs IH]; intros list_range ints Hacc.
  - cbn. intros [= <-]. exact Hacc.
  - cbn [extend_all].
    destruct (subrange_ints substr) as [l|e] eqn:E; [|discriminate].
    cbn [and_then]. apply IH. apply Forall_app. split; [exact Hacc|].
    eapply subrange_ints_nonneg. exact E.
Qed.

Lemma py_str_nonneg_digits (n : Z) :
  (0 <= n)%Z -> all_digits (py_str n) = true /\ py_str n <> "".
Proof.
  intros Hn. rewrite <- (Z2Nat.id n Hn). apply py_str_nat_digits.
Qed.

End RangeResultFacts.




(** ** labelset_to_set *)

Section LabelsetFacts.

Lemma free_of_concat (c : ascii) (sep : string) (parts : list string) :
  free_of c sep = true -> forallb (free_of c) parts = true ->
  free_of c (String.concat sep parts) = true.
Proof.
  intros Hsep. induction parts as [|p parts IH]; [reflexivity|].
  cbn [forallb]. intros H. apply andb_prop in H as (Hp & Hparts).
  destruct parts as [|q parts]; [exact Hp|].
  change (String.concat sep (p :: q :: parts))
    with (p ++ sep ++ String.concat sep (q :: parts))%string.
  rewrite !free_of_app, Hp, Hsep, (IH Hparts). reflexivity.
Qed.

Lemma written_free_of_r (items : list item) :
  forallb tidy_item items = true -> free_of "r" (written items) = true.
Proof.
  intros H. apply free_of_concat; [reflexivity|].
  induction items as [|it items IH]; [reflexivity|].
  cbn in H. apply andb_prop in H as (Hit & Hitems).
  cbn [map forallb]. rewrite (IH Hitems), andb_true_r.
  apply written_item_free_of; [reflexivity .. | exact Hit].
Qed.

Lemma remove_free_of_r (s : string) :
  free_of "r" s = true -> remove_from range_prefix 0 s = s.
Proof.
  induction s as [|c s IH]; [reflexivity|].
  cbn [free_of]. intros H. apply andb_prop in H as (Hc & Hs).
  apply negb_true_iff, Ascii.eqb_neq in Hc.
  cbn [remove_from]. rewrite (IH Hs).
  unfold range_prefix. cbn [String.prefix].
  destruct (ascii_dec "r" c) as [E|_]; [congruence | reflexivity].
Qed.

Lemma remove_range_prefix (w : string) :
  free_of "r" w = true -> str_remove range_prefix (range_prefix ++ w) = w.
Proof.
  intros H. unfold str_remove, range_prefix. cbn.
  replace (String.prefix "" w) with true by (destruct w; reflexivity).
  apply remove_free_of_r. exact H.
Qed.

Lemma prefix_range_prefix (w : string) :
  String.prefix range_prefix (range_prefix ++ w) = true.
Proof. unfold range_prefix. cbn. destruct w; reflexivity. Qed.

Lemma tidy_range_inv (items : list item) :
  tidy_range items = true -> items <> [] /\ forallb tidy_item items = true.
Proof.
  unfold tidy_range. intros H. apply andb_prop in H as (Hn & Ht).
  split; [|exact Ht]. intros ->. discriminate.
Qed.

Lemma range_str_of_range (items : list item) :
  tidy_range items = true ->
  range_str (str_remove range_prefix (range_prefix ++ written items)) true
  = Returns (map py_str (list_sort (concat (map denoted items)))).
Proof.
  intros H. apply tidy_range_inv in H as (Hne & Ht).
  rewrite remove_range_prefix by (apply written_free_of_r; exact Ht).
  apply (@range_str_written_aux items true Hne Ht).
Qed.

Lemma in_denoted (items : list item) (z : Z) :
  In z (concat (map denoted items))
  <-> exists n, z = Z.of_nat n /\ Exists (fun it => covers it n) items.
Proof.
  rewrite in_concat. split.
  - intros (l & Hl & Hz). apply in_map_iff in Hl as (it & <- & Hit).
    destruct it as [x|a b]; cbn [denoted] in Hz.
    + destruct Hz as [<-|[]]. exists (number x). split; [reflexivity|].
      apply Exists_exists. exists (Single x). split; [exact Hit|].
      reflexivity.
    + apply in_py_range in Hz. exists (Z.to_nat z). split; [lia|].
      apply Exists_exists. exists (Span a b). split; [exact Hit|].
      cbn. lia.
  - intros (n & -> & Hex). apply Exists_exists in Hex as (it & Hit & Hc).
    exists (denoted it). split; [apply in_map; exact Hit|].
    destruct it as [x|a b]; cbn in Hc |- *.
    + left. congruence.
    + apply in_py_range. lia.
Qed.

Lemma in_range_labels (items : list item) (l : string) :
  In l (map py_str (list_sort (concat (map denoted items))))
  <-> in_range items l.
Proof.
  unfold in_range. rewrite in_map_iff. split.
  - intros (z & <- & Hz).
    apply (Permutation.Permutation_in _ (list_sort_perm _)) in Hz.
    apply in_denoted in Hz as (n & -> & Hex). exists n. split;
      [reflexivity | exact Hex].
  - intros (n & -> & Hex). exists (Z.of_nat n). split; [reflexivity|].
    apply (Permutation.Permutation_in
             _ (Permutation.Permutation_sym (list_sort_perm _))).
    apply in_denoted. exists n. split; [reflexivity | exact Hex].
Qed.

Lemma entry_labels_names (e : label_entry) (l : string) :
  In l (entry_labels e) <-> names e l.
Proof.
  destruct e; cbn [entry_labels names]; try apply in_range_labels;
    (split; [intros [<-|[]]; reflexivity | intros ->; left; reflexivity]).
Qed.

Lemma labels_of_list_entries (entries : list label_entry) :
  forall labelset_out,
    forallb tidy_entry entries = true ->
    labels_of_list (map value_of_entry entries) labelset_out
    = Returns (labelset_out ++ concat (map entry_labels entries)).
Proof.
  induction entries as [|e entries IH]; intros acc H.
  - cbn. rewrite app_nil_r. reflexivity.
  - cbn [forallb] in H. apply andb_prop in H as (He & Hes).
    cbn [map concat]. rewrite app_assoc, <- (IH _ Hes).
    destruct e as [n|b|s|items]; cbn [value_of_entry labels_of_list
                                       entry_labels tidy_entry] in *.
    + reflexivity.
    + reflexivity.
    + apply negb_true_iff in He. rewrite He. reflexivity.
    + rewrite prefix_range_prefix, (range_str_of_range _ He). reflexivity.
Qed.

End LabelsetFacts.




